(** * MeshParty [trimesh_vtk]: the array <-> cell-array conversion layer

    A shallow embedding of the numpy/VTK marshalling functions of
    [meshparty/trimesh_vtk.py]:

    - [numpy_to_vtk_cells] / [vtk_cellarray_to_shape]  (the cell codec),
    - [numpy_rep_to_vtk], [graph_to_vtk], [trimesh_to_vtk]  (assembly),
    - [poly_to_mesh_components]  (decomposition),
    - [remove_unused_verts]  (vertex compaction),
    - [decimate_trimesh], [process_colors], [mesh_actor],
      [point_cloud_actor], [linked_point_actor]  (the callers).

    Part I holds the definitions, Parts II and III the theorems.  The value-level
    model ([Module Numpy], [Module Vtk], then the functions of the source)
    computes what each function returns or raises; [Module Store] repeats
    the same functions over an explicit buffer store, to speak about
    sharing and in-place updates. *)

From Stdlib Require Import QArith Qcanon.
From stdpp Require Import base numbers list sorting strings pretty gmap.
From Equations Require Import Equations.

Local Open Scope string_scope.
Local Open Scope Z_scope.

(* ===================================================================== *)
(** * Part I: definitions *)
(* ===================================================================== *)

(** ** Python exceptions and the result of a call *)

(** The exceptions the modelled functions can raise.  The source raises
    [ValueError] itself (with a message); the others come from the Python
    and numpy operations it calls.  [SystemError] stands for the failure
    of reading through a reference that denotes no array of the store
    ([Module Store]); no Python program holds such a reference. *)
Inductive exn : Type :=
| ValueError (msg : string)
| ZeroDivisionError
| IndexError
| AttributeError
| SystemError.

Inductive result (A : Type) : Type :=
| Ok (a : A)
| Raise (e : exn).
Arguments Ok {A} a.
Arguments Raise {A} e.

Definition bind {A B} (r : result A) (k : A -> result B) : result B :=
  match r with
  | Ok a => k a
  | Raise e => Raise e
  end.

Declare Scope result_scope.
Delimit Scope result_scope with result.
Notation "x <- r ;; k" := (bind r (fun x => k))
  (at level 100, r at next level, right associativity) : result_scope.
Local Open Scope result_scope.

(** [mapR f l]: run [f] on every element, left to right, stopping at the
    first exception. *)
Fixpoint mapR {A B} (f : A -> result B) (l : list A) : result (list B) :=
  match l with
  | [] => Ok []
  | x :: l' => y <- f x ;; ys <- mapR f l' ;; Ok (y :: ys)
  end.

(** ** numpy *)

Module Numpy.

(** A two-dimensional array: [shape1] columns, one list per row.
    [shape0] is the number of rows, as in [mat.shape[0]]. *)
Record ndarray (A : Type) : Type := NDArray {
  shape1 : nat;
  rows : list (list A)
}.
Arguments NDArray {A} shape1 rows.
Arguments shape1 {A} _.
Arguments rows {A} _.

Definition shape0 {A} (m : ndarray A) : nat := length (rows m).

(** Every row has [shape1] entries.  numpy arrays always are. *)
Definition rectangular {A} (m : ndarray A) : Prop :=
  Forall (fun r => length r = shape1 m) (rows m).

(** [m.ravel()]: row-major flattening. *)
Definition ravel {A} (m : ndarray A) : list A := concat (rows m).

(** [len(m)] *)
Definition len {A} (m : ndarray A) : nat := shape0 m.

(** Integer dtypes an index array is cast to. *)
Inductive dtype : Type := int32 | int64.

Definition dtype_bits (dt : dtype) : Z :=
  match dt with int32 => 32 | int64 => 64 end.

Definition in_range (dt : dtype) (x : Z) : bool :=
  (- 2 ^ (dtype_bits dt - 1) <=? x) && (x <? 2 ^ (dtype_bits dt - 1)).

(** The float64 nearest to the integer [z] (round to nearest, ties to
    even), itself an integer: what [np.hstack] does to an integer array
    stacked with a float64 one, and what [ones * n_dim] does to [n_dim].
    Integers of magnitude below [2^53] are kept. *)
Definition float64_of_int (z : Z) : Z :=
  let a := Z.abs z in
  let e := Z.log2 a + 1 - 53 in
  if e <=? 0 then z
  else
    let q := Z.shiftr a e in
    let r := Z.land a (Z.ones e) in
    let half := 2 ^ (e - 1) in
    let q' := if (half <? r) || ((r =? half) && Z.odd q) then q + 1 else q in
    Z.sgn z * (q' * 2 ^ e).

(** [np.ones(n)[:, None] * k]: an (n,1) float64 column holding [k]. *)
Definition ones_column_times (n k : nat) : ndarray Z :=
  NDArray 1 (replicate n [float64_of_int (Z.of_nat k)]).

(** [np.hstack((a, b))] for arrays with the same number of rows. *)
Definition hstack {A} (a b : ndarray A) : ndarray A :=
  NDArray (shape1 a + shape1 b) (zip_with app (rows a) (rows b)).

Definition map_array {A B} (f : A -> B) (m : ndarray A) : ndarray B :=
  NDArray (shape1 m) (map (map f) (rows m)).

(** [l.reshape(n, w)] of a one-dimensional array. *)
Fixpoint chunks {A} (w n : nat) (l : list A) : list (list A) :=
  match n with
  | O => []
  | S n' => take w l :: chunks w n' (drop w l)
  end.

Definition reshape_msg (size n w : nat) : string :=
  "cannot reshape array of size " ++ pretty size ++
  " into shape (" ++ pretty n ++ "," ++ pretty w ++ ")".

Definition reshape {A} (l : list A) (n w : nat) : result (ndarray A) :=
  if (n * w =? length l)%nat then Ok (NDArray w (chunks w n l))
  else Raise (ValueError (reshape_msg (length l) n w)).

(** [m[:, 1:]] *)
Definition drop_first_column {A} (m : ndarray A) : ndarray A :=
  NDArray (shape1 m - 1) (map (drop 1) (rows m)).

(** [m[:, i]], for [i] below the width of [m] (a rectangular array has
    entry [i] in every row). *)
Definition column (i : nat) (m : ndarray Z) : list Z :=
  map (fun r => default 0 (r !! i)) (rows m).

(** [m[:, i] = col] *)
Definition set_column (i : nat) (col : list Z) (m : ndarray Z) : ndarray Z :=
  NDArray (shape1 m) (zip_with (fun r x => <[i:=x]> r) (rows m) col).

(** [np.zeros((n, w))] *)
Definition zeros (n w : nat) : ndarray Z :=
  NDArray w (replicate n (replicate w 0)).

Definition max_msg : string :=
  "zero-size array to reduction operation maximum which has no identity".

(** [np.max(m)] *)
Definition np_max (m : ndarray Z) : result Z :=
  match ravel m with
  | [] => Raise (ValueError max_msg)
  | x :: l => Ok (foldl Z.max x l)
  end.

(** [np.unique(l)]: the sorted distinct values of [l]. *)
Fixpoint insert_unique (x : Z) (l : list Z) : list Z :=
  match l with
  | [] => [x]
  | y :: l' =>
      if x <? y then x :: l
      else if x =? y then l
      else y :: insert_unique x l'
  end.

Definition unique (l : list Z) : list Z := foldr insert_unique [] l.

(** [np.searchsorted(a, v)] (side 'left') for one key: binary search
    between [lo] and [hi]. *)
Equations? bsearch_left (a : list Z) (key : Z) (lo hi : nat) : nat
  by wf (hi - lo)%nat lt :=
  bsearch_left a key lo hi with decide (lo < hi)%nat => {
    | right _ => lo
    | left _ =>
        let mid := (lo + (hi - lo) / 2)%nat in
        if default 0 (a !! mid) <? key
        then bsearch_left a key (S mid) hi
        else bsearch_left a key lo mid }.
Proof.
  all: subst mid;
    change (Nat.divmod (hi - lo) 1 0 1).1 with ((hi - lo) / 2)%nat;
    pose proof (Nat.div_lt (hi - lo) 2); lia.
Qed.

Definition rank_of (a : list Z) (key : Z) : Z :=
  Z.of_nat (bsearch_left a key 0 (length a)).

Definition searchsorted (a : list Z) (v : list Z) : list Z :=
  map (rank_of a) v.

(** [m[idx, :]]: the rows of [m] at the integer indices [idx].  An index
    [k] with [-n <= k < 0] counts from the end; anything outside
    [-n ..  n-1] raises [IndexError]. *)
Definition row_at {A} (m : ndarray A) (k : Z) : result (list A) :=
  let n := Z.of_nat (shape0 m) in
  let k' := if k <? 0 then k + n else k in
  if (0 <=? k') && (k' <? n)
  then match rows m !! Z.to_nat k' with
       | Some r => Ok r
       | None => Raise IndexError
       end
  else Raise IndexError.

Definition take_rows {A} (m : ndarray A) (idx : list Z) : result (ndarray A) :=
  rs <- mapR (row_at m) idx ;; Ok (NDArray (shape1 m) rs).

End Numpy.
Import Numpy.

(** ** VTK *)

Module Vtk.

(** What the installed VTK and the C compiler fix: the byte size of
    [vtkIdType] ([vtk.vtkIdTypeArray().GetDataTypeSize()], 4 or 8), and
    what a cast of a float outside an integer type's range yields (C
    leaves it open). *)
Class Platform : Type := {
  id_type_size : Z;
  float_to_int_overflow : dtype -> Z -> Z
}.

(** The C cast of a float64 holding the integer [x] to [dt]. *)
Definition cast_value `{Platform} (dt : dtype) (x : Z) : Z :=
  if in_range dt x then x else float_to_int_overflow dt x.

(** [m.astype(dt)] of a float64 array holding integers. *)
Definition astype `{Platform} (dt : dtype) (m : ndarray Z) : ndarray Z :=
  map_array (cast_value dt) m.

(** [vtkCellArray]: the number of cells and the flat id array given to
    [SetCells] and returned by [GetData]. *)
Record vtkCellArray : Type := SetCells {
  GetNumberOfCells : nat;
  GetData : list Z
}.

(** [vtk.vtkCellArray()] *)
Definition new_vtkCellArray : vtkCellArray := SetCells 0 [].

(** [vtkPolyData] over coordinates of type [C]: the points (none until
    [SetPoints]), the polygons and the lines. *)
Record vtkPolyData (C : Type) : Type := PolyData {
  GetPoints : option (ndarray C);
  GetPolys : vtkCellArray;
  GetLines : vtkCellArray
}.
Arguments PolyData {C} _ _ _.
Arguments GetPoints {C} _.
Arguments GetPolys {C} _.
Arguments GetLines {C} _.

(** [vtk.vtkPolyData()] *)
Definition new_vtkPolyData {C} : vtkPolyData C :=
  PolyData None new_vtkCellArray new_vtkCellArray.

Definition SetPoints {C} (mesh : vtkPolyData C) (p : ndarray C) : vtkPolyData C :=
  PolyData (Some p) (GetPolys mesh) (GetLines mesh).
Definition SetPolys {C} (mesh : vtkPolyData C) (c : vtkCellArray) : vtkPolyData C :=
  PolyData (GetPoints mesh) c (GetLines mesh).
Definition SetLines {C} (mesh : vtkPolyData C) (c : vtkCellArray) : vtkPolyData C :=
  PolyData (GetPoints mesh) (GetPolys mesh) c.

Definition GetNumberOfPolys {C} (mesh : vtkPolyData C) : nat :=
  GetNumberOfCells (GetPolys mesh).
Definition GetNumberOfLines {C} (mesh : vtkPolyData C) : nat :=
  GetNumberOfCells (GetLines mesh).

(** A cell array whose cells all have one width: the cell count, when
    there are cells, divides the length of the flat id array. *)
Definition uniform_cells (c : vtkCellArray) : Prop :=
  (0 < GetNumberOfCells c)%nat ->
  Nat.divide (GetNumberOfCells c) (length (GetData c)).

End Vtk.
Import Vtk.

(** ** The functions of [trimesh_vtk.py] *)

Definition numpy_to_vtk_cells `{Platform} (mat : ndarray Z) : vtkCellArray :=
  let isize := id_type_size in
  let req_dtype := if isize =? 4 then int32 else int64 in
  let n_elems := shape0 mat in
  let n_dim := shape1 mat in
  SetCells n_elems
    (ravel (astype req_dtype
              (hstack (ones_column_times n_elems n_dim)
                      (map_array float64_of_int mat)))).

Definition numpy_rep_to_vtk `{Platform} {C} (vertices : ndarray C)
    (shapes : ndarray Z) (edges : option (ndarray Z))
  : vtkPolyData C * vtkCellArray * option vtkCellArray :=
  let mesh := SetPoints new_vtkPolyData vertices in
  let cells := numpy_to_vtk_cells shapes in
  let edges :=
    match edges with
    | Some e => if (0 <? len e)%nat then Some (numpy_to_vtk_cells e) else None
    | None => None
    end in
  (mesh, cells, edges).

Definition edge_list_msg : string :=
  "graph_to_vtk() only works on edge lists".
Definition not_3d_msg : string :=
  "trimesh_to_vtk() only works on 3D TriMesh instances".
(** ['edges refer to non existent vertices {}.'.format(i)] *)
Definition non_existent_msg (i : Z) : string :=
  "edges refer to non existent vertices " ++ pretty i ++ ".".

Definition graph_to_vtk `{Platform} {C} (vertices : ndarray C)
    (edges : ndarray Z) : result (vtkPolyData C) :=
  if negb (shape1 edges =? 2)%nat then Raise (ValueError edge_list_msg)
  else
    mx <- np_max edges ;;
    if Z.of_nat (len vertices) <=? mx
    then Raise (ValueError (non_existent_msg mx))
    else
      let '(mesh, cells, edges) := numpy_rep_to_vtk vertices edges None in
      Ok (SetLines mesh cells).

Definition trimesh_to_vtk `{Platform} {C} (vertices : ndarray C)
    (tris : ndarray Z) (graph_edges : option (ndarray Z))
  : result (vtkPolyData C) :=
  if negb (shape1 tris =? 3)%nat then Raise (ValueError not_3d_msg)
  else
    mx <- np_max tris ;;
    if Z.of_nat (len vertices) <=? mx
    then Raise (ValueError (non_existent_msg mx))
    else
      let '(mesh, cells, edges) := numpy_rep_to_vtk vertices tris graph_edges in
      let mesh := SetPolys mesh cells in
      Ok match edges with
         | Some edges => SetLines mesh edges
         | None => mesh
         end.

(** [len(cellarray)/ncells] is a float division, [int] truncates it; for
    lengths an array can have that is the integer quotient. *)
Definition vtk_cellarray_to_shape (vtk_cellarray : list Z) (ncells : nat)
  : result (ndarray Z) :=
  let cellarray := vtk_cellarray in
  if (ncells =? 0)%nat then Raise ZeroDivisionError
  else
    cellarray <- reshape cellarray ncells (length cellarray / ncells) ;;
    Ok (drop_first_column cellarray).

(** [new_face] has the dtype of [faces]; where no entry of [faces] is
    negative, the ranks assigned into it are at most the indices they
    replace ([rank_of_le] below), so the assignment keeps them.  (With
    negative entries a rank can exceed what a narrow dtype holds; the
    theorems about the new faces are stated for entries that are not
    negative.) *)
Definition remove_unused_verts {C} (verts : ndarray C) (faces : ndarray Z)
  : result (ndarray C * ndarray Z) :=
  let used_verts := unique (ravel faces) in
  new_verts <- take_rows verts used_verts ;;
  let new_face := zeros (shape0 faces) (shape1 faces) in
  let new_face :=
    foldl (fun new_face i =>
             set_column i (searchsorted used_verts (column i faces)) new_face)
          new_face (seq 0 (shape1 faces)) in
  Ok (new_verts, new_face).

Definition poly_to_mesh_components {C} (poly : vtkPolyData C)
  : result (ndarray C * option (ndarray Z) * option (ndarray Z)) :=
  points <- match GetPoints poly with
            | Some p => Ok p
            | None => Raise AttributeError
            end ;;
  let ntris := GetNumberOfPolys poly in
  tris <- (if (0 <? ntris)%nat
           then t <- vtk_cellarray_to_shape (GetData (GetPolys poly)) ntris ;;
                Ok (Some t)
           else Ok None) ;;
  let nedges := GetNumberOfLines poly in
  edges <- (if (0 <? nedges)%nat
            then e <- vtk_cellarray_to_shape (GetData (GetLines poly)) nedges ;;
                 Ok (Some e)
            else Ok None) ;;
  Ok (points, tris, edges).

(** ** The error kinds of the specification

    The source raises [ValueError] throughout; the specification names
    the raise sites. *)

(** A cell matrix of the wrong width. *)
Definition DimensionError (e : exn) : Prop :=
  e = ValueError not_3d_msg \/ e = ValueError edge_list_msg.

(** A cell refers to a vertex that does not exist; the message carries
    the index [i]. *)
Definition IndexRangeError (i : Z) (e : exn) : Prop :=
  e = ValueError (non_existent_msg i).

(** The flat encoding does not reshape to the stated number of cells. *)
Definition ShapeError (e : exn) : Prop :=
  exists size n w, e = ValueError (reshape_msg size n w).

(** ** Two platforms

    A VTK built with 64-bit ids and one built with 32-bit ids, on a
    machine whose float-to-integer conversion yields the most negative
    integer when the value does not fit. *)
Definition vtk64 : Platform :=
  {| id_type_size := 8;
     float_to_int_overflow := fun dt _ => - 2 ^ (dtype_bits dt - 1) |}.
Definition vtk32 : Platform :=
  {| id_type_size := 4;
     float_to_int_overflow := fun dt _ => - 2 ^ (dtype_bits dt - 1) |}.

(** The largest index bound the encoding keeps exactly: the cast to
    32-bit ids keeps values below [2^31], the passage through float64
    keeps values below [2^53]. *)
Definition exact_index_bound `{Platform} : Z :=
  if id_type_size =? 4 then 2 ^ 31 else 2 ^ 53.

(** ** The same functions over a store of buffers

    numpy arrays and VTK arrays are views of buffers: several arrays can
    share one buffer, and an assignment through one is seen through the
    others.  Here a call takes the store and references into it and
    returns the store it leaves behind.  Arrays that a call builds and
    drops before it returns (the stacked and cast arrays of the encoder,
    [np.unique]'s result, the columns [np.searchsorted] returns) stay
    values; the arrays a call receives, returns or assigns to are
    references. *)

Module Store.

(** Locations of buffers are natural numbers. *)
Abbreviation loc := nat (only parsing).

(** The buffers of index arrays and the buffers of coordinate arrays. *)
Record store (C : Type) : Type := MkStore {
  ints : gmap nat (list Z);
  coords : gmap nat (list C)
}.
Arguments MkStore {C} _ _.
Arguments ints {C} _.
Arguments coords {C} _.

(** A two-dimensional array object: [vshape0] x [vshape1] entries of the
    buffer at [base], entry (i, j) at [offset + i * stride0 + j * stride1]. *)
Record view : Type := View {
  base : loc;
  offset : nat;
  vshape0 : nat;
  vshape1 : nat;
  stride0 : nat;
  stride1 : nat
}.

Definition view_index (v : view) (i j : nat) : nat :=
  (offset v + i * stride0 v + j * stride1 v)%nat.

(** The view of a whole buffer holding an (n, w) array in row-major
    order. *)
Definition contiguous (l : loc) (n w : nat) : view := View l 0 n w w 1.

(** The array a view denotes in a heap, when its buffer exists and holds
    every entry. *)
Definition read_view {A} (h : gmap nat (list A)) (v : view)
  : option (ndarray A) :=
  buf ← h !! base v;
  rs ← mapM (fun i => mapM (fun j => buf !! view_index v i j)
                           (seq 0 (vshape1 v)))
            (seq 0 (vshape0 v));
  Some (NDArray (vshape1 v) rs).

(** How the installed VTK keeps the cells of a [vtkCellArray].  Up to
    VTK 8 the id array given to [SetCells] is the storage, and
    [GetData()] returns that array.  From VTK 9 on the cells are kept in
    arrays of the cell array's own: [SetCells] copies the ids in, and
    [GetData()] writes them out, at every call, into one more id array
    that the cell array owns (its legacy data), and returns that one. *)
Class CellStorage : Type := {
  exports_legacy_data : bool
}.

(** [vtkCellArray]: the cell count, the buffer that holds the cells (as
    the flat id list), and the id array [GetData()] exports into, if this
    VTK exports. *)
Record vtkCellArray : Type := CellArray {
  GetNumberOfCells : nat;
  Cells : loc;
  LegacyData : option loc
}.

(** The id array [GetData()] returns. *)
Definition data_array (c : vtkCellArray) : loc :=
  match LegacyData c with
  | Some d => d
  | None => Cells c
  end.

(** The id arrays [GetData()] writes into. *)
Definition legacy_data (c : vtkCellArray) : list loc :=
  match LegacyData c with
  | Some d => [d]
  | None => []
  end.

(** [vtkPolyData]: the points, once set, and the two cell arrays. *)
Record vtkPolyData : Type := PolyData {
  GetPoints : option view;
  GetPolys : vtkCellArray;
  GetLines : vtkCellArray
}.

Section WithCoordinates.
Context {C : Type}.

(** A call: from a store to a result or an exception, and a store. *)
Definition M (A : Type) : Type := store C -> result A * store C.

Definition ret {A} (a : A) : M A := fun s => (Ok a, s).
Definition raise {A} (e : exn) : M A := fun s => (Raise e, s).
Definition mbind {A B} (m : M A) (k : A -> M B) : M B :=
  fun s =>
    match m s with
    | (Ok a, s') => k a s'
    | (Raise e, s') => (Raise e, s')
    end.
Definition lift {A} (r : result A) : M A := fun s => (r, s).

Notation "x <~ m ;; k" := (mbind m (fun x => k))
  (at level 100, m at next level, right associativity).

(** [for x in l: f(x)] *)
Fixpoint for_each {A} (l : list A) (f : A -> M unit) : M unit :=
  match l with
  | [] => ret tt
  | x :: l' => _ <~ f x ;; for_each l' f
  end.

(** Reading an array through a reference. *)
Definition load_int (v : view) : M (ndarray Z) :=
  fun s => match read_view (ints s) v with
           | Some m => (Ok m, s)
           | None => (Raise SystemError, s)
           end.
Definition load_coord (v : view) : M (ndarray C) :=
  fun s => match read_view (coords s) v with
           | Some m => (Ok m, s)
           | None => (Raise SystemError, s)
           end.

(** [m[:, i]] read through a reference. *)
Definition load_column (v : view) (i : nat) : M (list Z) :=
  m <~ load_int v ;; ret (column i m).

(** A new buffer, at a location the store does not use yet. *)
Definition alloc_int (buf : list Z) : M loc :=
  fun s => let l := fresh (dom (ints s)) in
           (Ok l, MkStore (<[l := buf]> (ints s)) (coords s)).
Definition alloc_coord (buf : list C) : M loc :=
  fun s => let l := fresh (dom (coords s)) in
           (Ok l, MkStore (ints s) (<[l := buf]> (coords s))).

(** A new array holding [m]. *)
Definition new_int_array (m : ndarray Z) : M view :=
  l <~ alloc_int (ravel m) ;; ret (contiguous l (shape0 m) (shape1 m)).
Definition new_coord_array (m : ndarray C) : M view :=
  l <~ alloc_coord (ravel m) ;; ret (contiguous l (shape0 m) (shape1 m)).

(** [v[:, i] = col]: an assignment into the buffer of [v], entry
    [(r, i)] receiving [col[r]].  (numpy refuses a [col] of another
    length than [vshape0 v]; the source assigns columns of that length.) *)
Definition write_column (v : view) (i : nat) (col : list Z) : M unit :=
  fun s =>
    (Ok tt,
     MkStore
       (alter (fun buf =>
                 foldl (fun b rx => <[view_index v rx.1 i := rx.2]> b) buf
                       (zip (seq 0 (vshape0 v)) col))
              (base v) (ints s))
       (coords s)).

(** Reading and overwriting a whole id array. *)
Definition load_ids (a : loc) : M (list Z) :=
  fun s => match ints s !! a with
           | Some buf => (Ok buf, s)
           | None => (Raise SystemError, s)
           end.
Definition store_ids (a : loc) (buf : list Z) : M unit :=
  fun s => (Ok tt, MkStore (<[a := buf]> (ints s)) (coords s)).

(** [vtk.vtkCellArray()] and [vtk.vtkPolyData()] *)
Definition new_vtkCellArray `{CellStorage} : M vtkCellArray :=
  l <~ alloc_int [] ;;
  if exports_legacy_data
  then d <~ alloc_int [] ;; ret (CellArray 0 l (Some d))
  else ret (CellArray 0 l None).
Definition new_vtkPolyData `{CellStorage} : M vtkPolyData :=
  polys <~ new_vtkCellArray ;;
  lines <~ new_vtkCellArray ;;
  ret (PolyData None polys lines).

(** [cells.SetCells(ncells, ids)]: the id array becomes the storage, or
    is copied into storage of the cell array's own. *)
Definition SetCells (cells : vtkCellArray) (ncells : nat) (ids : loc)
  : M vtkCellArray :=
  match LegacyData cells with
  | None => ret (CellArray ncells ids None)
  | Some d =>
      buf <~ load_ids ids ;;
      l <~ alloc_int buf ;;
      ret (CellArray ncells l (Some d))
  end.

(** [cells.GetData()]: the storage itself, or the legacy data after the
    cells have been written into it. *)
Definition GetData (cells : vtkCellArray) : M loc :=
  match LegacyData cells with
  | None => ret (Cells cells)
  | Some d =>
      buf <~ load_ids (Cells cells) ;;
      _ <~ store_ids d buf ;;
      ret d
  end.

(** [numpy_to_vtk(a, deep=1)] copies the array into a buffer of its own;
    [numpy_to_vtkIdTypeArray(a, deep=1)] likewise. *)
Definition numpy_to_vtk (a : view) : M view :=
  m <~ load_coord a ;; new_coord_array m.
Definition numpy_to_vtkIdTypeArray (a : list Z) : M loc :=
  alloc_int a.

(** [vtk_to_numpy(a)] of an id array: the numpy array over the very
    buffer of [a]; no copy.  It returns the buffer and its length. *)
Definition vtk_to_numpy (a : loc) : M (loc * nat) :=
  fun s => match ints s !! a with
           | Some buf => (Ok (a, length buf), s)
           | None => (Raise SystemError, s)
           end.

(** [a.reshape(n, w)] of a whole one-dimensional buffer: a view. *)
Definition reshape_view (a : loc * nat) (n w : nat) : M view :=
  if (n * w =? a.2)%nat then ret (contiguous a.1 n w)
  else raise (ValueError (reshape_msg a.2 n w)).

(** [v[:, 1:]]: a view of the same buffer. *)
Definition drop_first_column_view (v : view) : view :=
  View (base v)
       (if (0 <? vshape1 v)%nat then offset v + stride1 v else offset v)%nat
       (vshape0 v) (vshape1 v - 1) (stride0 v) (stride1 v).

Definition numpy_to_vtk_cells `{Platform} `{CellStorage} (mat : view)
  : M vtkCellArray :=
  cells <~ new_vtkCellArray ;;
  m <~ load_int mat ;;
  let isize := id_type_size in
  let req_dtype := if isize =? 4 then int32 else int64 in
  let n_elems := shape0 m in
  let n_dim := shape1 m in
  ids <~ numpy_to_vtkIdTypeArray
           (ravel (astype req_dtype
                     (hstack (ones_column_times n_elems n_dim)
                             (map_array float64_of_int m)))) ;;
  SetCells cells n_elems ids.

Definition numpy_rep_to_vtk `{Platform} `{CellStorage} (vertices shapes : view)
    (edges : option view)
  : M (vtkPolyData * vtkCellArray * option vtkCellArray) :=
  mesh <~ new_vtkPolyData ;;
  points <~ numpy_to_vtk vertices ;;
  let mesh := PolyData (Some points) (GetPolys mesh) (GetLines mesh) in
  cells <~ numpy_to_vtk_cells shapes ;;
  edges <~ match edges with
           | Some e =>
               if (0 <? vshape0 e)%nat
               then c <~ numpy_to_vtk_cells e ;; ret (Some c)
               else ret None
           | None => ret None
           end ;;
  ret (mesh, cells, edges).

Definition graph_to_vtk `{Platform} `{CellStorage} (vertices edges : view)
  : M vtkPolyData :=
  if negb (vshape1 edges =? 2)%nat then raise (ValueError edge_list_msg)
  else
    e <~ load_int edges ;;
    mx <~ lift (np_max e) ;;
    if Z.of_nat (vshape0 vertices) <=? mx
    then raise (ValueError (non_existent_msg mx))
    else
      r <~ numpy_rep_to_vtk vertices edges None ;;
      let '(mesh, cells, _) := r in
      ret (PolyData (GetPoints mesh) (GetPolys mesh) cells).

Definition trimesh_to_vtk `{Platform} `{CellStorage} (vertices tris : view)
    (graph_edges : option view) : M vtkPolyData :=
  if negb (vshape1 tris =? 3)%nat then raise (ValueError not_3d_msg)
  else
    t <~ load_int tris ;;
    mx <~ lift (np_max t) ;;
    if Z.of_nat (vshape0 vertices) <=? mx
    then raise (ValueError (non_existent_msg mx))
    else
      r <~ numpy_rep_to_vtk vertices tris graph_edges ;;
      let '(mesh, cells, edges) := r in
      let mesh := PolyData (GetPoints mesh) cells (GetLines mesh) in
      ret match edges with
          | Some edges => PolyData (GetPoints mesh) (GetPolys mesh) edges
          | None => mesh
          end.

Definition vtk_cellarray_to_shape (vtk_cellarray : loc) (ncells : nat)
  : M view :=
  cellarray <~ vtk_to_numpy vtk_cellarray ;;
  if (ncells =? 0)%nat then raise ZeroDivisionError
  else
    cellarray <~ reshape_view cellarray ncells (cellarray.2 / ncells) ;;
    ret (drop_first_column_view cellarray).

Definition remove_unused_verts (verts faces : view) : M (view * view) :=
  f <~ load_int faces ;;
  let used_verts := unique (ravel f) in
  v <~ load_coord verts ;;
  selected <~ lift (take_rows v used_verts) ;;
  new_verts <~ new_coord_array selected ;;
  new_face <~ new_int_array (zeros (vshape0 faces) (vshape1 faces)) ;;
  _ <~ for_each (seq 0 (vshape1 faces))
         (fun i =>
            col <~ load_column faces i ;;
            write_column new_face i (searchsorted used_verts col)) ;;
  ret (new_verts, new_face).

Definition poly_to_mesh_components (poly : vtkPolyData)
  : M (view * option view * option view) :=
  points <~ match GetPoints poly with
            | Some p => ret p
            | None => raise AttributeError
            end ;;
  let ntris := GetNumberOfCells (GetPolys poly) in
  tris <~ (if (0 <? ntris)%nat
           then a <~ GetData (GetPolys poly) ;;
                t <~ vtk_cellarray_to_shape a ntris ;;
                ret (Some t)
           else ret None) ;;
  let nedges := GetNumberOfCells (GetLines poly) in
  edges <~ (if (0 <? nedges)%nat
            then a <~ GetData (GetLines poly) ;;
                 e <~ vtk_cellarray_to_shape a nedges ;;
                 ret (Some e)
            else ret None) ;;
  ret (points, tris, edges).

(** Every buffer of [s] is a buffer of [s'], with the same contents. *)
Definition preserved (s s' : store C) : Prop :=
  ints s ⊆ ints s' /\ coords s ⊆ coords s'.

(** A call after which every buffer of the store it started from is
    still there, unchanged. *)
Definition frame_ok {A} (m : M A) : Prop :=
  forall s, preserved s (m s).2.

(** Every buffer of [s], but for the id arrays at the locations [x], is
    a buffer of [s'] with the same contents. *)
Definition preserved_but (x : list loc) (s s' : store C) : Prop :=
  (forall l buf, l ∉ x -> ints s !! l = Some buf -> ints s' !! l = Some buf) /\
  coords s ⊆ coords s'.

(** The buffer of an index array was not there in [s] and is in [s']. *)
Definition new_int_buffer (s s' : store C) (l : loc) : Prop :=
  ints s !! l = None /\ is_Some (ints s' !! l).
Definition new_coord_buffer (s s' : store C) (l : loc) : Prop :=
  coords s !! l = None /\ is_Some (coords s' !! l).

(** A cell array of the store holds the value-level cell array [vc]:
    the same count, and [vc]'s flat ids in its buffer. *)
Definition cells_denote (h : gmap nat (list Z)) (c : vtkCellArray)
    (vc : Vtk.vtkCellArray) : Prop :=
  GetNumberOfCells c = Vtk.GetNumberOfCells vc /\
  h !! Cells c = Some (Vtk.GetData vc).

(** A mesh of the store holds the value-level mesh [vmesh]. *)
Definition mesh_denotes (s : store C) (mesh : vtkPolyData)
    (vmesh : Vtk.vtkPolyData C) : Prop :=
  (GetPoints mesh ≫= read_view (coords s)) = Vtk.GetPoints vmesh /\
  cells_denote (ints s) (GetPolys mesh) (Vtk.GetPolys vmesh) /\
  cells_denote (ints s) (GetLines mesh) (Vtk.GetLines vmesh).

(** A cell array all of whose buffers are new, and a mesh all of whose
    buffers are. *)
Definition new_cells (s s' : store C) (c : vtkCellArray) : Prop :=
  new_int_buffer s s' (Cells c) /\
  Forall (new_int_buffer s s') (legacy_data c).
Definition new_mesh (s s' : store C) (mesh : vtkPolyData) : Prop :=
  (forall p, GetPoints mesh = Some p -> new_coord_buffer s s' (base p)) /\
  new_cells s s' (GetPolys mesh) /\
  new_cells s s' (GetLines mesh).

(** The id arrays a mesh's [GetData()] calls write into lie apart from
    each other and from the buffers that hold its cells. *)
Definition legacy_data_apart (mesh : vtkPolyData) : Prop :=
  NoDup (legacy_data (GetPolys mesh) ++ legacy_data (GetLines mesh)) /\
  Forall (fun d => d <> Cells (GetPolys mesh) /\ d <> Cells (GetLines mesh))
         (legacy_data (GetPolys mesh) ++ legacy_data (GetLines mesh)).

End WithCoordinates.

End Store.

(** A VTK that keeps the id array given to [SetCells] (up to VTK 8), and
    one whose [GetData()] exports (VTK 9). *)
Definition shared_cells : Store.CellStorage :=
  {| Store.exports_legacy_data := false |}.
Definition exported_cells : Store.CellStorage :=
  {| Store.exports_legacy_data := true |}.

(** ** The callers: [decimate_trimesh] and the actors

    The functions of the file that call the builders and the decoder.
    What they hand to the renderer (mappers, glyphs, properties) is kept
    as the fields of a record; scalar parameters and colour components
    are rationals, standing for the finite floats and the integers
    Python passes. *)

(** *** [decimate_trimesh] *)

(** A [trimesh_io.Mesh], as far as this file reads it. *)
Record Mesh (C : Type) : Type := MkMesh {
  mesh_vertices : ndarray C;
  mesh_faces : ndarray Z;
  mesh_link_edges : option (ndarray Z)
}.
Arguments MkMesh {C} _ _ _.
Arguments mesh_vertices {C} _.
Arguments mesh_faces {C} _.
Arguments mesh_link_edges {C} _.

(** [vtkDecimatePro], with its target reduction set and its topology
    preserved, is VTK's: [dec reduction poly] stands for the output it
    computes from [poly]. *)
Definition decimate_trimesh `{Platform} {C}
    (dec : Qc -> vtkPolyData C -> vtkPolyData C)
    (trimesh : Mesh C) (reduction : Qc) : result (ndarray C * ndarray Z) :=
  poly <- trimesh_to_vtk (mesh_vertices trimesh) (mesh_faces trimesh) None ;;
  let out_poly := dec reduction poly in
  points <- match GetPoints out_poly with
            | Some p => Ok p
            | None => Raise AttributeError
            end ;;
  let ntris := GetNumberOfPolys out_poly in
  tris <- vtk_cellarray_to_shape (GetData (GetPolys out_poly)) ntris ;;
  Ok (points, tris).

(** *** [linked_point_actor] *)

(** [np.arange(n)] *)
Definition arange (n : nat) : list Z := map Z.of_nat (seq 0 n).

Definition vstack_msg (m n : nat) : string :=
  "all the input array dimensions except for the concatenation axis must match exactly, but along dimension 1, the array at index 0 has size "
  ++ pretty m ++ " and the array at index 1 has size " ++ pretty n.

(** [np.vstack((a, b))] of two two-dimensional arrays: the rows of [a],
    then the rows of [b]; the widths must agree. *)
Definition vstack {A} (a b : ndarray A) : result (ndarray A) :=
  if (shape1 a =? shape1 b)%nat
  then Ok (NDArray (shape1 a) (rows a ++ rows b))
  else Raise (ValueError (vstack_msg (shape1 a) (shape1 b))).

(** [np.vstack((a, b))] of two one-dimensional arrays: a two-row array;
    the lengths must agree. *)
Definition vstack_1d {A} (a b : list A) : result (ndarray A) :=
  if (length a =? length b)%nat
  then Ok (NDArray (length a) [a; b])
  else Raise (ValueError (vstack_msg (length a) (length b))).

(** [m.T] *)
Definition transpose (m : ndarray Z) : ndarray Z :=
  NDArray (shape0 m) (map (fun j => column j m) (seq 0 (shape1 m))).

(** A [vtkActor] over a poly data: the input of its mapper and the
    properties the function sets. *)
Record vtkActor (C : Type) : Type := Actor {
  GetInput : vtkPolyData C;
  GetLineWidth : Z;
  GetColor : Qc * Qc * Qc;
  GetOpacity : Qc
}.
Arguments Actor {C} _ _ _ _.
Arguments GetInput {C} _.
Arguments GetLineWidth {C} _.
Arguments GetColor {C} _.
Arguments GetOpacity {C} _.

Definition linked_msg : string := "Linked points must have the same length".

Definition linked_point_actor `{Platform} {C}
    (vertices_a vertices_b : ndarray C) (inds_a inds_b : option (list Z))
    (line_width : Z) (color : Qc * Qc * Qc) (opacity : Qc)
  : result (vtkActor C) :=
  let inds_a := match inds_a with
                | None => arange (len vertices_a)
                | Some i => i
                end in
  let inds_b := match inds_b with
                | None => arange (len vertices_b)
                | Some i => i
                end in
  if negb (length inds_a =? length inds_b)%nat
  then Raise (ValueError linked_msg)
  else
    rows_a <- take_rows vertices_a inds_a ;;
    rows_b <- take_rows vertices_b inds_b ;;
    link_verts <- vstack rows_a rows_b ;;
    link_edges <- vstack_1d (arange (length inds_a))
                    (map (Z.add (Z.of_nat (length inds_a)))
                         (arange (length inds_b))) ;;
    link_poly <- graph_to_vtk link_verts (transpose link_edges) ;;
    Ok (Actor link_poly line_width color opacity).

(** *** [process_colors] *)

(** Python's exceptions once more, with the one an [assert] raises. *)
Inductive exception : Type :=
| Exn (e : exn)
| AssertionError.

Inductive outcome (A : Type) : Type :=
| Return (a : A)
| Throw (e : exception).
Arguments Return {A} a.
Arguments Throw {A} e.

Definition obind {A B} (r : outcome A) (k : A -> outcome B) : outcome B :=
  match r with
  | Return a => k a
  | Throw e => Throw e
  end.

Declare Scope outcome_scope.
Delimit Scope outcome_scope with outcome.
Notation "x <<- r ;; k" := (obind r (fun x => k))
  (at level 100, r at next level, right associativity) : outcome_scope.
Local Open Scope outcome_scope.

Definition of_result {A} (r : result A) : outcome A :=
  match r with
  | Ok a => Return a
  | Raise e => Throw (Exn e)
  end.

(** [assert(b)] *)
Definition assert (b : bool) : outcome unit :=
  if b then Return tt else Throw AssertionError.

(** The dtypes of a colour array that the function tells apart: uint8,
    another integer type (what [np.array] makes of Python integers) and
    float64. *)
Inductive color_dtype : Type := c_uint8 | c_int64 | c_float64.
#[global] Instance color_dtype_eq_dec : EqDecision color_dtype.
Proof. solve_decision. Defined.

(** An array of any number of dimensions: its dtype, its shape and its
    entries in row-major order. *)
Record color_array : Type := ColorArray {
  cdtype : color_dtype;
  cshape : list nat;
  cdata : list Qc
}.

(** The number of entries a shape asks for. *)
Definition shape_size (sh : list nat) : nat := foldr Nat.mul 1%nat sh.

Definition well_shaped (a : color_array) : Prop :=
  length (cdata a) = shape_size (cshape a).

(** The product of two float64: IEEE's, not the rationals'. *)
Class Float64 : Type := {
  fmul : Qc -> Qc -> Qc
}.

Definition min_msg : string :=
  "zero-size array to reduction operation minimum which has no identity".

(** [np.max(a)], [np.min(a)] *)
Definition color_max (a : color_array) : outcome Qc :=
  match cdata a with
  | [] => Throw (Exn (ValueError max_msg))
  | x :: l => Return (foldl (fun m y => if decide (m ≤ y)%Qc then y else m) x l)
  end.
Definition color_min (a : color_array) : outcome Qc :=
  match cdata a with
  | [] => Throw (Exn (ValueError min_msg))
  | x :: l => Return (foldl (fun m y => if decide (y ≤ m)%Qc then y else m) x l)
  end.

(** The integer part of a rational, towards zero. *)
Definition Qc_trunc (q : Qc) : Z := Z.quot (Qnum q) (Z.pos (Qden q)).

(** The cast to uint8: the integer part, modulo 256.  (For a float
    outside 0..255 C leaves the cast open; the function casts values of
    [0, 1] and their products with 255 only.) *)
Definition to_uint8 (q : Qc) : Qc := Qc_of_Z (Qc_trunc q mod 256).

(** [a * 255]: exact on integers, the float product on floats. *)
Definition times_255 `{Float64} (dt : color_dtype) (q : Qc) : Qc :=
  match dt with
  | c_float64 => fmul q (Qc_of_Z 255)
  | _ => (q * Qc_of_Z 255)%Qc
  end.

Definition color_shape_msg : string :=
  "color must have shapse Nx3 if explicitly setting, or (N,) if mapping, or (3,)".

Definition process_colors `{Float64} {C} (color : color_array)
    (xyz : ndarray C) : outcome (color_array * bool) :=
  let map_colors := false in
  if decide (cshape color = [len xyz; 3%nat]) then
    if negb (bool_decide (cdtype color = c_uint8)) then
      mx <<- color_max color ;;
      _ <<- assert (bool_decide (mx ≤ 1)%Qc) ;;
      mn <<- color_min color ;;
      _ <<- assert (bool_decide (0 ≤ mn)%Qc) ;;
      Return (ColorArray c_uint8 (cshape color)
                (map (fun x => to_uint8 (times_255 (cdtype color) x))
                     (cdata color)),
              map_colors)
    else Return (color, map_colors)
  else if decide (cshape color = [len xyz]) then
    Return (color, true)
  else if decide (cshape color = [3%nat]) then
    mx <<- color_max color ;;
    _ <<- assert (bool_decide (mx ≤ 1)%Qc) ;;
    mn <<- color_min color ;;
    _ <<- assert (bool_decide (0 ≤ mn)%Qc) ;;
    let car := map (fun x => to_uint8 (to_uint8 x * Qc_of_Z 255)%Qc)
                   (cdata color) in
    Return (ColorArray c_uint8 [len xyz; 3%nat]
              (concat (replicate (len xyz) car)),
            map_colors)
  else Throw (Exn (ValueError color_shape_msg)).

(** *** [point_cloud_actor] *)

(** [size]: one number, or one number per point. *)
Inductive size_arg : Type :=
| ScalarSize (x : Qc)
| SizeArray (l : list Qc).

Definition size_msg : string :=
  "Size must be either a scalar or an len(xyz) x 1 array".

(** The actor of a point cloud: the poly data the glyph filter reads
    (points, their sizes as scalars, the array named colors), and what
    the mapper is told when the colours are to be mapped. *)
Record point_cloud (C : Type) : Type := PointCloud {
  pc_points : ndarray C;
  pc_scalars : list Qc;
  pc_colors : color_array;
  pc_scalar_range : option (Qc * Qc);
  pc_color_array_selected : bool
}.
Arguments PointCloud {C} _ _ _ _ _.
Arguments pc_points {C} _.
Arguments pc_scalars {C} _.
Arguments pc_colors {C} _.
Arguments pc_scalar_range {C} _.
Arguments pc_color_array_selected {C} _.

Definition point_cloud_actor `{Float64} {C} (xyz : ndarray C)
    (size : size_arg) (color : color_array) (opacity : Qc)
  : outcome (point_cloud C) :=
  let points := xyz in
  r <<- process_colors color xyz ;;
  let '(color, map_colors) := r in
  size <<- match size with
           | ScalarSize x => Return (replicate (len xyz) x)
           | SizeArray l =>
               if negb (length l =? len xyz)%nat
               then Throw (Exn (ValueError size_msg))
               else Return l
           end ;;
  if map_colors then
    mn <<- color_min color ;;
    mx <<- color_max color ;;
    Return (PointCloud points size color (Some (mn, mx)) true)
  else Return (PointCloud points size color None false).

(** *** [mesh_actor] *)

(** The actor of a mesh: the poly data, the scalars set on its points
    and on its cells, whether the mapper reads the mesh through the
    normals filter, the lookup table and whether the array named colors
    is selected, and the properties.  [L] is the type of lookup tables. *)
Record vtkMeshActor (C L : Type) : Type := MeshActor {
  ma_poly : vtkPolyData C;
  ma_point_scalars : option color_array;
  ma_cell_scalars : option color_array;
  ma_normals : bool;
  ma_lookup_table : option L;
  ma_color_array_selected : bool;
  ma_line_width : Z;
  ma_color : Qc * Qc * Qc;
  ma_opacity : Qc
}.
Arguments MeshActor {C L} _ _ _ _ _ _ _ _ _.
Arguments ma_poly {C L} _.
Arguments ma_point_scalars {C L} _.
Arguments ma_cell_scalars {C L} _.
Arguments ma_normals {C L} _.
Arguments ma_lookup_table {C L} _.
Arguments ma_color_array_selected {C L} _.
Arguments ma_line_width {C L} _.
Arguments ma_color {C L} _.
Arguments ma_opacity {C L} _.

Definition mesh_actor `{Platform} `{Float64} {C L} (mesh : Mesh C)
    (color : Qc * Qc * Qc) (opacity : Qc)
    (vertex_colors face_colors : option color_array) (lut : option L)
    (calc_normals show_link_edges : bool) (line_width : Z)
  : outcome (vtkMeshActor C L) :=
  mesh_poly <<- of_result
    (if show_link_edges
     then trimesh_to_vtk (mesh_vertices mesh) (mesh_faces mesh)
            (mesh_link_edges mesh)
     else trimesh_to_vtk (mesh_vertices mesh) (mesh_faces mesh) None) ;;
  vertex <<- match vertex_colors with
             | Some vertex_colors =>
                 r <<- process_colors vertex_colors (mesh_vertices mesh) ;;
                 Return (Some r)
             | None => Return None
             end ;;
  face <<- match face_colors with
           | Some face_colors =>
               r <<- process_colors face_colors (mesh_faces mesh) ;;
               Return (Some r)
           | None => Return None
           end ;;
  let normals := calc_normals && negb show_link_edges in
  let selected :=
    match lut, face with
    | Some _, Some (_, map_face_colors) => map_face_colors
    | _, _ => false
    end in
  Return (MeshActor mesh_poly (fst <$> vertex) (fst <$> face) normals lut
            selected line_width color opacity).

(** The edges [trimesh_to_vtk] attaches, and so the ones that come back:
    none when none are given or the list is empty. *)
Definition attached_edges (graph_edges : option (ndarray Z))
  : option (ndarray Z) :=
  match graph_edges with
  | Some e => if (0 <? len e)%nat then Some e else None
  | None => None
  end.

(** The float product where it is exact: on operands whose product is
    a float again, such as 0, 1/2 or 1 times 255. *)
Definition exact_product : Float64 := {| fmul := Qcmult |}.

(* ===================================================================== *)
(** * Part II: theorems *)
(* ===================================================================== *)

(** ** Lists and chunks *)

Lemma length_concat_uniform {A} (w : nat) (rs : list (list A)) :
  Forall (fun r => length r = w) rs ->
  length (concat rs) = (length rs * w)%nat.
Proof.
  induction 1 as [|r rs Hr _ IH]; simpl; [done|].
  rewrite length_app, IH, Hr. lia.
Qed.

Lemma chunks_concat {A} (w : nat) (rs : list (list A)) :
  Forall (fun r => length r = w) rs ->
  chunks w (length rs) (concat rs) = rs.
Proof.
  induction 1 as [|r rs Hr _ IH]; simpl; [done|].
  rewrite take_app_length' by done.
  rewrite drop_app_length' by done.
  by rewrite IH.
Qed.

Lemma length_chunks {A} (w n : nat) (l : list A) :
  length (chunks w n l) = n.
Proof. revert l; induction n as [|n IH]; intros l; simpl; [done|]. by rewrite IH. Qed.

Lemma chunks_row_length {A} (w n : nat) (l : list A) :
  (n * w <= length l)%nat ->
  Forall (fun r => length r = w) (chunks w n l).
Proof.
  revert l; induction n as [|n IH]; intros l Hl; simpl; constructor.
  - rewrite length_take. lia.
  - apply IH. rewrite length_drop. lia.
Qed.

(** Entry [(i, j)] of a reshaped array is entry [i * w + j] of the flat
    one. *)
Lemma chunks_lookup {A} (w n : nat) (l : list A) (i j : nat) :
  (i < n)%nat -> (j < w)%nat ->
  chunks w n l !! i ≫= (fun r => r !! j) = l !! (i * w + j)%nat.
Proof.
  revert l i; induction n as [|n IH]; intros l i Hi Hj; [lia|].
  destruct i as [|i]; simpl.
  - by rewrite lookup_take_lt.
  - rewrite IH by lia. rewrite lookup_drop. f_equal. lia.
Qed.

(** ** Numbers: float64 and the integer casts *)

Lemma float64_of_int_exact (z : Z) :
  Z.abs z < 2 ^ 53 -> float64_of_int z = z.
Proof.
  intros Hz. unfold float64_of_int.
  destruct (Z.leb_spec (Z.log2 (Z.abs z) + 1 - 53) 0) as [|Hgt]; [done|].
  exfalso.
  destruct (Z.eq_dec (Z.abs z) 0) as [H0|Hn0].
  - rewrite H0 in Hgt. simpl in Hgt. lia.
  - assert (Z.log2 (Z.abs z) < 53); [|lia].
    apply Z.log2_lt_pow2; lia.
Qed.

Lemma exact_index_bound_le `{Platform} : exact_index_bound <= 2 ^ 53.
Proof. unfold exact_index_bound. destruct (id_type_size =? 4); lia. Qed.

(** Below the platform's bound an index comes out of the encoder's two
    conversions as it went in. *)
Lemma encode_value_exact `{Platform} (x : Z) :
  0 <= x < exact_index_bound ->
  cast_value (if id_type_size =? 4 then int32 else int64) (float64_of_int x) = x.
Proof.
  intros Hx. pose proof exact_index_bound_le as Hb.
  rewrite float64_of_int_exact by lia.
  unfold exact_index_bound in Hx.
  unfold cast_value, in_range.
  destruct (id_type_size =? 4); simpl dtype_bits in *.
  - replace ((- 2 ^ (32 - 1) <=? x) && (x <? 2 ^ (32 - 1))) with true; [done|].
    symmetry. apply andb_true_iff. split; [apply Z.leb_le | apply Z.ltb_lt]; lia.
  - replace ((- 2 ^ (64 - 1) <=? x) && (x <? 2 ^ (64 - 1))) with true; [done|].
    symmetry. apply andb_true_iff. split; [apply Z.leb_le | apply Z.ltb_lt]; lia.
Qed.

(** ** The cell codec *)

(** The flat encoding, row by row: the width, then the indices, each
    through float64 and the cast to the id type. *)
Lemma numpy_to_vtk_cells_data `{Platform} (m : ndarray Z) :
  let dt := if id_type_size =? 4 then int32 else int64 in
  GetData (numpy_to_vtk_cells m) =
  concat (map (fun r =>
                 cast_value dt (float64_of_int (Z.of_nat (shape1 m)))
                 :: map (fun x => cast_value dt (float64_of_int x)) r)
              (rows m)).
Proof.
  unfold numpy_to_vtk_cells, astype, map_array, hstack, ones_column_times,
    ravel, shape0; simpl.
  f_equal. generalize (shape1 m); intros k.
  induction (rows m) as [|r rs IH]; simpl; [done|].
  rewrite IH. f_equal. simpl. f_equal. by rewrite map_map.
Qed.

Lemma numpy_to_vtk_cells_count `{Platform} (m : ndarray Z) :
  GetNumberOfCells (numpy_to_vtk_cells m) = shape0 m.
Proof. done. Qed.

(** The encoding of an (M,K) matrix has [M * (K + 1)] entries. *)
Lemma numpy_to_vtk_cells_length `{Platform} (m : ndarray Z) :
  rectangular m ->
  length (GetData (numpy_to_vtk_cells m)) = (shape0 m * S (shape1 m))%nat.
Proof.
  intros Hm. rewrite numpy_to_vtk_cells_data. cbv zeta.
  rewrite (length_concat_uniform (S (shape1 m))).
  - by rewrite length_map.
  - apply Forall_map. eapply Forall_impl; [exact Hm|].
    intros r Hr; simpl. by rewrite length_map, Hr.
Qed.

Lemma vtk_cellarray_to_shape_concat (rs : list (list Z)) (w : nat) :
  Forall (fun r => length r = w) rs -> rs <> [] ->
  vtk_cellarray_to_shape (concat rs) (length rs) =
  Ok (NDArray (w - 1) (map (drop 1) rs)).
Proof.
  intros Hrs Hne. unfold vtk_cellarray_to_shape.
  assert (length rs <> 0%nat) as Hn by (destruct rs; simpl; [done | lia]).
  apply Nat.eqb_neq in Hn as Hn'. rewrite Hn'.
  rewrite (length_concat_uniform w) by done.
  rewrite (Nat.mul_comm (length rs)), Nat.div_mul by done.
  unfold reshape. rewrite (length_concat_uniform w) by done.
  rewrite Nat.eqb_refl; simpl. unfold drop_first_column; simpl.
  by rewrite chunks_concat.
Qed.

(** C1 (as amended).  Decoding the encoding of a rectangular matrix with
    at least one row, whose indices lie in [0, exact_index_bound) (below
    2^31 with 32-bit ids, below 2^53 otherwise), with the matrix's own row
    count, returns the matrix. *)
Theorem C1_roundtrip `{Platform} (m : ndarray Z) :
  rectangular m ->
  (0 < shape0 m)%nat ->
  Forall (fun x => 0 <= x < exact_index_bound) (ravel m) ->
  vtk_cellarray_to_shape (GetData (numpy_to_vtk_cells m)) (shape0 m) = Ok m.
Proof.
  intros Hrect Hpos Hval.
  rewrite numpy_to_vtk_cells_data. cbv zeta.
  set (dt := if id_type_size =? 4 then int32 else int64).
  set (enc := fun r : list Z =>
    cast_value dt (float64_of_int (Z.of_nat (shape1 m)))
    :: map (fun x => cast_value dt (float64_of_int x)) r).
  replace (shape0 m) with (length (map enc (rows m)))
    by (by rewrite length_map).
  rewrite (vtk_cellarray_to_shape_concat _ (S (shape1 m))).
  - destruct m as [k rs]; simpl in *. f_equal. f_equal; [lia|].
    rewrite map_map. unfold enc; simpl.
    unfold ravel in Hval; simpl in Hval.
    clear -Hval. induction rs as [|r rs IH]; simpl; [done|].
    apply Forall_app in Hval as [Hr Hrs]. rewrite IH by done. f_equal.
    rewrite drop_0.
    clear -Hr. induction Hr as [|x r Hx _ IH]; simpl; [done|].
    rewrite IH. f_equal. by apply encode_value_exact.
  - apply Forall_map. eapply Forall_impl; [exact Hrect|].
    intros r Hr. unfold enc; simpl. by rewrite length_map, Hr.
  - unfold shape0 in Hpos. destruct (rows m); simpl in *; [lia | done].
Qed.

Lemma C1_roundtrip_witness :
  vtk_cellarray_to_shape
    (GetData (@numpy_to_vtk_cells vtk32 (NDArray 3 [[0; 1; 2]; [2; 1; 3]])))
    2
  = Ok (NDArray 3 [[0; 1; 2]; [2; 1; 3]]).
Proof.
  apply (@C1_roundtrip vtk32 (NDArray 3 [[0; 1; 2]; [2; 1; 3]])).
  - repeat constructor.
  - unfold shape0; simpl; lia.
  - unfold ravel; simpl. repeat constructor; vm_compute; congruence.
Defined.

(** C1 as stated fails.  A (0,1) matrix satisfies every hypothesis of the
    claim (vacuously, with V = 1), its encoding is empty, and decoding it
    with cell count 0 divides by zero.  And the (1,1) matrix holding
    2^53 + 1, with V = 2^53 + 2, comes back as 2^53: the encoder stacks
    the indices with a float64 column. *)
Lemma C1_counterexample :
  (let m := NDArray 1 [] in
   rectangular m /\ (1 <= shape1 m)%nat /\
   Forall (fun x => 0 <= x < 1) (ravel m) /\
   vtk_cellarray_to_shape (GetData (@numpy_to_vtk_cells vtk64 m)) (shape0 m)
   = Raise ZeroDivisionError) /\
  (let m := NDArray 1 [[2 ^ 53 + 1]] in
   rectangular m /\ (1 <= shape1 m)%nat /\
   Forall (fun x => 0 <= x < 2 ^ 53 + 2) (ravel m) /\
   vtk_cellarray_to_shape (GetData (@numpy_to_vtk_cells vtk64 m)) (shape0 m)
   = Ok (NDArray 1 [[2 ^ 53]]) /\
   Ok (NDArray 1 [[2 ^ 53]]) <> Ok m).
Proof.
  split; cbv zeta.
  - repeat split; try done. constructor.
  - repeat split.
    + repeat constructor.
    + done.
    + unfold ravel; simpl. repeat constructor; lia.
    + intros Heq. inversion Heq.
Qed.

(** C6 (as amended).  For a positive cell count: when the count divides
    the length of the flat sequence, the decoder returns the
    (ncells, width - 1) matrix whose entry (i, j) is entry
    [i * width + 1 + j] of the flat sequence, width being the quotient
    (the reshape, less its first column); otherwise it fails with the
    ShapeError of the reshape. *)
Theorem C6_decode (flat : list Z) (ncells : nat) :
  (0 < ncells)%nat ->
  let w := (length flat / ncells)%nat in
  (Nat.divide ncells (length flat) ->
   exists m,
     vtk_cellarray_to_shape flat ncells = Ok m /\
     shape0 m = ncells /\ shape1 m = (w - 1)%nat /\ rectangular m /\
     forall i j, (i < ncells)%nat -> (j < w - 1)%nat ->
       rows m !! i ≫= (fun r => r !! j) = flat !! (i * w + 1 + j)%nat) /\
  (~ Nat.divide ncells (length flat) ->
   exists e, vtk_cellarray_to_shape flat ncells = Raise e /\ ShapeError e).
Proof.
  intros Hpos w. unfold vtk_cellarray_to_shape, reshape.
  assert ((ncells =? 0)%nat = false) as -> by (apply Nat.eqb_neq; lia).
  fold w. split.
  - intros [q Hq].
    assert (w = q) as Hw by (unfold w; rewrite Hq; apply Nat.div_mul; lia).
    assert ((ncells * w =? length flat)%nat = true) as ->
      by (apply Nat.eqb_eq; rewrite Hq, Hw; apply Nat.mul_comm).
    simpl. eexists; split; [done|]. unfold drop_first_column, shape0; simpl.
    rewrite length_map, length_chunks. split_and!; try done.
    + unfold rectangular; simpl. apply Forall_map.
      eapply Forall_impl; [apply (chunks_row_length w ncells flat); lia|].
      intros r Hr; simpl in *. by rewrite length_drop, Hr.
    + intros i j Hi Hj. rewrite list_lookup_fmap.
      replace (i * w + 1 + j)%nat with (i * w + (1 + j))%nat by lia.
      rewrite <- (chunks_lookup w ncells flat i (1 + j)) by lia.
      destruct (chunks w ncells flat !! i) as [r|]; simpl; [|done].
      by rewrite lookup_drop.
  - intros Hnd.
    assert ((ncells * w =? length flat)%nat = false) as ->.
    { apply Nat.eqb_neq. intros Heq. apply Hnd. exists w. lia. }
    simpl. eexists; split; [done|]. by eexists _, _, _.
Qed.

Lemma C6_decode_witness :
  (exists m, vtk_cellarray_to_shape [2; 0; 1; 2; 1; 2] 2 = Ok m /\
             rows m !! 1%nat ≫= (fun r => r !! 0%nat) = Some 1) /\
  (exists e, vtk_cellarray_to_shape [2; 0; 1; 2; 1] 2 = Raise e /\
             ShapeError e).
Proof.
  split.
  - destruct (C6_decode [2; 0; 1; 2; 1; 2] 2 ltac:(lia)) as [Hdiv _].
    destruct Hdiv as (m & Hm & _ & _ & _ & Hent); [by exists 3%nat|].
    exists m. split; [done|].
    apply (Hent 1%nat 0%nat); simpl; lia.
  - destruct (C6_decode [2; 0; 1; 2; 1] 2 ltac:(lia)) as [_ Hnd].
    apply Hnd. intros [q Hq]. simpl in Hq. lia.
Defined.

(** C6 as stated fails at cell count 0.  The length 1 is not divisible
    by 0, yet the failure is the division by zero, not the ShapeError of
    the reshape; and the empty sequence, whose length 0 divides, is not
    reshaped either. *)
Lemma C6_counterexample :
  (~ Nat.divide 0 (length [1]) /\
   vtk_cellarray_to_shape [1] 0 = Raise ZeroDivisionError /\
   ~ ShapeError ZeroDivisionError) /\
  (Nat.divide 0 (length (@nil Z)) /\
   vtk_cellarray_to_shape [] 0 = Raise ZeroDivisionError).
Proof.
  split; [split_and! | split].
  - intros [q Hq]. simpl in Hq. lia.
  - reflexivity.
  - intros (? & ? & ? & ?). discriminate.
  - by exists 0%nat.
  - reflexivity.
Qed.

(** ** Assembly: [graph_to_vtk] and [trimesh_to_vtk] *)

Lemma foldl_max_spec (l : list Z) (x : Z) :
  foldl Z.max x l ∈ x :: l /\ Forall (fun y => y <= foldl Z.max x l) (x :: l).
Proof.
  revert x; induction l as [|y l IH]; intros x; simpl.
  - split; [left | repeat constructor; lia].
  - destruct (IH (Z.max x y)) as [Hin Hle].
    apply Forall_cons in Hle as [Hxy Hl]. split.
    + apply elem_of_cons in Hin as [->|Hin]; [|by do 2 right].
      destruct (Z.max_spec x y) as [[_ ->]|[_ ->]]; [right|]; left.
    + repeat constructor; [lia | lia | done].
Qed.

Lemma np_max_spec (m : ndarray Z) (mx : Z) :
  np_max m = Ok mx -> mx ∈ ravel m /\ Forall (fun y => y <= mx) (ravel m).
Proof.
  unfold np_max. destruct (ravel m) as [|x l]; [done|].
  intros [= <-]. apply foldl_max_spec.
Qed.

Lemma np_max_nonempty (m : ndarray Z) :
  ravel m <> [] -> exists mx, np_max m = Ok mx.
Proof. unfold np_max. destruct (ravel m); [done | eauto]. Qed.

Lemma np_max_empty (m : ndarray Z) :
  ravel m = [] -> np_max m = Raise (ValueError max_msg).
Proof. unfold np_max. by intros ->. Qed.

(** The width check comes first, in both builders. *)
Lemma trimesh_to_vtk_width `{Platform} {C} (vertices : ndarray C)
    (tris : ndarray Z) (graph_edges : option (ndarray Z)) :
  shape1 tris <> 3%nat ->
  trimesh_to_vtk vertices tris graph_edges = Raise (ValueError not_3d_msg).
Proof.
  intros Hw. unfold trimesh_to_vtk.
  by apply Nat.eqb_neq in Hw as ->.
Qed.

Lemma graph_to_vtk_width `{Platform} {C} (vertices : ndarray C)
    (edges : ndarray Z) :
  shape1 edges <> 2%nat ->
  graph_to_vtk vertices edges = Raise (ValueError edge_list_msg).
Proof.
  intros Hw. unfold graph_to_vtk.
  by apply Nat.eqb_neq in Hw as ->.
Qed.

(** Past the checks, the faces are encoded into the polygons and the
    edges, when given and non-empty, into the lines: nothing looks at the
    width or the entries of [graph_edges]. *)
Lemma trimesh_to_vtk_checked `{Platform} {C} (vertices : ndarray C)
    (tris : ndarray Z) (graph_edges : option (ndarray Z)) (mx : Z) :
  shape1 tris = 3%nat -> np_max tris = Ok mx -> mx < Z.of_nat (len vertices) ->
  trimesh_to_vtk vertices tris graph_edges =
  Ok (PolyData (Some vertices) (numpy_to_vtk_cells tris)
        match graph_edges with
        | Some e => if (0 <? len e)%nat then numpy_to_vtk_cells e
                    else new_vtkCellArray
        | None => new_vtkCellArray
        end).
Proof.
  intros Hw Hmx Hlt. unfold trimesh_to_vtk. rewrite Hw, Hmx. simpl.
  assert ((Z.of_nat (len vertices) <=? mx) = false) as -> by (apply Z.leb_gt; lia).
  destruct graph_edges as [e|]; simpl; [|done].
  by destruct (0 <? len e)%nat.
Qed.

Lemma graph_to_vtk_checked `{Platform} {C} (vertices : ndarray C)
    (edges : ndarray Z) (mx : Z) :
  shape1 edges = 2%nat -> np_max edges = Ok mx -> mx < Z.of_nat (len vertices) ->
  graph_to_vtk vertices edges =
  Ok (PolyData (Some vertices) new_vtkCellArray (numpy_to_vtk_cells edges)).
Proof.
  intros Hw Hmx Hlt. unfold graph_to_vtk. rewrite Hw, Hmx. simpl.
  by assert ((Z.of_nat (len vertices) <=? mx) = false) as -> by (apply Z.leb_gt; lia).
Qed.

(** C2.  The faces half of the claim holds ([trimesh_to_vtk_width]); the
    edges half does not.  With four vertices and the valid face (1,2,3),
    the width-3 edges matrix ((1,2,9)), whose index 9 is also out of
    bounds, is accepted and attached as the line cells, and so is the
    width-2 matrix ((1,9)).  [graph_to_vtk] rejects both: the first for
    its width, the second for its index. *)
Theorem C2_edges_not_validated :
  let vertices := NDArray 3 [[0; 0; 0]; [1; 0; 0]; [2; 0; 0]; [3; 0; 0]] in
  let tris := NDArray 3 [[1; 2; 3]] in
  (@trimesh_to_vtk vtk64 Z vertices tris (Some (NDArray 3 [[1; 2; 9]]))
   = Ok (PolyData (Some vertices) (SetCells 1 [3; 1; 2; 3])
           (SetCells 1 [3; 1; 2; 9])) /\
   exists e, @graph_to_vtk vtk64 Z vertices (NDArray 3 [[1; 2; 9]]) = Raise e /\
             DimensionError e) /\
  (@trimesh_to_vtk vtk64 Z vertices tris (Some (NDArray 2 [[1; 9]]))
   = Ok (PolyData (Some vertices) (SetCells 1 [3; 1; 2; 3])
           (SetCells 1 [2; 1; 9])) /\
   exists e, @graph_to_vtk vtk64 Z vertices (NDArray 2 [[1; 9]]) = Raise e /\
             IndexRangeError 9 e).
Proof.
  cbv zeta. split; (split; [reflexivity|]).
  - eexists. split; [reflexivity|]. by right.
  - eexists. split; reflexivity.
Qed.

(** C3 (as amended).  When the cell matrix contains the index
    V = len(vertices), the maximum [mx] of the matrix exists and is at
    least V (it is V when no entry exceeds V), and both builders fail
    with the IndexRangeError whose message carries [mx]:
    [trimesh_to_vtk] on a width-3 matrix, whatever the edges, and
    [graph_to_vtk] on a width-2 one. *)
Theorem C3_bounds `{Platform} {C} (vertices : ndarray C) (cells : ndarray Z)
    (graph_edges : option (ndarray Z)) :
  Z.of_nat (len vertices) ∈ ravel cells ->
  exists mx,
    np_max cells = Ok mx /\
    Z.of_nat (len vertices) <= mx /\
    (Forall (fun x => x <= Z.of_nat (len vertices)) (ravel cells) ->
     mx = Z.of_nat (len vertices)) /\
    (shape1 cells = 3%nat ->
     exists e, trimesh_to_vtk vertices cells graph_edges = Raise e /\
               IndexRangeError mx e) /\
    (shape1 cells = 2%nat ->
     exists e, graph_to_vtk vertices cells = Raise e /\
               IndexRangeError mx e).
Proof.
  intros Hin.
  destruct (np_max_nonempty cells) as [mx Hmx].
  { intros Hnil. rewrite Hnil in Hin. by apply elem_of_nil in Hin. }
  destruct (np_max_spec _ _ Hmx) as [Hmem Hle].
  rewrite Forall_forall in Hle. pose proof (Hle _ Hin) as HV.
  exists mx. split_and!; try done.
  - intros Hall. rewrite Forall_forall in Hall. specialize (Hall _ Hmem). lia.
  - intros Hw. eexists; split; [|reflexivity].
    unfold trimesh_to_vtk. rewrite Hw, Hmx; simpl.
    by assert ((Z.of_nat (len vertices) <=? mx) = true) as -> by (apply Z.leb_le; lia).
  - intros Hw. eexists; split; [|reflexivity].
    unfold graph_to_vtk. rewrite Hw, Hmx; simpl.
    by assert ((Z.of_nat (len vertices) <=? mx) = true) as -> by (apply Z.leb_le; lia).
Qed.

Lemma C3_bounds_witness :
  exists e,
    @trimesh_to_vtk vtk64 Z (NDArray 3 [[0; 0; 0]; [1; 0; 0]; [0; 1; 0]])
      (NDArray 3 [[0; 1; 3]]) None = Raise e /\
    IndexRangeError 3 e /\
    e = ValueError "edges refer to non existent vertices 3.".
Proof.
  destruct (@C3_bounds vtk64 Z (NDArray 3 [[0; 0; 0]; [1; 0; 0]; [0; 1; 0]])
              (NDArray 3 [[0; 1; 3]]) None) as (mx & Hmx & _ & _ & Htri & _).
  - unfold ravel, len, shape0; simpl. set_solver.
  - injection Hmx as <-.
    destruct (Htri eq_refl) as (e & He & Hkind).
    exists e. split_and!; [exact He | exact Hkind | exact Hkind].
Defined.

(** C3 as stated fails where the matrix holds an index larger than V.
    On three vertices the face (0, 3, 7) contains the index V = 3, and
    the error [trimesh_to_vtk] raises carries the maximum, 7: it is not
    the IndexRangeError for 3, and its message has no 3 in it.  Likewise
    for [graph_to_vtk] on the edge (3, 7). *)
Lemma C3_counterexample :
  let vertices := NDArray 3 [[0; 0; 0]; [1; 0; 0]; [0; 1; 0]] in
  let msg := "edges refer to non existent vertices 7." in
  (let tris := NDArray 3 [[0; 3; 7]] in
   Z.of_nat (len vertices) ∈ ravel tris /\
   @trimesh_to_vtk vtk64 Z vertices tris None = Raise (ValueError msg)) /\
  (let edges := NDArray 2 [[3; 7]] in
   Z.of_nat (len vertices) ∈ ravel edges /\
   @graph_to_vtk vtk64 Z vertices edges = Raise (ValueError msg)) /\
  ~ IndexRangeError (Z.of_nat (len vertices)) (ValueError msg) /\
  String.index 0 "3" msg = None.
Proof.
  cbv zeta. split_and!.
  - unfold ravel, len, shape0; simpl. rewrite !elem_of_cons. tauto.
  - reflexivity.
  - unfold ravel, len, shape0; simpl. rewrite !elem_of_cons. tauto.
  - reflexivity.
  - unfold IndexRangeError. vm_compute. discriminate.
  - reflexivity.
Qed.

(** C10.  A zero-row cell matrix of the right width passes the width check
    and fails at the bounds check, in both builders: the maximum of no
    entries does not exist.  The error is neither of the two the builders
    raise themselves, and no mesh is returned. *)
Theorem C10_zero_rows `{Platform} {C} (vertices : ndarray C)
    (graph_edges : option (ndarray Z)) :
  graph_to_vtk vertices (NDArray 2 []) = Raise (ValueError max_msg) /\
  trimesh_to_vtk vertices (NDArray 3 []) graph_edges
    = Raise (ValueError max_msg) /\
  ~ DimensionError (ValueError max_msg) /\
  (forall i, ~ IndexRangeError i (ValueError max_msg)).
Proof.
  split_and!; try reflexivity.
  - intros [Heq|Heq]; discriminate.
  - intros i Heq. unfold IndexRangeError, non_existent_msg in Heq. discriminate.
Qed.

(** ** Decomposition: [poly_to_mesh_components] *)

Lemma vtk_cellarray_to_shape_uniform (flat : list Z) (ncells : nat) :
  (0 < ncells)%nat -> Nat.divide ncells (length flat) ->
  exists t, vtk_cellarray_to_shape flat ncells = Ok t /\ shape0 t = ncells.
Proof.
  intros Hpos [q Hq]. unfold vtk_cellarray_to_shape, reshape.
  assert ((ncells =? 0)%nat = false) as -> by (apply Nat.eqb_neq; lia).
  rewrite Hq, Nat.div_mul by lia.
  rewrite (Nat.mul_comm ncells), Nat.eqb_refl; simpl.
  eexists; split; [done|]. unfold drop_first_column, shape0; simpl.
  by rewrite length_map, length_chunks.
Qed.

(** One cell array of a mesh, as [poly_to_mesh_components] reads it. *)
Lemma decode_cell_array (c : vtkCellArray) :
  uniform_cells c ->
  exists r,
    (if (0 <? GetNumberOfCells c)%nat
     then t <- vtk_cellarray_to_shape (GetData c) (GetNumberOfCells c) ;;
          Ok (Some t)
     else Ok None) = Ok r /\
    (GetNumberOfCells c = 0%nat -> r = None) /\
    ((0 < GetNumberOfCells c)%nat ->
     exists t, r = Some t /\
       vtk_cellarray_to_shape (GetData c) (GetNumberOfCells c) = Ok t /\
       shape0 t = GetNumberOfCells c).
Proof.
  intros Hu. destruct (Nat.ltb_spec 0 (GetNumberOfCells c)) as [Hpos|Hz].
  - destruct (vtk_cellarray_to_shape_uniform _ _ Hpos (Hu Hpos)) as (t & Ht & Hn).
    rewrite Ht; simpl. exists (Some t). split_and!; [done | lia | eauto].
  - exists None. split_and!; [done | done | lia].
Qed.

(** C7.  On a mesh with points and uniform polygon and line cell arrays,
    [poly_to_mesh_components] returns the points and, for the polygons
    and for the lines, [None] when the count is zero and the matrix the
    decoder returns for that count (with that many rows) when it is
    positive. *)
Theorem C7_decompose {C} (poly : vtkPolyData C) (points : ndarray C) :
  GetPoints poly = Some points ->
  uniform_cells (GetPolys poly) ->
  uniform_cells (GetLines poly) ->
  exists tris edges,
    poly_to_mesh_components poly = Ok (points, tris, edges) /\
    (GetNumberOfPolys poly = 0%nat -> tris = None) /\
    ((0 < GetNumberOfPolys poly)%nat ->
     exists t, tris = Some t /\
       vtk_cellarray_to_shape (GetData (GetPolys poly)) (GetNumberOfPolys poly)
         = Ok t /\
       shape0 t = GetNumberOfPolys poly) /\
    (GetNumberOfLines poly = 0%nat -> edges = None) /\
    ((0 < GetNumberOfLines poly)%nat ->
     exists e, edges = Some e /\
       vtk_cellarray_to_shape (GetData (GetLines poly)) (GetNumberOfLines poly)
         = Ok e /\
       shape0 e = GetNumberOfLines poly).
Proof.
  intros Hpts Hpolys Hlines.
  destruct (decode_cell_array _ Hpolys) as (tris & Ht & Ht0 & Ht1).
  destruct (decode_cell_array _ Hlines) as (edges & He & He0 & He1).
  exists tris, edges. split_and!; try done.
  unfold poly_to_mesh_components, GetNumberOfPolys, GetNumberOfLines.
  rewrite Hpts; simpl. rewrite Ht; simpl. by rewrite He.
Qed.

Lemma C7_decompose_witness :
  poly_to_mesh_components
    (PolyData (Some (NDArray 3 [[0; 0; 0]; [1; 0; 0]; [0; 1; 0]]))
       (SetCells 1 [3; 0; 1; 2]) new_vtkCellArray)
  = Ok (NDArray 3 [[0; 0; 0]; [1; 0; 0]; [0; 1; 0]],
        Some (NDArray 3 [[0; 1; 2]]), None).
Proof.
  destruct (C7_decompose
              (PolyData (Some (NDArray 3 [[0; 0; 0]; [1; 0; 0]; [0; 1; 0]]))
                 (SetCells 1 [3; 0; 1; 2]) new_vtkCellArray)
              (NDArray 3 [[0; 0; 0]; [1; 0; 0]; [0; 1; 0]]))
    as (tris & edges & Hres & _ & Htris & Hedges & _).
  - reflexivity.
  - intros _. by exists 4%nat.
  - intros Hpos. simpl in Hpos. lia.
  - rewrite Hres.
    destruct Htris as (t & -> & Ht & _); [unfold GetNumberOfPolys; simpl; lia|].
    rewrite Hedges by reflexivity.
    injection Ht as <-. reflexivity.
Defined.

(** C5.  An edges argument with no rows gives the very result of no
    edges argument, success or failure alike.  When that result is a
    mesh, its line cell array is the empty one and, the faces being
    rectangular, decomposing it yields the vertices, a faces matrix and
    no edges.  For a width-3 faces matrix with entries below the vertex
    count the result is a mesh. *)
Theorem C5_empty_edges `{Platform} {C} (vertices : ndarray C)
    (tris edges : ndarray Z) :
  len edges = 0%nat ->
  rectangular tris ->
  trimesh_to_vtk vertices tris (Some edges) = trimesh_to_vtk vertices tris None /\
  (forall mesh,
     trimesh_to_vtk vertices tris None = Ok mesh ->
     GetLines mesh = new_vtkCellArray /\
     exists faces,
       poly_to_mesh_components mesh = Ok (vertices, Some faces, None)) /\
  (shape1 tris = 3%nat -> ravel tris <> [] ->
   Forall (fun x => x < Z.of_nat (len vertices)) (ravel tris) ->
   exists mesh, trimesh_to_vtk vertices tris None = Ok mesh).
Proof.
  intros Hlen Hrect. split_and!.
  - unfold trimesh_to_vtk, numpy_rep_to_vtk. by rewrite Hlen.
  - intros mesh Hmesh.
    destruct (decide (shape1 tris = 3%nat)) as [Hw|Hw];
      [|by rewrite trimesh_to_vtk_width in Hmesh].
    assert (exists mx, np_max tris = Ok mx /\ mx < Z.of_nat (len vertices))
      as (mx & Hmx & Hlt).
    { unfold trimesh_to_vtk in Hmesh. rewrite Hw in Hmesh; simpl in Hmesh.
      destruct (np_max tris) as [mx|]; [|done]. simpl in Hmesh.
      destruct (Z.leb_spec (Z.of_nat (len vertices)) mx); [done | eauto]. }
    rewrite (trimesh_to_vtk_checked _ _ _ mx) in Hmesh by done.
    injection Hmesh as <-. split; [done|].
    apply np_max_spec in Hmx as [Hmem _].
    assert (0 < shape0 tris)%nat as Hpos.
    { unfold shape0, ravel in *. destruct (rows tris); simpl in *; [|lia].
      by apply elem_of_nil in Hmem. }
    destruct (vtk_cellarray_to_shape_uniform
                (GetData (numpy_to_vtk_cells tris)) (shape0 tris) Hpos)
      as (t & Ht & _).
    { rewrite numpy_to_vtk_cells_length by done.
      exists (S (shape1 tris)). apply Nat.mul_comm. }
    exists t. unfold poly_to_mesh_components, GetNumberOfPolys, GetNumberOfLines.
    cbn [GetPoints GetPolys GetLines bind].
    rewrite numpy_to_vtk_cells_count.
    apply Nat.ltb_lt in Hpos as ->. by rewrite Ht.
  - intros Hw Hne Hall.
    destruct (np_max_nonempty _ Hne) as [mx Hmx].
    destruct (np_max_spec _ _ Hmx) as [Hmem _].
    rewrite Forall_forall in Hall. specialize (Hall _ Hmem).
    rewrite (trimesh_to_vtk_checked _ _ _ mx) by done. eauto.
Qed.

Lemma C5_empty_edges_witness :
  let vertices := NDArray 3 [[0; 0; 0]; [1; 0; 0]; [0; 1; 0]] in
  let tris := NDArray 3 [[0; 1; 2]] in
  @trimesh_to_vtk vtk64 Z vertices tris (Some (NDArray 2 []))
  = @trimesh_to_vtk vtk64 Z vertices tris None /\
  exists mesh, @trimesh_to_vtk vtk64 Z vertices tris None = Ok mesh.
Proof.
  intros vertices tris.
  destruct (@C5_empty_edges vtk64 Z vertices tris (NDArray 2 []))
    as (Heq & _ & Hok).
  - reflexivity.
  - repeat constructor.
  - split; [exact Heq|]. apply Hok.
    + reflexivity.
    + unfold ravel; simpl. discriminate.
    + unfold ravel, len, shape0; simpl. repeat constructor.
Defined.

(** ** Compaction: [np.unique] and [np.searchsorted] *)

Local Close Scope string_scope.

Lemma elem_of_insert_unique (x y : Z) (l : list Z) :
  y ∈ insert_unique x l <-> y = x \/ y ∈ l.
Proof.
  induction l as [|z l IH]; simpl.
  - rewrite list_elem_of_singleton, elem_of_nil. tauto.
  - destruct (Z.ltb_spec x z); [rewrite !elem_of_cons; tauto|].
    destruct (Z.eqb_spec x z) as [->|]; [rewrite !elem_of_cons; tauto|].
    rewrite !elem_of_cons, IH. tauto.
Qed.

Lemma insert_unique_sorted (x : Z) (l : list Z) :
  StronglySorted Z.lt l -> StronglySorted Z.lt (insert_unique x l).
Proof.
  induction 1 as [|z l Hl IH Hz]; simpl.
  - repeat constructor.
  - destruct (Z.ltb_spec x z).
    + constructor; [by constructor|].
      constructor; [done|]. eapply Forall_impl; [exact Hz|].
      intros; simpl in *; lia.
    + destruct (Z.eqb_spec x z); [by constructor|].
      constructor; [done|].
      apply Forall_forall. intros y Hy.
      apply elem_of_insert_unique in Hy as [->|Hy]; [lia|].
      rewrite Forall_forall in Hz. by apply Hz.
Qed.

Lemma unique_sorted (l : list Z) : StronglySorted Z.lt (unique l).
Proof.
  induction l as [|x l IH]; simpl; [constructor|].
  by apply insert_unique_sorted.
Qed.

Lemma elem_of_unique (x : Z) (l : list Z) : x ∈ unique l <-> x ∈ l.
Proof.
  induction l as [|y l IH]; simpl; [done|].
  rewrite elem_of_insert_unique, elem_of_cons, IH. done.
Qed.

(** In a strictly sorted list, positions and values are ordered alike. *)
Lemma sorted_lookup_lt (a : list Z) (i j : nat) (x y : Z) :
  StronglySorted Z.lt a -> (i < j)%nat ->
  a !! i = Some x -> a !! j = Some y -> x < y.
Proof.
  intros Ha. revert i j.
  induction Ha as [|z a Ha IH Hz]; intros i j Hij Hi Hj; [done|].
  destruct j as [|j]; [lia|]. simpl in Hj.
  destruct i as [|i]; simpl in Hi.
  - injection Hi as ->. rewrite Forall_forall in Hz.
    apply Hz. by eapply list_elem_of_lookup_2.
  - apply (IH i j); [lia | done | done].
Qed.

Lemma sorted_lookup_inj (a : list Z) (i j : nat) (x : Z) :
  StronglySorted Z.lt a -> a !! i = Some x -> a !! j = Some x -> i = j.
Proof.
  intros Ha Hi Hj.
  destruct (Nat.lt_trichotomy i j) as [Hlt|[->|Hlt]]; [|done|].
  - pose proof (sorted_lookup_lt a i j x x Ha Hlt Hi Hj). lia.
  - pose proof (sorted_lookup_lt a j i x x Ha Hlt Hj Hi). lia.
Qed.

Lemma sorted_NoDup (a : list Z) : StronglySorted Z.lt a -> NoDup a.
Proof.
  induction 1 as [|z a Ha IH Hz]; constructor; [|done].
  intros Hin. rewrite Forall_forall in Hz. specialize (Hz _ Hin). lia.
Qed.

(** Two strictly sorted lists with the same elements are the same list. *)
Lemma sorted_ext (a b : list Z) :
  StronglySorted Z.lt a -> StronglySorted Z.lt b ->
  (forall x, x ∈ a <-> x ∈ b) -> a = b.
Proof.
  intros Ha Hb Hab.
  apply (StronglySorted_unique_strong Z.lt); [|done|done|].
  - intros; lia.
  - apply NoDup_Permutation; auto using sorted_NoDup.
Qed.

(** The invariant of the binary search: everything left of the result is
    below the key, everything from the result on is not. *)
Lemma bsearch_left_spec (a : list Z) (key : Z) (lo hi : nat) :
  StronglySorted Z.lt a ->
  (lo <= hi <= length a)%nat ->
  (forall i x, (i < lo)%nat -> a !! i = Some x -> x < key) ->
  (forall i x, (hi <= i)%nat -> a !! i = Some x -> key <= x) ->
  let r := bsearch_left a key lo hi in
  (lo <= r <= hi)%nat /\
  (forall i x, (i < r)%nat -> a !! i = Some x -> x < key) /\
  (forall i x, (r <= i)%nat -> a !! i = Some x -> key <= x).
Proof.
  intros Ha. cbv zeta.
  remember (hi - lo)%nat as d eqn:Hd. revert lo hi Hd.
  induction d as [d IH] using lt_wf_ind. intros lo hi Hd Hb Hlo Hhi.
  rewrite bsearch_left_equation_1.
  destruct (decide (lo < hi)%nat) as [Hlt|Hge]; simpl.
  - change (Nat.divmod (hi - lo) 1 0 1).1 with ((hi - lo) / 2)%nat.
    set (mid := (lo + (hi - lo) / 2)%nat).
    assert (lo <= mid < hi)%nat as Hmid.
    { unfold mid. pose proof (Nat.div_lt (hi - lo) 2). lia. }
    destruct (lookup_lt_is_Some_2 a mid ltac:(lia)) as [v Hv].
    rewrite Hv; simpl.
    destruct (Z.ltb_spec v key) as [Hvk|Hvk]; cbv iota.
    + destruct (IH (hi - S mid)%nat ltac:(lia) (S mid) hi eq_refl) as (H1 & H2 & H3).
      * lia.
      * intros i x Hi Hx.
        destruct (decide (i = mid)) as [->|Hne]; [congruence|].
        pose proof (sorted_lookup_lt a i mid x v Ha ltac:(lia) Hx Hv). lia.
      * done.
      * split; [lia | by split].
    + destruct (IH (mid - lo)%nat ltac:(lia) lo mid eq_refl) as (H1 & H2 & H3).
      * lia.
      * done.
      * intros i x Hi Hx.
        destruct (decide (i = mid)) as [->|Hne]; [congruence|].
        pose proof (sorted_lookup_lt a mid i v x Ha ltac:(lia) Hv Hx). lia.
      * split; [lia | by split].
  - assert (lo = hi) as -> by lia. split; [lia | by split].
Qed.

(** The search finds the position of a key that is present. *)
Lemma bsearch_left_found (a : list Z) (key : Z) (p : nat) :
  StronglySorted Z.lt a -> a !! p = Some key ->
  bsearch_left a key 0 (length a) = p.
Proof.
  intros Ha Hp.
  destruct (bsearch_left_spec a key 0 (length a) Ha) as (Hr & Hbelow & Habove).
  - lia.
  - intros; lia.
  - intros i x Hi Hx. apply lookup_lt_Some in Hx. lia.
  - set (r := bsearch_left a key 0 (length a)) in *.
    pose proof (lookup_lt_Some _ _ _ Hp) as Hplen.
    destruct (Nat.lt_trichotomy r p) as [Hlt|[->|Hgt]]; [|done|].
    + destruct (lookup_lt_is_Some_2 a r ltac:(lia)) as [v Hv].
      pose proof (Habove r v ltac:(lia) Hv).
      pose proof (sorted_lookup_lt a r p v key Ha Hlt Hv Hp). lia.
    + pose proof (Hbelow p key Hgt Hp). lia.
Qed.

(** ** Compaction: row selection and the column loop *)

Lemma mapR_Ok {A B} (f : A -> result B) (g : A -> B) (l : list A) :
  Forall (fun x => f x = Ok (g x)) l -> mapR f l = Ok (map g l).
Proof.
  induction 1 as [|x l Hx _ IH]; simpl; [done|]. by rewrite Hx, IH.
Qed.

Lemma row_at_in_range {A} (m : ndarray A) (k : Z) :
  0 <= k < Z.of_nat (shape0 m) ->
  row_at m k = Ok (rows m !!! Z.to_nat k).
Proof.
  intros Hk. unfold row_at.
  assert ((k <? 0) = false) as -> by (apply Z.ltb_ge; lia).
  assert ((0 <=? k) && (k <? Z.of_nat (shape0 m)) = true) as ->.
  { apply andb_true_iff. split; [apply Z.leb_le | apply Z.ltb_lt]; lia. }
  destruct (lookup_lt_is_Some_2 (rows m) (Z.to_nat k)) as [r Hr].
  { unfold shape0 in Hk. lia. }
  rewrite Hr. f_equal. symmetry. by apply list_lookup_total_correct.
Qed.

Lemma take_rows_in_range {A} (m : ndarray A) (idx : list Z) :
  Forall (fun k => 0 <= k < Z.of_nat (shape0 m)) idx ->
  take_rows m idx =
  Ok (NDArray (shape1 m) (map (fun k => rows m !!! Z.to_nat k) idx)).
Proof.
  intros Hidx. unfold take_rows.
  rewrite (mapR_Ok _ (fun k => rows m !!! Z.to_nat k)); [done|].
  eapply Forall_impl; [exact Hidx|]. intros k Hk. by apply row_at_in_range.
Qed.

(** Writing column [k] of a row whose first [k] entries are already
    mapped. *)
Lemma fill_row_step (f : Z -> Z) (w k : nat) (r : list Z) :
  length r = w -> (k < w)%nat ->
  <[k := f (default 0 (r !! k))]> (map f (take k r) ++ replicate (w - k) 0)
  = map f (take (S k) r) ++ replicate (w - S k) 0.
Proof.
  intros Hr Hk.
  destruct (lookup_lt_is_Some_2 r k ltac:(lia)) as [x Hx].
  rewrite Hx; simpl.
  rewrite (take_S_r r k x) by done.
  rewrite map_app; simpl. rewrite <- app_assoc; simpl.
  replace (w - k)%nat with (S (w - S k)) by lia. simpl.
  rewrite insert_app_r_alt; rewrite length_map, length_take; [|lia].
  replace (k - k `min` length r)%nat with 0%nat by lia. done.
Qed.

(** The column loop of [remove_unused_verts] maps every entry. *)
Lemma fill_columns (f : Z -> Z) (m : ndarray Z) (k : nat) :
  rectangular m -> (k <= shape1 m)%nat ->
  foldl (fun new_face i => set_column i (map f (column i m)) new_face)
        (zeros (shape0 m) (shape1 m)) (seq 0 k)
  = NDArray (shape1 m)
      (map (fun r => map f (take k r) ++ replicate (shape1 m - k) 0) (rows m)).
Proof.
  destruct m as [w rs]. unfold rectangular, shape0; simpl.
  intros Hrect. induction k as [|k IH]; intros Hk.
  - simpl. unfold zeros. f_equal.
    rewrite Nat.sub_0_r. clear. induction rs as [|r rs IHr]; simpl; [done|].
    by rewrite IHr.
  - rewrite seq_S, foldl_app; simpl. rewrite IH by lia.
    unfold set_column, column; simpl. f_equal.
    clear IH. induction Hrect as [|r rs Hr _ IHr]; simpl; [done|].
    rewrite IHr. f_equal. by apply fill_row_step.
Qed.

(** [remove_unused_verts] in closed form, for indices within the
    vertices: the rows of [verts] at the sorted distinct indices, and
    every face entry replaced by its position among them. *)
Lemma remove_unused_verts_closed {C} (verts : ndarray C) (faces : ndarray Z) :
  rectangular faces ->
  Forall (fun x => 0 <= x < Z.of_nat (shape0 verts)) (ravel faces) ->
  let used := unique (ravel faces) in
  remove_unused_verts verts faces =
  Ok (NDArray (shape1 verts) (map (fun k => rows verts !!! Z.to_nat k) used),
      NDArray (shape1 faces) (map (map (rank_of used)) (rows faces))).
Proof.
  intros Hrect Hval used. unfold remove_unused_verts. fold used.
  rewrite take_rows_in_range; simpl.
  - f_equal. f_equal. unfold searchsorted.
    rewrite (fill_columns _ faces (shape1 faces)) by done.
    f_equal. rewrite Nat.sub_diag.
    apply map_ext_Forall. eapply Forall_impl; [exact Hrect|].
    intros r Hr; simpl in *.
    rewrite app_nil_r, take_ge; [done | lia].
  - apply Forall_forall. intros k Hk.
    apply (proj1 (elem_of_unique _ _)) in Hk.
    rewrite Forall_forall in Hval. by apply Hval.
Qed.

Lemma elem_of_concat {A} (x : A) (ls : list (list A)) :
  x ∈ concat ls <-> exists l, l ∈ ls /\ x ∈ l.
Proof.
  rewrite list_elem_of_In, in_concat. split.
  - intros (l & Hl & Hx). exists l. by rewrite !list_elem_of_In.
  - intros (l & Hl & Hx). exists l. by rewrite <- !list_elem_of_In.
Qed.

Lemma elem_of_ravel_lookup {A} (m : ndarray A) (x : A) :
  x ∈ ravel m <->
  exists i j, rows m !! i ≫= (fun r => r !! j) = Some x.
Proof.
  unfold ravel. rewrite elem_of_concat. split.
  - intros (r & Hr & Hx).
    apply list_elem_of_lookup in Hr as [i Hi].
    apply list_elem_of_lookup in Hx as [j Hj].
    exists i, j. by rewrite Hi.
  - intros (i & j & Hij).
    destruct (rows m !! i) as [r|] eqn:Hi; [|done]. simpl in Hij.
    exists r. split; by eapply list_elem_of_lookup_2.
Qed.

Lemma ravel_map {A B} (f : A -> B) (w : nat) (rs : list (list A)) :
  ravel (NDArray w (map (map f) rs)) = map f (concat rs).
Proof. unfold ravel; simpl. by rewrite concat_map. Qed.

(** The rank of a referenced index is its position in the sorted
    distinct indices. *)
Lemma rank_of_unique (l : list Z) (x : Z) :
  x ∈ l ->
  exists p, unique l !! p = Some x /\ rank_of (unique l) x = Z.of_nat p.
Proof.
  intros Hx. apply elem_of_unique in Hx.
  apply list_elem_of_lookup in Hx as [p Hp].
  exists p. split; [done|]. unfold rank_of.
  by rewrite (bsearch_left_found _ _ p (unique_sorted l) Hp).
Qed.

(** In a strictly sorted list of non-negative integers a position is at
    most the value it holds: the ranks fit whatever integer type holds
    the indices, so the assignment into [new_face], an array of the
    dtype of [faces], keeps them. *)
Lemma sorted_position_le (a : list Z) (p : nat) (x : Z) :
  StronglySorted Z.lt a -> Forall (fun y => 0 <= y) a ->
  a !! p = Some x -> Z.of_nat p <= x.
Proof.
  intros Ha Hpos. revert x. induction p as [|p IH]; intros x Hp.
  - rewrite Forall_forall in Hpos. apply Hpos.
    by eapply list_elem_of_lookup_2.
  - destruct (lookup_lt_is_Some_2 a p) as [y Hy].
    { apply lookup_lt_Some in Hp. lia. }
    pose proof (sorted_lookup_lt a p (S p) y x Ha ltac:(lia) Hy Hp).
    specialize (IH y Hy). lia.
Qed.

Lemma rank_of_le (l : list Z) (x : Z) :
  Forall (fun y => 0 <= y) l -> x ∈ l -> 0 <= rank_of (unique l) x <= x.
Proof.
  intros Hpos Hx. destruct (rank_of_unique l x Hx) as (p & Hp & ->).
  split; [lia|].
  apply (sorted_position_le (unique l)); [apply unique_sorted | | done].
  apply Forall_forall. intros y Hy.
  apply (proj1 (elem_of_unique _ _)) in Hy.
  rewrite Forall_forall in Hpos. by apply Hpos.
Qed.

Lemma remove_unused_verts_spec {C} (verts : ndarray C) (faces : ndarray Z) :
  rectangular faces ->
  Forall (fun x => 0 <= x < Z.of_nat (shape0 verts)) (ravel faces) ->
  exists used new_verts new_face,
    remove_unused_verts verts faces = Ok (new_verts, new_face) /\
    (StronglySorted Z.lt used /\ forall x, x ∈ used <-> x ∈ ravel faces) /\
    (shape1 new_verts = shape1 verts /\ shape0 new_verts = length used /\
     forall j k, used !! j = Some k ->
       is_Some (rows verts !! Z.to_nat k) /\
       rows new_verts !! j = rows verts !! Z.to_nat k) /\
    (shape1 new_face = shape1 faces /\ shape0 new_face = shape0 faces /\
     rectangular new_face /\
     forall i j x, rows faces !! i ≫= (fun r => r !! j) = Some x ->
       exists p, rows new_face !! i ≫= (fun r => r !! j) = Some (Z.of_nat p) /\
                 used !! p = Some x) /\
    Forall (fun y => 0 <= y < Z.of_nat (shape0 new_verts)) (ravel new_face) /\
    (forall j, (j < shape0 new_verts)%nat -> Z.of_nat j ∈ ravel new_face).
Proof.
  intros Hrect Hval.
  rewrite (remove_unused_verts_closed verts faces Hrect Hval). cbv zeta.
  set (used := unique (ravel faces)).
  eexists used, _, _. split; [reflexivity|].
  unfold shape0; simpl. rewrite !length_map.
  split_and!; try done.
  - apply unique_sorted.
  - intros x. apply elem_of_unique.
  - intros j k Hj.
    assert (k ∈ ravel faces) as Hk
      by (by apply elem_of_unique; eapply list_elem_of_lookup_2).
    rewrite Forall_forall in Hval. specialize (Hval _ Hk).
    destruct (lookup_lt_is_Some_2 (rows verts) (Z.to_nat k)) as [r Hr].
    { unfold shape0 in Hval. lia. }
    split; [by eexists|].
    rewrite list_lookup_fmap, Hj; simpl. rewrite Hr. f_equal.
    by apply list_lookup_total_correct.
  - unfold rectangular; simpl. apply Forall_map.
    eapply Forall_impl; [exact Hrect|]. intros r Hr; simpl in *.
    by rewrite length_map.
  - intros i j x Hx.
    assert (x ∈ ravel faces) as Hin by (apply elem_of_ravel_lookup; eauto).
    destruct (rank_of_unique _ _ Hin) as (p & Hp & Hrank). fold used in Hp, Hrank.
    exists p. split; [|done].
    rewrite list_lookup_fmap.
    destruct (rows faces !! i) as [r|]; [|done]. simpl in *.
    rewrite list_lookup_fmap, Hx; simpl. by rewrite Hrank.
  - rewrite ravel_map. apply Forall_forall. intros y Hy.
    apply list_elem_of_fmap in Hy as (x & -> & Hx).
    destruct (rank_of_unique (ravel faces) x Hx) as (p & Hp & Hrank).
    fold used in Hp, Hrank. rewrite Hrank.
    apply lookup_lt_Some in Hp. lia.
  - intros j Hj. rewrite ravel_map.
    destruct (lookup_lt_is_Some_2 used j Hj) as [x Hx].
    assert (x ∈ ravel faces) as Hin
      by (by apply elem_of_unique; eapply list_elem_of_lookup_2).
    apply list_elem_of_fmap. exists x. split; [|done].
    destruct (rank_of_unique (ravel faces) x Hin) as (p & Hp & Hrank).
    fold used in Hp, Hrank. rewrite Hrank.
    f_equal. by eapply (sorted_lookup_inj used); [apply unique_sorted|..].
Qed.

(** C4.  For a rectangular faces matrix whose entries index rows of
    [verts], [remove_unused_verts] returns: the rows of [verts] at the
    sorted distinct indices [used] referenced in [faces]; and a matrix of
    the shape of [faces] in which every entry is replaced by its position
    in [used].  Hence every new entry indexes a new vertex, and every new
    vertex is referenced.  On the four vertices and the face (1,2,3) of
    the specification it returns the three vertices and the face (0,1,2). *)
Theorem C4_compaction {C} (verts : ndarray C) (faces : ndarray Z) :
  rectangular faces ->
  Forall (fun x => 0 <= x < Z.of_nat (shape0 verts)) (ravel faces) ->
  (exists used new_verts new_face,
    remove_unused_verts verts faces = Ok (new_verts, new_face) /\
    (StronglySorted Z.lt used /\ forall x, x ∈ used <-> x ∈ ravel faces) /\
    (shape1 new_verts = shape1 verts /\ shape0 new_verts = length used /\
     forall j k, used !! j = Some k ->
       is_Some (rows verts !! Z.to_nat k) /\
       rows new_verts !! j = rows verts !! Z.to_nat k) /\
    (shape1 new_face = shape1 faces /\ shape0 new_face = shape0 faces /\
     rectangular new_face /\
     forall i j x, rows faces !! i ≫= (fun r => r !! j) = Some x ->
       exists p, rows new_face !! i ≫= (fun r => r !! j) = Some (Z.of_nat p) /\
                 used !! p = Some x) /\
    Forall (fun y => 0 <= y < Z.of_nat (shape0 new_verts)) (ravel new_face) /\
    (forall j, (j < shape0 new_verts)%nat -> Z.of_nat j ∈ ravel new_face)) /\
  remove_unused_verts
    (NDArray 3 [[0; 0; 0]; [1; 0; 0]; [2; 0; 0]; [3; 0; 0]])
    (NDArray 3 [[1; 2; 3]])
  = Ok (NDArray 3 [[1; 0; 0]; [2; 0; 0]; [3; 0; 0]], NDArray 3 [[0; 1; 2]]).
Proof.
  intros Hrect Hval. split; [by apply remove_unused_verts_spec | reflexivity].
Qed.

Lemma C4_compaction_witness :
  exists new_verts new_face,
    remove_unused_verts
      (NDArray 2 [[10; 11]; [20; 21]; [30; 31]; [40; 41]; [50; 51]])
      (NDArray 2 [[4; 1]; [1; 2]])
    = Ok (new_verts, new_face) /\
    shape0 new_verts = 3%nat /\
    Forall (fun y => 0 <= y < 3) (ravel new_face).
Proof.
  destruct (C4_compaction
              (NDArray 2 [[10; 11]; [20; 21]; [30; 31]; [40; 41]; [50; 51]])
              (NDArray 2 [[4; 1]; [1; 2]]))
    as [(used & nv & nf & Hres & _ & _ & _ & Hrange & _) _].
  - repeat constructor.
  - unfold ravel, shape0; simpl. repeat constructor; lia.
  - exists nv, nf. injection Hres as <- <-.
    split; [reflexivity|]. split; [reflexivity|]. exact Hrange.
Defined.

(** ** Idempotence of compaction *)

Lemma iota_sorted (s n : nat) : StronglySorted Z.lt (map Z.of_nat (seq s n)).
Proof.
  revert s; induction n as [|n IH]; intros s; simpl; constructor; [apply IH|].
  apply Forall_forall. intros x Hx.
  apply list_elem_of_fmap in Hx as (i & -> & Hi).
  apply elem_of_seq in Hi. lia.
Qed.

Lemma elem_of_iota (n : nat) (x : Z) :
  x ∈ map Z.of_nat (seq 0 n) <-> 0 <= x < Z.of_nat n.
Proof.
  split.
  - intros Hx. apply list_elem_of_fmap in Hx as (i & -> & Hi).
    apply elem_of_seq in Hi. lia.
  - intros Hx. apply list_elem_of_fmap. exists (Z.to_nat x).
    split; [lia|]. apply elem_of_seq. lia.
Qed.

Lemma lookup_iota (n p : nat) :
  (p < n)%nat -> map Z.of_nat (seq 0 n) !! p = Some (Z.of_nat p).
Proof. intros Hp. by rewrite list_lookup_fmap, lookup_seq_lt. Qed.

Lemma rows_at_iota {A} (l : list (list A)) :
  map (fun k => l !!! Z.to_nat k) (map Z.of_nat (seq 0 (length l))) = l.
Proof.
  apply list_eq. intros i. rewrite map_map, list_lookup_fmap.
  destruct (decide (i < length l)%nat) as [Hi|Hi].
  - rewrite lookup_seq_lt by done. simpl. rewrite Nat2Z.id.
    destruct (lookup_lt_is_Some_2 l i Hi) as [r Hr]. rewrite Hr. f_equal.
    by apply list_lookup_total_correct.
  - rewrite lookup_seq_ge by lia. simpl. symmetry. apply lookup_ge_None. lia.
Qed.

Lemma rank_of_iota (n : nat) (y : Z) :
  0 <= y < Z.of_nat n -> rank_of (map Z.of_nat (seq 0 n)) y = y.
Proof.
  intros Hy. unfold rank_of.
  rewrite (bsearch_left_found _ y (Z.to_nat y)).
  - lia.
  - apply iota_sorted.
  - rewrite lookup_iota by lia. f_equal. lia.
Qed.

(** C8.  On a rectangular faces matrix whose entries index rows of
    [verts], [remove_unused_verts] returns a pair of arrays, and applied
    to that pair it returns the same pair. *)
Theorem C8_idempotent {C} (verts : ndarray C) (faces : ndarray Z) :
  rectangular faces ->
  Forall (fun x => 0 <= x < Z.of_nat (shape0 verts)) (ravel faces) ->
  exists new_verts new_face,
    remove_unused_verts verts faces = Ok (new_verts, new_face) /\
    remove_unused_verts new_verts new_face = Ok (new_verts, new_face).
Proof.
  intros Hrect Hval.
  destruct (remove_unused_verts_spec verts faces Hrect Hval)
    as (used & nv & nf & Hres & _ & (_ & Hlen & _) &
        (_ & _ & Hrect' & _) & Hrange & Hcover).
  exists nv, nf. split; [done|].
  rewrite (remove_unused_verts_closed nv nf Hrect' Hrange). cbv zeta.
  assert (unique (ravel nf) = map Z.of_nat (seq 0 (shape0 nv))) as ->.
  { apply sorted_ext; [apply unique_sorted | apply iota_sorted |].
    intros y. rewrite elem_of_unique, elem_of_iota. split.
    - intros Hy. rewrite Forall_forall in Hrange. by apply Hrange.
    - intros Hy. replace y with (Z.of_nat (Z.to_nat y)) by lia.
      apply Hcover. lia. }
  f_equal. f_equal.
  - destruct nv as [w rs]. unfold shape0; simpl. f_equal. apply rows_at_iota.
  - destruct nf as [w rs]. simpl. f_equal.
    unfold ravel in Hrange; simpl in Hrange.
    clear -Hrange. induction rs as [|r rs IH]; simpl; [done|].
    simpl in Hrange. apply Forall_app in Hrange as [Hr Hrs].
    rewrite IH by done. f_equal.
    clear -Hr. induction Hr as [|y r Hy _ IH]; simpl; [done|].
    rewrite IH. f_equal. by apply rank_of_iota.
Qed.

Lemma C8_idempotent_witness :
  exists new_verts new_face,
    remove_unused_verts
      (NDArray 2 [[10; 11]; [20; 21]; [30; 31]; [40; 41]; [50; 51]])
      (NDArray 2 [[4; 1]; [1; 2]])
    = Ok (new_verts, new_face) /\
    remove_unused_verts new_verts new_face = Ok (new_verts, new_face).
Proof.
  apply (C8_idempotent
           (NDArray 2 [[10; 11]; [20; 21]; [30; 31]; [40; 41]; [50; 51]])
           (NDArray 2 [[4; 1]; [1; 2]])).
  - repeat constructor.
  - unfold ravel, shape0; simpl. repeat constructor; lia.
Defined.

(** ** The store: what a call leaves in place *)

Section Frame.
Context {C : Type} `{Platform}.

Lemma preserved_refl (s : Store.store C) : Store.preserved s s.
Proof. by split. Qed.

Lemma preserved_trans (s1 s2 s3 : Store.store C) :
  Store.preserved s1 s2 -> Store.preserved s2 s3 -> Store.preserved s1 s3.
Proof. intros [? ?] [? ?]. split; by etrans. Qed.

Lemma frame_ret {A} (a : A) : Store.frame_ok (C:=C) (Store.ret a).
Proof. intros s. apply preserved_refl. Qed.

Lemma frame_raise {A} (e : exn) : Store.frame_ok (C:=C) (A:=A) (Store.raise e).
Proof. intros s. apply preserved_refl. Qed.

Lemma frame_lift {A} (r : result A) : Store.frame_ok (C:=C) (Store.lift r).
Proof. intros s. apply preserved_refl. Qed.

Lemma frame_mbind {A B} (m : Store.M A) (k : A -> Store.M (C:=C) B) :
  Store.frame_ok m -> (forall a, Store.frame_ok (k a)) ->
  Store.frame_ok (Store.mbind m k).
Proof.
  intros Hm Hk s. unfold Store.mbind. specialize (Hm s).
  destruct (m s) as [[a|e] s1]; simpl in *; [|done].
  eapply preserved_trans; [exact Hm | apply Hk].
Qed.

Lemma frame_load_int (v : Store.view) : Store.frame_ok (C:=C) (Store.load_int v).
Proof.
  intros s. unfold Store.load_int.
  destruct (Store.read_view _ _); apply preserved_refl.
Qed.

Lemma frame_load_coord (v : Store.view) :
  Store.frame_ok (C:=C) (Store.load_coord v).
Proof.
  intros s. unfold Store.load_coord.
  destruct (Store.read_view _ _); apply preserved_refl.
Qed.

Lemma frame_vtk_to_numpy (a : Store.loc) :
  Store.frame_ok (C:=C) (Store.vtk_to_numpy a).
Proof.
  intros s. unfold Store.vtk_to_numpy.
  destruct (_ !! _); apply preserved_refl.
Qed.

Lemma frame_load_ids (a : Store.loc) :
  Store.frame_ok (C:=C) (Store.load_ids a).
Proof.
  intros s. unfold Store.load_ids.
  destruct (_ !! _); apply preserved_refl.
Qed.

Lemma frame_alloc_int (buf : list Z) :
  Store.frame_ok (C:=C) (Store.alloc_int buf).
Proof.
  intros s. split; simpl; [|done].
  apply insert_subseteq, not_elem_of_dom, is_fresh.
Qed.

Lemma frame_alloc_coord (buf : list C) : Store.frame_ok (Store.alloc_coord buf).
Proof.
  intros s. split; simpl; [done|].
  apply insert_subseteq, not_elem_of_dom, is_fresh.
Qed.

Lemma frame_reshape_view (a : Store.loc * nat) (n w : nat) :
  Store.frame_ok (C:=C) (Store.reshape_view a n w).
Proof.
  unfold Store.reshape_view.
  destruct (_ =? _)%nat; [apply frame_ret | apply frame_raise].
Qed.

End Frame.

Create HintDb frame discriminated.
#[export] Hint Resolve frame_ret frame_raise frame_lift frame_load_int
  frame_load_coord frame_vtk_to_numpy frame_load_ids frame_alloc_int
  frame_alloc_coord frame_reshape_view : frame.

(** Split a call into its steps, down to the steps of the hint base. *)
Ltac frame_steps :=
  repeat first
    [ progress intros
    | solve [eauto with frame]
    | apply frame_mbind
    | match goal with
      | |- Store.frame_ok (if ?b then _ else _) => destruct b
      | |- Store.frame_ok (match ?x with _ => _ end) => destruct x
      end ].

Section FrameOfCalls.
Context {C : Type} `{Platform} `{Store.CellStorage}.

Lemma frame_new_int_array (m : ndarray Z) :
  Store.frame_ok (C:=C) (Store.new_int_array m).
Proof. unfold Store.new_int_array. frame_steps. Qed.

Lemma frame_new_coord_array (m : ndarray C) :
  Store.frame_ok (Store.new_coord_array m).
Proof. unfold Store.new_coord_array. frame_steps. Qed.

Lemma frame_new_vtkCellArray :
  Store.frame_ok (C:=C) Store.new_vtkCellArray.
Proof. unfold Store.new_vtkCellArray. frame_steps. Qed.

Lemma frame_SetCells (cells : Store.vtkCellArray) (ncells : nat)
    (ids : Store.loc) :
  Store.frame_ok (C:=C) (Store.SetCells cells ncells ids).
Proof. unfold Store.SetCells. frame_steps. Qed.

Lemma frame_numpy_to_vtk_cells (mat : Store.view) :
  Store.frame_ok (C:=C) (Store.numpy_to_vtk_cells mat).
Proof.
  unfold Store.numpy_to_vtk_cells, Store.numpy_to_vtkIdTypeArray.
  pose proof frame_new_vtkCellArray. pose proof frame_SetCells.
  frame_steps.
Qed.

Lemma frame_numpy_rep_to_vtk (vertices shapes : Store.view)
    (edges : option Store.view) :
  Store.frame_ok (C:=C) (Store.numpy_rep_to_vtk vertices shapes edges).
Proof.
  unfold Store.numpy_rep_to_vtk, Store.new_vtkPolyData, Store.numpy_to_vtk.
  pose proof frame_numpy_to_vtk_cells. pose proof frame_new_coord_array.
  pose proof frame_new_vtkCellArray. pose proof frame_SetCells.
  frame_steps.
Qed.

Lemma frame_graph_to_vtk (vertices edges : Store.view) :
  Store.frame_ok (C:=C) (Store.graph_to_vtk vertices edges).
Proof.
  unfold Store.graph_to_vtk. pose proof frame_numpy_rep_to_vtk. frame_steps.
Qed.

Lemma frame_trimesh_to_vtk (vertices tris : Store.view)
    (graph_edges : option Store.view) :
  Store.frame_ok (C:=C) (Store.trimesh_to_vtk vertices tris graph_edges).
Proof.
  unfold Store.trimesh_to_vtk. pose proof frame_numpy_rep_to_vtk. frame_steps.
Qed.

Lemma frame_vtk_cellarray_to_shape (a : Store.loc) (ncells : nat) :
  Store.frame_ok (C:=C) (Store.vtk_cellarray_to_shape a ncells).
Proof. unfold Store.vtk_cellarray_to_shape. frame_steps. Qed.

End FrameOfCalls.

(** ** The store: what [GetData()] writes *)

Section LegacyData.
Context {C : Type}.

Lemma preserved_but_refl (x : list nat) (s : Store.store C) :
  Store.preserved_but x s s.
Proof. by split. Qed.

Lemma preserved_but_trans (x : list nat) (s1 s2 s3 : Store.store C) :
  Store.preserved_but x s1 s2 -> Store.preserved_but x s2 s3 ->
  Store.preserved_but x s1 s3.
Proof.
  intros [H12 C12] [H23 C23]. split; [|by etrans].
  intros l buf Hl Hbuf. by apply H23, H12.
Qed.

Lemma preserved_but_weaken (x y : list nat) (s s' : Store.store C) :
  x ⊆ y -> Store.preserved_but x s s' -> Store.preserved_but y s s'.
Proof.
  intros Hxy [Hi Hc]. split; [|done].
  intros l buf Hl. apply Hi. intros Hx. by apply Hl, Hxy.
Qed.

Lemma preserved_preserved_but (x : list nat) (s s' : Store.store C) :
  Store.preserved s s' -> Store.preserved_but x s s'.
Proof.
  intros [Hi Hc]. split; [|done].
  intros l buf _ Hbuf. by eapply lookup_weaken.
Qed.

(** With no location left out, that is [preserved]. *)
Lemma preserved_but_nil (s s' : Store.store C) :
  Store.preserved_but [] s s' -> Store.preserved s s'.
Proof.
  intros [Hi Hc]. split; [|done].
  apply map_subseteq_spec. intros l buf Hbuf.
  apply Hi; [apply not_elem_of_nil | done].
Qed.

(** [GetData()] returns the data array of the cell array and changes no
    buffer but the legacy data; where there is none, it changes
    nothing. *)
Lemma GetData_effect (c : Store.vtkCellArray) (s s' : Store.store C)
    (r : result nat) :
  Store.GetData c s = (r, s') ->
  Store.preserved_but (Store.legacy_data c) s s' /\
  (Store.LegacyData c = None -> s' = s) /\
  (forall a, r = Ok a ->
     a = Store.data_array c /\
     Store.ints s' !! a = Store.ints s !! Store.Cells c).
Proof.
  unfold Store.GetData, Store.legacy_data, Store.data_array.
  destruct (Store.LegacyData c) as [d|].
  - unfold Store.mbind, Store.load_ids, Store.store_ids, Store.ret.
    destruct (Store.ints s !! Store.Cells c) as [buf|] eqn:Hbuf.
    + intros [= <- <-]. split_and!; [|done|].
      * split; simpl; [|done]. intros l b Hl Hb.
        rewrite lookup_insert_ne; [done|].
        intros <-. apply Hl. by left.
      * intros a [= <-]. split; [done|]. simpl.
        by rewrite lookup_insert_eq.
    + intros [= <- <-]. split_and!; [apply preserved_but_refl|done|done].
  - intros [= <- <-]. split_and!; [apply preserved_but_refl|done|].
    by intros a [= <-].
Qed.

End LegacyData.

(** ** The store: the column loop assigns into the new array only *)

Section Compaction.
Context {C : Type}.

(** One iteration changes no coordinate buffer, and of the index buffers
    only the one of [new_face]. *)
Lemma column_step_effect (faces new_face : Store.view) (used : list Z)
    (i : nat) (s : Store.store C) :
  let out :=
    Store.mbind (Store.load_column faces i)
      (fun col => Store.write_column new_face i (searchsorted used col)) s in
  Store.coords out.2 = Store.coords s /\
  exists g, Store.ints out.2 = alter g (Store.base new_face) (Store.ints s).
Proof.
  cbv zeta. unfold Store.mbind, Store.load_column, Store.mbind, Store.load_int.
  destruct (Store.read_view (Store.ints s) faces) as [m|]; simpl.
  - split; [done|]. by eexists.
  - split; [done|]. exists id. by rewrite alter_id.
Qed.

(** So does a loop of such iterations. *)
Lemma for_each_effect {A} (f : A -> Store.M (C:=C) unit) (l : Store.loc)
    (xs : list A) :
  (forall x s, Store.coords (f x s).2 = Store.coords s /\
               exists g, Store.ints (f x s).2 = alter g l (Store.ints s)) ->
  forall s,
    Store.coords (Store.for_each xs f s).2 = Store.coords s /\
    exists g, Store.ints (Store.for_each xs f s).2 = alter g l (Store.ints s).
Proof.
  intros Hstep. induction xs as [|x xs IH]; intros s; simpl.
  - split; [done|]. exists id. by rewrite alter_id.
  - unfold Store.mbind. destruct (Hstep x s) as [Hc [g Hg]].
    destruct (f x s) as [[[]|e] s1]; simpl in *.
    + destruct (IH s1) as [Hc' [g' Hg']]. split; [congruence|].
      exists (g' ∘ g). by rewrite Hg', Hg, alter_alter_eq.
    + split; [done|]. by exists g.
Qed.

(** What [remove_unused_verts] leaves: the store it started from, or
    that store with one new coordinate buffer and one new index buffer,
    which are the buffers of the arrays it returns. *)
Lemma remove_unused_verts_effect (verts faces : Store.view)
    (s s' : Store.store C) (r : result (Store.view * Store.view)) :
  Store.remove_unused_verts verts faces s = (r, s') ->
  (s' = s /\ exists e, r = Raise e) \/
  (exists bc bi,
     s' = Store.MkStore (<[fresh (dom (Store.ints s)) := bi]> (Store.ints s))
                        (<[fresh (dom (Store.coords s)) := bc]> (Store.coords s)) /\
     forall nv nf, r = Ok (nv, nf) ->
       Store.base nv = fresh (dom (Store.coords s)) /\
       Store.base nf = fresh (dom (Store.ints s))).
Proof.
  unfold Store.remove_unused_verts. intros Hrun.
  unfold Store.mbind at 1 in Hrun. unfold Store.load_int at 1 in Hrun.
  destruct (Store.read_view (Store.ints s) faces) as [f|];
    [|injection Hrun as <- <-; left; eauto].
  unfold Store.mbind at 1 in Hrun. unfold Store.load_coord in Hrun.
  destruct (Store.read_view (Store.coords s) verts) as [v|];
    [|injection Hrun as <- <-; left; eauto].
  unfold Store.mbind at 1 in Hrun. unfold Store.lift in Hrun.
  destruct (take_rows v (unique (ravel f))) as [selected|e];
    [|injection Hrun as <- <-; left; eauto].
  unfold Store.mbind at 1 in Hrun.
  unfold Store.new_coord_array, Store.mbind at 1 in Hrun.
  unfold Store.alloc_coord, Store.ret at 1 in Hrun.
  unfold Store.mbind at 1 in Hrun.
  unfold Store.new_int_array, Store.mbind at 1 in Hrun.
  unfold Store.alloc_int, Store.ret at 1 in Hrun.
  unfold Store.mbind at 1 in Hrun.
  cbn [Store.ints Store.coords] in Hrun.
  set (nf := Store.contiguous (fresh (dom (Store.ints s))) _ _) in Hrun.
  set (nv := Store.contiguous (fresh (dom (Store.coords s))) _ _) in Hrun.
  match type of Hrun with
  | context [Store.for_each ?cols ?body ?s1] =>
      destruct (for_each_effect body (Store.base nf) cols
                  (column_step_effect faces nf (unique (ravel f))) s1)
        as [Hc [g Hg]];
      destruct (Store.for_each cols body s1) as [[[]|e] s2]
  end; cbn [fst snd Store.ints Store.coords Store.base nf Store.contiguous]
         in Hc, Hg;
    rewrite alter_insert_eq in Hg;
    injection Hrun as <- <-; right; eexists _, _;
    (split; [destruct s2; simpl in *; by rewrite Hc, Hg|]).
  - by intros ? ? [= <- <-].
  - by intros ? ? [=].
Qed.

Lemma frame_remove_unused_verts (verts faces : Store.view) :
  Store.frame_ok (C:=C) (Store.remove_unused_verts verts faces).
Proof.
  intros s.
  destruct (Store.remove_unused_verts verts faces s) as [r s'] eqn:Hrun.
  destruct (remove_unused_verts_effect _ _ _ _ _ Hrun)
    as [[-> _]|(bc & bi & -> & _)]; simpl.
  - apply preserved_refl.
  - split; simpl; apply insert_subseteq, not_elem_of_dom, is_fresh.
Qed.

Lemma remove_unused_verts_new (verts faces nv nf : Store.view)
    (s s' : Store.store C) :
  Store.remove_unused_verts verts faces s = (Ok (nv, nf), s') ->
  Store.new_coord_buffer s s' (Store.base nv) /\
  Store.new_int_buffer s s' (Store.base nf).
Proof.
  intros Hrun.
  destruct (remove_unused_verts_effect _ _ _ _ _ Hrun)
    as [[_ [e He]]|(bc & bi & Hs' & Hres)]; [done|].
  destruct (Hres nv nf eq_refl) as [-> ->]. subst s'.
  unfold Store.new_coord_buffer, Store.new_int_buffer; simpl.
  rewrite !lookup_insert_eq.
  split; (split; [apply not_elem_of_dom, is_fresh | by eexists]).
Qed.

End Compaction.

(** ** The store: which results are new buffers, which are views *)

Section NewBuffers.
Context {C : Type} `{Platform} `{Store.CellStorage}.

Lemma mbind_Ok_inv {A B} (m : Store.M A) (k : A -> Store.M (C:=C) B)
    (s s' : Store.store C) (b : B) :
  Store.mbind m k s = (Ok b, s') ->
  exists a s1, m s = (Ok a, s1) /\ k a s1 = (Ok b, s').
Proof.
  unfold Store.mbind. destruct (m s) as [[a|e] s1]; [eauto | done].
Qed.

Lemma new_int_buffer_mono (s0 s1 s2 s3 : Store.store C) (l : nat) :
  Store.preserved s0 s1 -> Store.new_int_buffer s1 s2 l ->
  Store.preserved s2 s3 -> Store.new_int_buffer s0 s3 l.
Proof.
  intros [H01 _] [Hnone [buf Hsome]] [H23 _]. split.
  - destruct (Store.ints s0 !! l) as [b|] eqn:Hl; [|done].
    by rewrite (lookup_weaken _ _ _ _ Hl H01) in Hnone.
  - exists buf. by eapply lookup_weaken.
Qed.

Lemma new_coord_buffer_mono (s0 s1 s2 s3 : Store.store C) (l : nat) :
  Store.preserved s0 s1 -> Store.new_coord_buffer s1 s2 l ->
  Store.preserved s2 s3 -> Store.new_coord_buffer s0 s3 l.
Proof.
  intros [_ H01] [Hnone [buf Hsome]] [_ H23]. split.
  - destruct (Store.coords s0 !! l) as [b|] eqn:Hl; [|done].
    by rewrite (lookup_weaken _ _ _ _ Hl H01) in Hnone.
  - exists buf. by eapply lookup_weaken.
Qed.

(** The preserved store of a run, from the frame lemma of the call. *)
Lemma frame_run {A} (m : Store.M (C:=C) A) (s s' : Store.store C)
    (r : result A) :
  Store.frame_ok m -> m s = (r, s') -> Store.preserved s s'.
Proof. intros Hm Hrun. specialize (Hm s). by rewrite Hrun in Hm. Qed.

Lemma alloc_int_new (buf : list Z) (s s' : Store.store C) (l : nat) :
  Store.alloc_int buf s = (Ok l, s') -> Store.new_int_buffer s s' l.
Proof.
  intros [= <- <-]. split; simpl.
  - apply not_elem_of_dom, is_fresh.
  - rewrite lookup_insert_eq. by eexists.
Qed.

Lemma new_coord_array_new (m : ndarray C) (s s' : Store.store C)
    (v : Store.view) :
  Store.new_coord_array m s = (Ok v, s') ->
  Store.new_coord_buffer s s' (Store.base v).
Proof.
  intros [= <- <-]. split; simpl.
  - apply not_elem_of_dom, is_fresh.
  - rewrite lookup_insert_eq. by eexists.
Qed.

Lemma new_cells_mono (s0 s1 s2 s3 : Store.store C) (c : Store.vtkCellArray) :
  Store.preserved s0 s1 -> Store.new_cells s1 s2 c ->
  Store.preserved s2 s3 -> Store.new_cells s0 s3 c.
Proof.
  intros P01 [Hc Hl] P23. split; [by eapply new_int_buffer_mono|].
  eapply Forall_impl; [exact Hl|]. intros d Hd.
  by eapply new_int_buffer_mono.
Qed.

Lemma new_vtkCellArray_new (s s' : Store.store C) (c : Store.vtkCellArray) :
  Store.new_vtkCellArray s = (Ok c, s') -> Store.new_cells s s' c.
Proof.
  unfold Store.new_vtkCellArray. intros Hrun.
  apply mbind_Ok_inv in Hrun as (l & s1 & Hl & Hrun).
  destruct Store.exports_legacy_data.
  - apply mbind_Ok_inv in Hrun as (d & s2 & Hd & Hret).
    injection Hret as <- <-.
    split; unfold Store.legacy_data; simpl.
    + eapply new_int_buffer_mono;
        [apply preserved_refl
        |exact (alloc_int_new _ _ _ _ Hl)
        |exact (frame_run _ _ _ _ (frame_alloc_int _) Hd)].
    + constructor; [|constructor].
      eapply new_int_buffer_mono;
        [exact (frame_run _ _ _ _ (frame_alloc_int _) Hl)
        |exact (alloc_int_new _ _ _ _ Hd)
        |apply preserved_refl].
  - injection Hrun as <- <-.
    split; unfold Store.legacy_data; simpl;
      [exact (alloc_int_new _ _ _ _ Hl) | constructor].
Qed.

(** [SetCells] on a new cell array, with a new id array, gives a new
    cell array. *)
Lemma SetCells_new (cells c : Store.vtkCellArray) (ncells : nat)
    (ids : nat) (s0 s s' : Store.store C) :
  Store.preserved s0 s ->
  Store.new_cells s0 s cells -> Store.new_int_buffer s0 s ids ->
  Store.SetCells cells ncells ids s = (Ok c, s') ->
  Store.new_cells s0 s' c.
Proof.
  intros P0 [_ Hlegacy] Hids. unfold Store.SetCells, Store.legacy_data in *.
  destruct (Store.LegacyData cells) as [d|].
  - intros Hrun.
    apply mbind_Ok_inv in Hrun as (buf & s1 & Hload & Hrun).
    apply mbind_Ok_inv in Hrun as (l & s2 & Hl & Hret).
    injection Hret as <- <-.
    pose proof (frame_run _ _ _ _ (frame_load_ids _) Hload) as P1.
    pose proof (frame_run _ _ _ _ (frame_alloc_int _) Hl) as P2.
    split; simpl.
    + eapply new_int_buffer_mono;
        [exact (preserved_trans _ _ _ P0 P1)
        |exact (alloc_int_new _ _ _ _ Hl)
        |apply preserved_refl].
    + apply Forall_cons in Hlegacy as [Hd _].
      constructor; [|constructor].
      eapply new_int_buffer_mono;
        [apply preserved_refl | exact Hd | exact (preserved_trans _ _ _ P1 P2)].
  - intros [= <- <-]. split; simpl; [done | constructor].
Qed.

Lemma numpy_to_vtk_cells_new (mat : Store.view) (s s' : Store.store C)
    (c : Store.vtkCellArray) :
  Store.numpy_to_vtk_cells mat s = (Ok c, s') ->
  Store.new_cells s s' c.
Proof.
  unfold Store.numpy_to_vtk_cells. intros Hrun.
  apply mbind_Ok_inv in Hrun as (cells & s1 & Hcells & Hrun).
  apply mbind_Ok_inv in Hrun as (m & s2 & Hload & Hrun).
  apply mbind_Ok_inv in Hrun as (l & s3 & Halloc & Hset).
  pose proof (frame_run _ _ _ _ frame_new_vtkCellArray Hcells) as P1.
  pose proof (frame_run _ _ _ _ (frame_load_int mat) Hload) as P2.
  pose proof (frame_run _ _ _ _ (frame_alloc_int _) Halloc) as P3.
  assert (Store.preserved s s2) as Q2 by (by eapply preserved_trans).
  assert (Store.preserved s s3) as Q3 by (by eapply preserved_trans).
  assert (Store.preserved s1 s3) as R1 by (by eapply preserved_trans).
  eapply (SetCells_new cells c _ l s s3 s'); [exact Q3| | |exact Hset].
  - eapply new_cells_mono;
      [apply preserved_refl | exact (new_vtkCellArray_new _ _ _ Hcells) | exact R1].
  - eapply new_int_buffer_mono;
      [exact Q2 | exact (alloc_int_new _ _ _ _ Halloc) | apply preserved_refl].
Qed.

Lemma numpy_rep_to_vtk_new (vertices shapes : Store.view)
    (edges : option Store.view) (s s' : Store.store C)
    (mesh : Store.vtkPolyData) (cells : Store.vtkCellArray)
    (lines : option Store.vtkCellArray) :
  Store.numpy_rep_to_vtk vertices shapes edges s = (Ok (mesh, cells, lines), s') ->
  Store.new_mesh s s' mesh /\
  Store.new_cells s s' cells /\
  (forall c, lines = Some c -> Store.new_cells s s' c).
Proof.
  unfold Store.numpy_rep_to_vtk. intros Hrun.
  apply mbind_Ok_inv in Hrun as (mesh0 & s1 & Hmesh & Hrun).
  apply mbind_Ok_inv in Hrun as (points & s2 & Hpoints & Hrun).
  apply mbind_Ok_inv in Hrun as (cells0 & s3 & Hcells & Hrun).
  apply mbind_Ok_inv in Hrun as (edges0 & s4 & Hedges & Hret).
  injection Hret as <- <- <- <-.
  (* the steps, and what each preserves *)
  unfold Store.new_vtkPolyData in Hmesh.
  apply mbind_Ok_inv in Hmesh as (polys & sp & Hpolys & Hmesh).
  apply mbind_Ok_inv in Hmesh as (lines0 & sl & Hlines & Hret).
  injection Hret as <- <-.
  unfold Store.numpy_to_vtk in Hpoints.
  apply mbind_Ok_inv in Hpoints as (v & sv & Hv & Hpoints).
  pose proof (frame_run _ _ _ _ frame_new_vtkCellArray Hpolys) as P1.
  pose proof (frame_run _ _ _ _ frame_new_vtkCellArray Hlines) as P2.
  pose proof (frame_run _ _ _ _ (frame_load_coord _) Hv) as P3.
  pose proof (frame_run _ _ _ _ (frame_new_coord_array _) Hpoints) as P4.
  pose proof (frame_run _ _ _ _ (frame_numpy_to_vtk_cells _) Hcells) as P5.
  assert (Store.preserved s3 s4 /\
          forall c, edges0 = Some c -> Store.new_cells s3 s4 c) as [P6 Hnew].
  { destruct edges as [e|]; [destruct (0 <? Store.vshape0 e)%nat|].
    - apply mbind_Ok_inv in Hedges as (c & sc & Hc & Hret).
      injection Hret as <- <-. split.
      + exact (frame_run _ _ _ _ (frame_numpy_to_vtk_cells _) Hc).
      + intros ? [= <-]. by apply (numpy_to_vtk_cells_new e).
    - injection Hedges as <- <-. split; [apply preserved_refl | done].
    - injection Hedges as <- <-. split; [apply preserved_refl | done]. }
  assert (Store.preserved s sp) as Q1 by done.
  assert (Store.preserved s sl) as Q2 by (by eapply preserved_trans).
  assert (Store.preserved s sv) as Q3 by (by eapply preserved_trans).
  assert (Store.preserved s s2) as Q4 by (by eapply preserved_trans).
  assert (Store.preserved s s3) as Q5 by (by eapply preserved_trans).
  assert (Store.preserved s2 s4) as R2 by (by eapply preserved_trans).
  assert (Store.preserved sv s4) as Rv by (by eapply preserved_trans).
  assert (Store.preserved sl s4) as Rl by (by eapply preserved_trans).
  assert (Store.preserved sp s4) as Rp by (by eapply preserved_trans).
  split_and!.
  - split_and!; simpl.
    + intros p [= <-].
      eapply new_coord_buffer_mono;
        [exact Q3 | exact (new_coord_array_new _ _ _ _ Hpoints) | exact R2].
    + eapply new_cells_mono;
        [apply preserved_refl | exact (new_vtkCellArray_new _ _ _ Hpolys) | exact Rp].
    + eapply new_cells_mono;
        [exact Q1 | exact (new_vtkCellArray_new _ _ _ Hlines) | exact Rl].
  - eapply new_cells_mono;
      [exact Q4 | exact (numpy_to_vtk_cells_new _ _ _ _ Hcells) | exact P6].
  - intros c Hc. eapply new_cells_mono;
      [exact Q5 | exact (Hnew c Hc) | apply preserved_refl].
Qed.

Lemma graph_to_vtk_new (vertices edges : Store.view) (s s' : Store.store C)
    (mesh : Store.vtkPolyData) :
  Store.graph_to_vtk vertices edges s = (Ok mesh, s') ->
  Store.new_mesh s s' mesh.
Proof.
  unfold Store.graph_to_vtk. intros Hrun.
  destruct (negb _); [done|].
  apply mbind_Ok_inv in Hrun as (e & s1 & He & Hrun).
  apply mbind_Ok_inv in Hrun as (mx & s2 & Hmx & Hrun).
  destruct (_ <=? _); [done|].
  apply mbind_Ok_inv in Hrun as ([[mesh0 cells] lines] & s3 & Hrep & Hret).
  injection Hret as <- <-.
  pose proof (frame_run _ _ _ _ (frame_load_int _) He) as P1.
  pose proof (frame_run _ _ _ _ (frame_lift _) Hmx) as P2.
  assert (Store.preserved s s2) as Q by (by eapply preserved_trans).
  destruct (numpy_rep_to_vtk_new _ _ _ _ _ _ _ _ Hrep)
    as ((Hpts & Hpolys & _) & Hcells & _).
  split_and!; simpl.
  - intros p Hp. eapply new_coord_buffer_mono;
      [exact Q | exact (Hpts p Hp) | apply preserved_refl].
  - eapply new_cells_mono; [exact Q | exact Hpolys | apply preserved_refl].
  - eapply new_cells_mono; [exact Q | exact Hcells | apply preserved_refl].
Qed.

Lemma trimesh_to_vtk_new (vertices tris : Store.view)
    (graph_edges : option Store.view) (s s' : Store.store C)
    (mesh : Store.vtkPolyData) :
  Store.trimesh_to_vtk vertices tris graph_edges s = (Ok mesh, s') ->
  Store.new_mesh s s' mesh.
Proof.
  unfold Store.trimesh_to_vtk. intros Hrun.
  destruct (negb _); [done|].
  apply mbind_Ok_inv in Hrun as (t & s1 & Ht & Hrun).
  apply mbind_Ok_inv in Hrun as (mx & s2 & Hmx & Hrun).
  destruct (_ <=? _); [done|].
  apply mbind_Ok_inv in Hrun as ([[mesh0 cells] lines] & s3 & Hrep & Hret).
  pose proof (frame_run _ _ _ _ (frame_load_int _) Ht) as P1.
  pose proof (frame_run _ _ _ _ (frame_lift _) Hmx) as P2.
  assert (Store.preserved s s2) as Q by (by eapply preserved_trans).
  destruct (numpy_rep_to_vtk_new _ _ _ _ _ _ _ _ Hrep)
    as ((Hpts & _ & Hlines0) & Hcells & Hlines).
  destruct lines as [c|]; injection Hret as <- <-; split_and!; simpl.
  - intros p Hp. eapply new_coord_buffer_mono;
      [exact Q | exact (Hpts p Hp) | apply preserved_refl].
  - eapply new_cells_mono; [exact Q | exact Hcells | apply preserved_refl].
  - eapply new_cells_mono;
      [exact Q | exact (Hlines c eq_refl) | apply preserved_refl].
  - intros p Hp. eapply new_coord_buffer_mono;
      [exact Q | exact (Hpts p Hp) | apply preserved_refl].
  - eapply new_cells_mono; [exact Q | exact Hcells | apply preserved_refl].
  - eapply new_cells_mono; [exact Q | exact Hlines0 | apply preserved_refl].
Qed.

(** The decoder allocates nothing: its result is a view of the buffer of
    the id array it was given. *)
Lemma vtk_cellarray_to_shape_view (a : nat) (ncells : nat)
    (s s' : Store.store C) (v : Store.view) :
  Store.vtk_cellarray_to_shape a ncells s = (Ok v, s') ->
  s' = s /\ Store.base v = a /\ is_Some (Store.ints s !! a).
Proof.
  unfold Store.vtk_cellarray_to_shape. intros Hrun.
  apply mbind_Ok_inv in Hrun as ([l n] & s1 & Hnp & Hrun).
  unfold Store.vtk_to_numpy in Hnp.
  destruct (Store.ints s !! a) as [buf|] eqn:Ha; [|done].
  injection Hnp as <- <- <-.
  destruct (ncells =? 0)%nat; [done|].
  apply mbind_Ok_inv in Hrun as (w & s2 & Hw & Hret).
  unfold Store.reshape_view in Hw. simpl in Hw.
  destruct (_ =? _)%nat; [|done].
  injection Hw as <- <-. injection Hret as <- <-.
  split_and!; [done | done | by eexists].
Qed.

Lemma mbind_inv {A B} (m : Store.M A) (k : A -> Store.M (C:=C) B)
    (s s' : Store.store C) (r : result B) :
  Store.mbind m k s = (r, s') ->
  (exists a s1, m s = (Ok a, s1) /\ k a s1 = (r, s')) \/
  (exists e, m s = (Raise e, s') /\ r = Raise e).
Proof.
  unfold Store.mbind. destruct (m s) as [[a|e] s1].
  - left. eauto.
  - intros [= <- <-]. right. eauto.
Qed.

Lemma vtk_cellarray_to_shape_same (a ncells : nat) (s s' : Store.store C)
    (r : result Store.view) :
  Store.vtk_cellarray_to_shape a ncells s = (r, s') -> s' = s.
Proof.
  unfold Store.vtk_cellarray_to_shape, Store.mbind, Store.vtk_to_numpy,
    Store.reshape_view, Store.ret, Store.raise.
  destruct (Store.ints s !! a); [|by intros [= _ <-]].
  destruct (ncells =? 0)%nat; [by intros [= _ <-]|]. simpl.
  destruct (_ =? _)%nat; by intros [= _ <-].
Qed.

(** One cell array of a mesh, as the decomposition reads it: no buffer
    changes but the legacy data, and what is returned is a view of the
    array [GetData()] returned. *)
Lemma decode_cells_effect (c : Store.vtkCellArray) (s s' : Store.store C)
    (r : result (option Store.view)) :
  (if (0 <? Store.GetNumberOfCells c)%nat
   then Store.mbind (Store.GetData c) (fun a =>
          Store.mbind (Store.vtk_cellarray_to_shape a (Store.GetNumberOfCells c))
            (fun t => Store.ret (Some t)))
   else Store.ret None) s = (r, s') ->
  Store.preserved_but (Store.legacy_data c) s s' /\
  (Store.LegacyData c = None -> s' = s) /\
  (forall t, r = Ok (Some t) -> Store.base t = Store.data_array c).
Proof.
  destruct (0 <? Store.GetNumberOfCells c)%nat.
  2:{ intros [= <- <-]. split_and!; [apply preserved_but_refl|done|done]. }
  intros Hrun.
  apply mbind_inv in Hrun as [(a & s1 & Hget & Hrun)|(e & Hget & ->)].
  - destruct (GetData_effect _ _ _ _ Hget) as (P & Hsame & Ha).
    destruct (Ha a eq_refl) as [-> _].
    apply mbind_inv in Hrun as [(t & s2 & Hdec & Hret)|(e & Hdec & ->)].
    + injection Hret as <- <-.
      apply vtk_cellarray_to_shape_view in Hdec as (-> & Hb & _).
      split_and!; [done | done | by intros ? [= <-]].
    + apply vtk_cellarray_to_shape_same in Hdec as ->.
      split_and!; [done | done | done].
  - destruct (GetData_effect _ _ _ _ Hget) as (P & Hsame & _).
    split_and!; [done | done | done].
Qed.

(** The decomposition changes no buffer but the legacy data of the two
    cell arrays of the mesh (none, where [GetData()] returns the storage
    itself).  The points it returns are the points array of the mesh,
    and the faces and edges are views of the arrays [GetData()]
    returned. *)
Lemma poly_to_mesh_components_effect (poly : Store.vtkPolyData)
    (s s' : Store.store C)
    (r : result (Store.view * option Store.view * option Store.view)) :
  Store.poly_to_mesh_components poly s = (r, s') ->
  Store.preserved_but
    (Store.legacy_data (Store.GetPolys poly) ++
     Store.legacy_data (Store.GetLines poly)) s s' /\
  (Store.LegacyData (Store.GetPolys poly) = None ->
   Store.LegacyData (Store.GetLines poly) = None -> s' = s) /\
  (forall p t e, r = Ok (p, t, e) ->
     Store.GetPoints poly = Some p /\
     (forall tv, t = Some tv ->
        Store.base tv = Store.data_array (Store.GetPolys poly)) /\
     (forall ev, e = Some ev ->
        Store.base ev = Store.data_array (Store.GetLines poly))).
Proof.
  unfold Store.poly_to_mesh_components. intros Hrun.
  apply mbind_inv in Hrun as [(p0 & s1 & Hp & Hrun)|(x & Hp & ->)].
  2:{ assert (s' = s) as ->
        by (destruct (Store.GetPoints poly); by injection Hp).
      split_and!; [apply preserved_but_refl | done | done]. }
  assert (s1 = s /\ Store.GetPoints poly = Some p0) as [-> Hpts].
  { destruct (Store.GetPoints poly); [|done]. by injection Hp as <- <-. }
  apply mbind_inv in Hrun as [(t0 & s2 & Ht & Hrun)|(x & Ht & ->)].
  2:{ apply decode_cells_effect in Ht as (P & Hsame & _).
      split_and!; [|by intros ? _; apply Hsame|done].
      eapply preserved_but_weaken; [|exact P].
      intros l Hl. apply elem_of_app. by left. }
  apply decode_cells_effect in Ht as (Pt & Hsame_t & Hbt).
  apply mbind_inv in Hrun as [(e0 & s3 & He & Hret)|(x & He & ->)].
  2:{ apply decode_cells_effect in He as (Pe & Hsame_e & _).
      split_and!; [| |done].
      - eapply preserved_but_trans.
        + eapply preserved_but_weaken; [|exact Pt].
          intros l Hl. apply elem_of_app. by left.
        + eapply preserved_but_weaken; [|exact Pe].
          intros l Hl. apply elem_of_app. by right.
      - intros Ht0 He0. rewrite (Hsame_e He0). by apply Hsame_t. }
  apply decode_cells_effect in He as (Pe & Hsame_e & Hbe).
  injection Hret as <- <-.
  split_and!.
  - eapply preserved_but_trans.
    + eapply preserved_but_weaken; [|exact Pt].
      intros l Hl. apply elem_of_app. by left.
    + eapply preserved_but_weaken; [|exact Pe].
      intros l Hl. apply elem_of_app. by right.
  - intros Ht0 He0. rewrite (Hsame_e He0). by apply Hsame_t.
  - intros p t e [= <- <- <-]. split_and!; [done | |].
    + intros tv ->. by apply Hbt.
    + intros ev ->. by apply Hbe.
Qed.

End NewBuffers.

(** ** The store: inputs are left as they were *)

(** An array that a reference denotes keeps denoting it while the
    buffers are preserved. *)
Lemma read_view_preserved {A} (h h' : gmap nat (list A)) (v : Store.view)
    (m : ndarray A) :
  h ⊆ h' -> Store.read_view h v = Some m -> Store.read_view h' v = Some m.
Proof.
  unfold Store.read_view. intros Hsub Hread.
  destruct (h !! Store.base v) as [buf|] eqn:Hbuf; [|done].
  by rewrite (lookup_weaken _ _ _ _ Hbuf Hsub).
Qed.

Lemma read_view_preserved_but {A} (h h' : gmap nat (list A))
    (x : list nat) (v : Store.view) (m : ndarray A) :
  (forall l buf, l ∉ x -> h !! l = Some buf -> h' !! l = Some buf) ->
  Store.base v ∉ x ->
  Store.read_view h v = Some m -> Store.read_view h' v = Some m.
Proof.
  unfold Store.read_view. intros Hsub Hv Hread.
  destruct (h !! Store.base v) as [buf|] eqn:Hbuf; [|done].
  by rewrite (Hsub _ _ Hv Hbuf).
Qed.

(** C9 (as amended).  Whatever the store and the arguments, the
    encoder, the decoder, the two builders and the compaction leave
    every buffer that existed before the call unchanged, and the
    decomposition leaves every buffer unchanged but the legacy data that
    [GetData()] writes the cells of the mesh into (on a VTK that exports;
    none otherwise); so every array that could be read before the call
    reads the same after it.  The cell array of the encoder, the meshes
    of the two builders and the two arrays of the compaction lie in
    buffers that did not exist before the call.  The decoder allocates
    nothing: what it returns is a view of the buffer of the id array it
    was given.  The decomposition returns the points array of the mesh
    and the decoder's views of the arrays [GetData()] returned. *)
Theorem C9_inputs_unchanged `{Platform} `{Store.CellStorage} {C : Type} :
  ((forall mat, Store.frame_ok (C:=C) (Store.numpy_to_vtk_cells mat)) /\
   (forall a n, Store.frame_ok (C:=C) (Store.vtk_cellarray_to_shape a n)) /\
   (forall v t e, Store.frame_ok (C:=C) (Store.trimesh_to_vtk v t e)) /\
   (forall v e, Store.frame_ok (C:=C) (Store.graph_to_vtk v e)) /\
   (forall poly (s : Store.store C),
      Store.preserved_but
        (Store.legacy_data (Store.GetPolys poly) ++
         Store.legacy_data (Store.GetLines poly))
        s (Store.poly_to_mesh_components poly s).2) /\
   (forall v f, Store.frame_ok (C:=C) (Store.remove_unused_verts v f))) /\
  ((forall (s s' : Store.store C), Store.preserved s s' ->
      (forall v m, Store.read_view (Store.ints s) v = Some m ->
                   Store.read_view (Store.ints s') v = Some m) /\
      (forall v m, Store.read_view (Store.coords s) v = Some m ->
                   Store.read_view (Store.coords s') v = Some m)) /\
   (forall x (s s' : Store.store C), Store.preserved_but x s s' ->
      (forall v m, Store.base v ∉ x ->
                   Store.read_view (Store.ints s) v = Some m ->
                   Store.read_view (Store.ints s') v = Some m) /\
      (forall v m, Store.read_view (Store.coords s) v = Some m ->
                   Store.read_view (Store.coords s') v = Some m))) /\
  ((forall mat (s s' : Store.store C) c,
      Store.numpy_to_vtk_cells mat s = (Ok c, s') ->
      Store.new_cells s s' c) /\
   (forall v t e (s s' : Store.store C) mesh,
      Store.trimesh_to_vtk v t e s = (Ok mesh, s') ->
      Store.new_mesh s s' mesh) /\
   (forall v e (s s' : Store.store C) mesh,
      Store.graph_to_vtk v e s = (Ok mesh, s') ->
      Store.new_mesh s s' mesh) /\
   (forall v f nv nf (s s' : Store.store C),
      Store.remove_unused_verts v f s = (Ok (nv, nf), s') ->
      Store.new_coord_buffer s s' (Store.base nv) /\
      Store.new_int_buffer s s' (Store.base nf))) /\
  ((forall a n (s s' : Store.store C) v,
      Store.vtk_cellarray_to_shape a n s = (Ok v, s') ->
      s' = s /\ Store.base v = a /\ is_Some (Store.ints s !! a)) /\
   (forall poly (s s' : Store.store C) p t e,
      Store.poly_to_mesh_components poly s = (Ok (p, t, e), s') ->
      Store.GetPoints poly = Some p /\
      (forall tv, t = Some tv ->
         Store.base tv = Store.data_array (Store.GetPolys poly)) /\
      (forall ev, e = Some ev ->
         Store.base ev = Store.data_array (Store.GetLines poly)))).
Proof.
  split_and!.
  - apply frame_numpy_to_vtk_cells.
  - apply frame_vtk_cellarray_to_shape.
  - apply frame_trimesh_to_vtk.
  - apply frame_graph_to_vtk.
  - intros poly s.
    destruct (Store.poly_to_mesh_components poly s) as [r s'] eqn:Hrun.
    by apply poly_to_mesh_components_effect in Hrun as (P & _ & _).
  - apply frame_remove_unused_verts.
  - intros s s' [Hi Hc]. split; intros v m; by apply read_view_preserved.
  - intros x s s' [Hi Hc]. split; intros v m.
    + by apply read_view_preserved_but.
    + by apply read_view_preserved.
  - apply numpy_to_vtk_cells_new.
  - apply trimesh_to_vtk_new.
  - apply graph_to_vtk_new.
  - apply remove_unused_verts_new.
  - apply vtk_cellarray_to_shape_view.
  - intros poly s s' p t e Hrun.
    apply poly_to_mesh_components_effect in Hrun as (_ & _ & Hres).
    by apply Hres.
Qed.

(** C9 as stated fails: not every result is newly allocated.  In a store
    whose buffer 0 is the id array (3, 0, 1, 2) of one triangle, the
    decoder returns, without touching the store, an array that reads
    ((0, 1, 2)) and lies in buffer 0 itself, which is not a new buffer;
    an assignment through that array is an assignment into the id
    array. *)
Lemma C9_counterexample :
  let s : Store.store Z := Store.MkStore {[ 0%nat := [3; 0; 1; 2] ]} ∅ in
  exists v,
    Store.vtk_cellarray_to_shape 0 1 s = (Ok v, s) /\
    Store.read_view (Store.ints s) v = Some (NDArray 3 [[0; 1; 2]]) /\
    Store.base v = 0%nat /\
    ~ Store.new_int_buffer s s (Store.base v) /\
    Store.ints (Store.write_column v 0 [7] s).2 !! 0%nat = Some [3; 7; 1; 2].
Proof.
  intros s. eexists. split; [vm_compute; reflexivity|].
  split_and!.
  - vm_compute. reflexivity.
  - reflexivity.
  - intros [Hnone _]. vm_compute in Hnone. discriminate.
  - vm_compute. reflexivity.
Qed.

(** On a VTK that exports, the faces the decomposition returns do not
    lie in the storage of the mesh but in the legacy data.  Here the
    cells of one triangle are in buffer 0 and the legacy data of the
    polygons is buffer 1: the faces returned read ((0, 1, 2)) and lie in
    buffer 1; an assignment through them leaves buffer 0 as it was; and
    the next decomposition writes the cells over the assignment. *)
Lemma legacy_data_is_scratch :
  let s : Store.store Z :=
    Store.MkStore {[ 0%nat := [3; 0; 1; 2]; 1%nat := []; 2%nat := [];
                     3%nat := [] ]}
                  {[ 0%nat := [0; 0; 0; 1; 0; 0; 0; 1; 0] ]} in
  let poly :=
    Store.PolyData (Some (Store.contiguous 0 3 3))
      (Store.CellArray 1 0 (Some 1%nat)) (Store.CellArray 0 2 (Some 3%nat)) in
  exists p t s1,
    Store.poly_to_mesh_components poly s = (Ok (p, Some t, None), s1) /\
    Store.read_view (Store.ints s1) t = Some (NDArray 3 [[0; 1; 2]]) /\
    Store.base t = 1%nat /\
    let s2 := (Store.write_column t 0 [7] s1).2 in
    Store.ints s2 !! 0%nat = Some [3; 0; 1; 2] /\
    Store.ints s2 !! 1%nat = Some [3; 7; 1; 2] /\
    Store.ints (Store.poly_to_mesh_components poly s2).2 !! 1%nat
    = Some [3; 0; 1; 2].
Proof.
  intros s poly. eexists _, _, _. split; [vm_compute; reflexivity|].
  split; [vm_compute; reflexivity|]. split; [reflexivity|].
  cbv zeta. split_and!; vm_compute; reflexivity.
Qed.

(** ** The store: the arrays the views denote *)

Lemma mapM_lookup_run {A} (buf : list A) (k w : nat) :
  (k + w <= length buf)%nat ->
  mapM (fun j => buf !! (k + j * 1)%nat) (seq 0 w) = Some (take w (drop k buf)).
Proof.
  intros Hlen. apply mapM_Some_2, Forall2_same_length_lookup_2.
  - rewrite length_seq, length_take, length_drop. lia.
  - intros j j' x Hj Hx. apply lookup_seq in Hj as [-> Hj].
    rewrite lookup_take_lt, lookup_drop in Hx by done.
    rewrite <- Hx. f_equal. lia.
Qed.

(** A view with unit column stride denotes slices of its buffer. *)
Lemma read_view_rows {A} (h : gmap nat (list A)) (v : Store.view)
    (buf : list A) :
  Store.stride1 v = 1%nat ->
  h !! Store.base v = Some buf ->
  (forall i, (i < Store.vshape0 v)%nat ->
     (Store.offset v + i * Store.stride0 v + Store.vshape1 v <= length buf)%nat) ->
  Store.read_view h v =
  Some (NDArray (Store.vshape1 v)
          (map (fun i => take (Store.vshape1 v)
                           (drop (Store.offset v + i * Store.stride0 v) buf))
               (seq 0 (Store.vshape0 v)))).
Proof.
  intros Hs1 Hbuf Hlen. unfold Store.read_view. rewrite Hbuf; simpl.
  unfold Store.view_index. rewrite Hs1.
  rewrite (mapM_Some_2 _ _
    (map (fun i => take (Store.vshape1 v)
                     (drop (Store.offset v + i * Store.stride0 v) buf))
         (seq 0 (Store.vshape0 v)))); [done|].
  apply Forall2_fmap_r, Forall_Forall2_diag, Forall_forall.
  intros i Hi. apply elem_of_seq in Hi.
  apply mapM_lookup_run, Hlen. lia.
Qed.

Lemma chunks_slices {A} (w n : nat) (l : list A) (k : nat) :
  chunks w n (drop k l)
  = map (fun i => take w (drop (k + i * w) l)) (seq 0 n).
Proof.
  revert k. induction n as [|n IH]; intros k; simpl; [done|].
  rewrite Nat.add_0_r. f_equal.
  rewrite drop_drop, IH, <- fmap_S_seq, map_map.
  apply map_ext. intros i. do 2 f_equal. lia.
Qed.

(** The view of a whole buffer denotes the buffer, reshaped. *)
Lemma read_view_contiguous {A} (h : gmap nat (list A)) (l n w : nat)
    (buf : list A) :
  h !! l = Some buf -> (n * w <= length buf)%nat ->
  Store.read_view h (Store.contiguous l n w) = Some (NDArray w (chunks w n buf)).
Proof.
  intros Hbuf Hlen.
  rewrite (read_view_rows h _ buf); simpl; try done.
  - pose proof (chunks_slices w n buf 0) as Hc. rewrite drop_0 in Hc.
    by rewrite Hc.
  - intros i Hi. nia.
Qed.

Lemma read_view_new_array {A} (h : gmap nat (list A)) (l : nat) (m : ndarray A) :
  rectangular m -> h !! l = Some (ravel m) ->
  Store.read_view h (Store.contiguous l (shape0 m) (shape1 m)) = Some m.
Proof.
  intros Hrect Hbuf.
  rewrite (read_view_contiguous h _ _ _ (ravel m)); [|done|].
  - unfold ravel, shape0. rewrite chunks_concat by done. by destruct m.
  - unfold ravel. rewrite (length_concat_uniform (shape1 m)) by done. done.
Qed.

(** The view without its first column denotes the reshaped buffer
    without its first column. *)
Lemma read_view_drop_first_column {A} (h : gmap nat (list A)) (l n w : nat)
    (buf : list A) :
  h !! l = Some buf -> (n * w <= length buf)%nat ->
  Store.read_view h (Store.drop_first_column_view (Store.contiguous l n w))
  = Some (drop_first_column (NDArray w (chunks w n buf))).
Proof.
  intros Hbuf Hlen.
  rewrite (read_view_rows h _ buf); simpl; try done.
  - unfold drop_first_column; simpl. do 2 f_equal.
    pose proof (chunks_slices w n buf 0) as Hc. rewrite drop_0 in Hc.
    rewrite Hc, map_map.
    apply map_ext_in. intros i Hi. apply in_seq in Hi.
    destruct w as [|w]; simpl.
    + by rewrite !take_0.
    + rewrite Nat.sub_0_r.
      replace (S (i * S w)) with (i * S w + 1)%nat by lia.
      rewrite <- (drop_drop buf 1 (i * S w)).
      destruct (drop (i * S w) buf) as [|x rest]; simpl; [by rewrite take_nil|].
      by rewrite !drop_0.
  - intros i Hi. destruct w as [|w]; simpl; nia.
Qed.

(** What a view denotes has the shape of the view. *)
Lemma read_view_shape {A} (h : gmap nat (list A)) (v : Store.view)
    (m : ndarray A) :
  Store.read_view h v = Some m ->
  shape0 m = Store.vshape0 v /\ shape1 m = Store.vshape1 v /\ rectangular m.
Proof.
  unfold Store.read_view. intros Hread.
  destruct (h !! Store.base v) as [buf|]; [|done]. simpl in Hread.
  destruct (mapM _ _) as [rs|] eqn:Hrs; [|done]. injection Hread as <-.
  apply mapM_Some_1 in Hrs. unfold shape0, rectangular; simpl.
  split_and!; [|done|].
  - apply Forall2_length in Hrs. by rewrite length_seq in Hrs.
  - clear -Hrs. induction Hrs as [|i r ixs rs Hr _ IH]; constructor; [|done].
    apply mapM_Some_1, Forall2_length in Hr. by rewrite length_seq in Hr.
Qed.

(** ** The store: the calls compute what the value-level functions do *)

Section Refinement.
Context {C : Type} `{Platform} `{Store.CellStorage}.

Lemma cells_denote_preserved (h h' : gmap nat (list Z))
    (c : Store.vtkCellArray) (vc : vtkCellArray) :
  h ⊆ h' -> Store.cells_denote h c vc -> Store.cells_denote h' c vc.
Proof.
  intros Hsub [Hn Hd]. split; [done|]. by eapply lookup_weaken.
Qed.

(** A new cell array holds no cell. *)
Lemma new_vtkCellArray_refines (s : Store.store C) :
  exists c s',
    Store.new_vtkCellArray s = (Ok c, s') /\
    Store.preserved s s' /\
    Store.cells_denote (Store.ints s') c new_vtkCellArray.
Proof.
  pose proof (frame_new_vtkCellArray (C:=C) s) as P.
  unfold Store.new_vtkCellArray in *.
  unfold Store.mbind, Store.alloc_int, Store.ret in *.
  destruct Store.exports_legacy_data; cbn [Store.ints Store.coords] in *.
  - eexists _, _. split; [reflexivity|]. split; [exact P|].
    split; [done|]. cbn [Store.Cells Store.ints].
    rewrite lookup_insert_ne; [apply lookup_insert_eq|].
    intros Heq.
    apply (is_fresh (dom (<[fresh (dom (Store.ints s)) := []]>
                            (Store.ints s)))).
    rewrite Heq. rewrite dom_insert.
    apply elem_of_union. left. by apply elem_of_singleton.
  - eexists _, _. split; [reflexivity|]. split; [exact P|].
    split; [done|]. apply lookup_insert_eq.
Qed.

(** The encoder puts the value-level encoding in a new cell array. *)
Lemma numpy_to_vtk_cells_refines (mat : Store.view) (m : ndarray Z)
    (s : Store.store C) :
  Store.read_view (Store.ints s) mat = Some m ->
  exists c s',
    Store.numpy_to_vtk_cells mat s = (Ok c, s') /\
    Store.preserved s s' /\
    Store.cells_denote (Store.ints s') c (numpy_to_vtk_cells m).
Proof.
  intros Hread.
  pose proof (frame_numpy_to_vtk_cells (C:=C) mat s) as P.
  unfold Store.numpy_to_vtk_cells in *.
  destruct (new_vtkCellArray_refines s) as (c0 & s1 & Hnew & P1 & _).
  unfold Store.mbind at 1 in P. unfold Store.mbind at 1.
  rewrite Hnew in *.
  unfold Store.mbind at 1 in P. unfold Store.mbind at 1.
  unfold Store.load_int in *.
  rewrite (read_view_preserved _ _ _ _ (proj1 P1) Hread) in *.
  unfold Store.mbind at 1 in P. unfold Store.mbind at 1.
  unfold Store.numpy_to_vtkIdTypeArray, Store.alloc_int in *.
  cbn [Store.ints Store.coords] in *.
  unfold Store.SetCells in *.
  destruct (Store.LegacyData c0) as [d|].
  - unfold Store.mbind, Store.load_ids, Store.alloc_int, Store.ret in *.
    cbn [Store.ints Store.coords] in *.
    rewrite lookup_insert_eq in *. cbn [Store.ints Store.coords] in *.
    eexists _, _. split; [reflexivity|]. split; [exact P|].
    split; [done|]. cbn [Store.Cells Store.ints]. apply lookup_insert_eq.
  - unfold Store.ret in *.
    eexists _, _. split; [reflexivity|]. split; [exact P|].
    split; [done|]. cbn [Store.Cells Store.ints]. apply lookup_insert_eq.
Qed.

(** The decoder fails as the value-level decoder does on the contents of
    the id array, and otherwise returns a view that denotes the matrix
    the value-level decoder returns. *)
Lemma vtk_cellarray_to_shape_refines (a ncells : nat) (flat : list Z)
    (s : Store.store C) :
  Store.ints s !! a = Some flat ->
  match vtk_cellarray_to_shape flat ncells with
  | Ok m =>
      exists v, Store.vtk_cellarray_to_shape a ncells s = (Ok v, s) /\
                Store.read_view (Store.ints s) v = Some m
  | Raise e => Store.vtk_cellarray_to_shape a ncells s = (Raise e, s)
  end.
Proof.
  intros Ha.
  unfold vtk_cellarray_to_shape, Store.vtk_cellarray_to_shape,
    Store.mbind, Store.vtk_to_numpy.
  rewrite Ha. destruct (ncells =? 0)%nat; [done|].
  unfold reshape, Store.reshape_view; simpl.
  destruct (Nat.eqb_spec (ncells * (length flat / ncells)) (length flat))
    as [Heq|Hne]; simpl; [|done].
  eexists. split; [done|].
  apply read_view_drop_first_column; [done | lia].
Qed.

(** Assigning a column through the view of a whole buffer assigns the
    column of the matrix the buffer holds. *)
Lemma write_rows (w i : nat) (rs : list (list Z)) (col pre : list Z) (a : nat) :
  Forall (fun r => length r = w) rs -> (i < w)%nat ->
  length col = length rs -> length pre = (a * w)%nat ->
  foldl (fun b (rx : nat * Z) => <[(0 + rx.1 * w + i * 1)%nat := rx.2]> b)
        (pre ++ concat rs) (zip (seq a (length rs)) col)
  = pre ++ concat (zip_with (fun r x => <[i := x]> r) rs col).
Proof.
  intros Hrs Hi. revert col pre a.
  induction Hrs as [|r rs Hr _ IH]; intros col pre a Hcol Hpre.
  - destruct col; [|done]. done.
  - destruct col as [|x col]; [done|]. simpl in *.
    replace (a * w + i * 1)%nat with (length pre + i)%nat by lia.
    rewrite insert_app_r, insert_app_l by lia.
    rewrite (app_assoc pre), IH.
    + by rewrite <- app_assoc.
    + lia.
    + rewrite length_app, length_insert. lia.
Qed.

Lemma write_column_contiguous (l i : nat) (M : ndarray Z) (col : list Z)
    (h : gmap nat (list Z)) (c : gmap nat (list C)) :
  rectangular M -> (i < shape1 M)%nat -> length col = shape0 M ->
  Store.write_column (Store.contiguous l (shape0 M) (shape1 M)) i col
    (Store.MkStore (<[l := ravel M]> h) c)
  = (Ok tt, Store.MkStore (<[l := ravel (set_column i col M)]> h) c).
Proof.
  intros Hrect Hi Hcol. unfold Store.write_column; simpl.
  rewrite alter_insert_eq. do 3 f_equal.
  unfold Store.view_index; simpl. unfold ravel, set_column; simpl.
  exact (write_rows (shape1 M) i (rows M) col [] 0 Hrect Hi Hcol eq_refl).
Qed.

Lemma set_column_shape (i : nat) (col : list Z) (M : ndarray Z) :
  rectangular M -> length col = shape0 M ->
  rectangular (set_column i col M) /\
  shape0 (set_column i col M) = shape0 M /\
  shape1 (set_column i col M) = shape1 M.
Proof.
  intros Hrect Hcol. unfold rectangular, shape0, set_column in *; simpl.
  split_and!; [|by rewrite length_zip_with; lia|done].
  revert col Hcol. induction Hrect as [|r rs Hr _ IH]; intros col Hcol; simpl.
  - destruct col; constructor.
  - destruct col as [|x col]; [done|]. constructor.
    + by rewrite length_insert.
    + apply IH. simpl in Hcol. lia.
Qed.

(** One store-level iteration assigns the column the value-level
    iteration assigns. *)
Lemma column_step_refines (faces : Store.view) (f : ndarray Z) (l : nat)
    (used : list Z) (h : gmap nat (list Z)) (c : gmap nat (list C))
    (i : nat) (M : ndarray Z) :
  Store.read_view h faces = Some f -> h !! l = None ->
  rectangular M -> shape0 M = shape0 f -> (i < shape1 M)%nat ->
  Store.mbind (Store.load_column faces i)
    (fun col => Store.write_column
                  (Store.contiguous l (shape0 M) (shape1 M)) i
                  (searchsorted used col))
    (Store.MkStore (<[l := ravel M]> h) c)
  = (Ok tt,
     Store.MkStore
       (<[l := ravel (set_column i (searchsorted used (column i f)) M)]> h) c).
Proof.
  intros Hf Hl Hrect Hn Hi.
  unfold Store.mbind, Store.load_column, Store.mbind, Store.load_int.
  cbn [Store.ints].
  rewrite (read_view_preserved h _ faces f (insert_subseteq _ _ _ Hl) Hf).
  unfold Store.ret. apply write_column_contiguous; [done | done|].
  unfold searchsorted, column. by rewrite !length_map.
Qed.

(** The store-level column loop leaves in the buffer of [new_face] what
    the value-level loop computes. *)
Lemma column_loop_refines (faces : Store.view) (f : ndarray Z) (l : nat)
    (used : list Z) (h : gmap nat (list Z)) (c : gmap nat (list C))
    (cols : list nat) (n w : nat) (M : ndarray Z) :
  Store.read_view h faces = Some f -> h !! l = None ->
  rectangular M -> shape0 M = shape0 f ->
  n = shape0 M -> w = shape1 M ->
  Forall (fun i => (i < w)%nat) cols ->
  Store.for_each cols
    (fun i => Store.mbind (Store.load_column faces i)
                (fun col => Store.write_column (Store.contiguous l n w) i
                              (searchsorted used col)))
    (Store.MkStore (<[l := ravel M]> h) c)
  = (Ok tt,
     Store.MkStore
       (<[l := ravel (foldl (fun nf i =>
                               set_column i (searchsorted used (column i f)) nf)
                            M cols)]> h) c).
Proof.
  intros Hf Hl. revert M.
  induction cols as [|i cols IH]; intros M Hrect Hn -> -> Hcols; [done|].
  apply Forall_cons in Hcols as [Hi Hcols].
  assert (length (searchsorted used (column i f)) = shape0 M) as Hlen.
  { unfold searchsorted, column. by rewrite !length_map. }
  destruct (set_column_shape i _ M Hrect Hlen) as (Hrect' & Hn' & Hw').
  cbn [Store.for_each foldl]. unfold Store.mbind at 1.
  rewrite (column_step_refines faces f l used h c i M) by done.
  apply IH; [done | congruence | congruence | congruence | done].
Qed.

(** The run of [remove_unused_verts] over the store, in closed form. *)
Lemma remove_unused_verts_run (verts faces : Store.view)
    (v : ndarray C) (f : ndarray Z) (s : Store.store C) :
  Store.read_view (Store.coords s) verts = Some v ->
  Store.read_view (Store.ints s) faces = Some f ->
  let used := unique (ravel f) in
  let li := fresh (dom (Store.ints s)) in
  let lc := fresh (dom (Store.coords s)) in
  Store.remove_unused_verts verts faces s =
  match take_rows v used with
  | Ok selected =>
      (Ok (Store.contiguous lc (shape0 selected) (shape1 selected),
           Store.contiguous li (shape0 f) (shape1 f)),
       Store.MkStore
         (<[li := ravel
                    (foldl (fun nf i =>
                              set_column i (searchsorted used (column i f)) nf)
                           (zeros (shape0 f) (shape1 f))
                           (seq 0 (shape1 f)))]> (Store.ints s))
         (<[lc := ravel selected]> (Store.coords s)))
  | Raise e => (Raise e, s)
  end.
Proof.
  intros Hv Hf. cbv zeta.
  destruct (read_view_shape _ _ _ Hf) as (Hn & Hw & Hrect).
  unfold Store.remove_unused_verts.
  unfold Store.mbind at 1. unfold Store.load_int. rewrite Hf.
  unfold Store.mbind at 1. unfold Store.load_coord. rewrite Hv.
  unfold Store.mbind at 1. unfold Store.lift.
  destruct (take_rows v (unique (ravel f))) as [selected|e]; [|done].
  unfold Store.mbind at 1.
  unfold Store.new_coord_array, Store.mbind at 1, Store.alloc_coord, Store.ret.
  unfold Store.mbind at 1.
  unfold Store.new_int_array, Store.mbind at 1, Store.alloc_int.
  unfold Store.mbind at 1. unfold Store.ret at 1.
  cbn [Store.ints Store.coords].
  rewrite <- Hn, <- Hw.
  set (M := zeros (shape0 f) (shape1 f)).
  assert (rectangular M /\ shape0 M = shape0 f /\ shape1 M = shape1 f)
    as (HM & HMn & HMw).
  { unfold M, zeros, rectangular, shape0; simpl. split_and!.
    - apply Forall_replicate. by rewrite length_replicate.
    - by rewrite length_replicate.
    - done. }
  rewrite (column_loop_refines faces f (fresh (dom (Store.ints s)))
             (unique (ravel f)) (Store.ints s)
             (<[fresh (dom (Store.coords s)) := ravel selected]> (Store.coords s))
             (seq 0 (shape1 f)) (shape0 M) (shape1 M) M Hf
             (proj1 (not_elem_of_dom _ _) (is_fresh _)) HM HMn
             eq_refl eq_refl).
  - by rewrite HMn, HMw.
  - apply Forall_forall. intros i Hi. apply elem_of_seq in Hi. lia.
Qed.

Lemma take_rows_rectangular {A} (m sel : ndarray A) (idx : list Z) :
  rectangular m -> take_rows m idx = Ok sel -> rectangular sel.
Proof.
  unfold take_rows. intros Hm Hsel.
  destruct (mapR (row_at m) idx) as [rs|] eqn:Hrs; [|done].
  injection Hsel as <-. unfold rectangular; simpl.
  revert rs Hrs. induction idx as [|k ks IH]; intros rs Hrs; simpl in Hrs.
  - injection Hrs as <-. constructor.
  - destruct (row_at m k) as [r|] eqn:Hr; [|done]. simpl in Hrs.
    destruct (mapR (row_at m) ks) as [rs'|]; [|done].
    injection Hrs as <-. constructor; [|by apply IH].
    unfold row_at in Hr. destruct (_ && _); [|done].
    destruct (rows m !! _) as [r'|] eqn:Hr'; [|done]. injection Hr as <-.
    unfold rectangular in Hm. rewrite Forall_forall in Hm.
    apply Hm. by eapply list_elem_of_lookup_2.
Qed.

Lemma column_loop_shape (f : ndarray Z) (used : list Z) (cols : list nat)
    (M : ndarray Z) :
  rectangular M -> shape0 M = shape0 f ->
  let final :=
    foldl (fun nf i => set_column i (searchsorted used (column i f)) nf)
          M cols in
  rectangular final /\ shape0 final = shape0 M /\ shape1 final = shape1 M.
Proof.
  revert M. induction cols as [|i cols IH]; intros M HM HMn; simpl; [done|].
  assert (length (searchsorted used (column i f)) = shape0 M)
    as Hlen by (unfold searchsorted, column; by rewrite !length_map).
  destruct (set_column_shape i _ M HM Hlen) as (H1 & H2 & H3).
  destruct (IH _ H1) as (? & ? & ?); [congruence|].
  split_and!; [done | congruence | congruence].
Qed.

(** [remove_unused_verts] over the store fails as the value-level
    function does on the arrays its arguments denote, and otherwise
    returns two views that denote the arrays the value-level function
    returns. *)
Lemma remove_unused_verts_refines (verts faces : Store.view)
    (v : ndarray C) (f : ndarray Z) (s : Store.store C) :
  Store.read_view (Store.coords s) verts = Some v ->
  Store.read_view (Store.ints s) faces = Some f ->
  match remove_unused_verts v f with
  | Ok (new_verts, new_face) =>
      exists nv nf s',
        Store.remove_unused_verts verts faces s = (Ok (nv, nf), s') /\
        Store.read_view (Store.coords s') nv = Some new_verts /\
        Store.read_view (Store.ints s') nf = Some new_face
  | Raise e => Store.remove_unused_verts verts faces s = (Raise e, s)
  end.
Proof.
  intros Hv Hf.
  destruct (read_view_shape _ _ _ Hv) as (_ & _ & Hvrect).
  rewrite (remove_unused_verts_run verts faces v f s Hv Hf). cbv zeta.
  unfold remove_unused_verts.
  destruct (take_rows v (unique (ravel f))) as [selected|e] eqn:Hsel;
    simpl; [|done].
  eexists _, _, _. split; [reflexivity|]. cbn [Store.ints Store.coords].
  split.
  - apply read_view_new_array; [|by rewrite lookup_insert_eq].
    by eapply take_rows_rectangular.
  - set (M := zeros (shape0 f) (shape1 f)).
    assert (rectangular M /\ shape0 M = shape0 f /\ shape1 M = shape1 f)
      as (HM & HMn & HMw).
    { unfold M, zeros, rectangular, shape0; simpl. split_and!.
      - apply Forall_replicate. by rewrite length_replicate.
      - by rewrite length_replicate.
      - done. }
    destruct (column_loop_shape f (unique (ravel f)) (seq 0 (shape1 f)) M HM HMn)
      as (Hfr & Hfn & Hfw).
    match goal with
    | |- Store.read_view ?h (Store.contiguous ?l _ _) = Some ?final =>
        pose proof (read_view_new_array h l final Hfr
                      (lookup_insert_eq _ _ _)) as Hread
    end.
    by rewrite Hfn, HMn, Hfw, HMw in Hread.
Qed.

Lemma read_view_alloc {A} (h : gmap nat (list A)) (buf : list A)
    (v : Store.view) (m : ndarray A) :
  Store.read_view h v = Some m ->
  Store.read_view (<[fresh (dom h) := buf]> h) v = Some m.
Proof.
  apply read_view_preserved, insert_subseteq, not_elem_of_dom, is_fresh.
Qed.

(** The run of [numpy_rep_to_vtk] over the store: two empty cell arrays,
    a copy of the vertices, the encoding of the shapes and, when there
    are edges with at least one row, their encoding. *)
Lemma numpy_rep_to_vtk_refines (vertices shapes : Store.view)
    (edges : option Store.view) (v : ndarray C) (t : ndarray Z)
    (e : option (ndarray Z)) (s : Store.store C) :
  Store.read_view (Store.coords s) vertices = Some v ->
  Store.read_view (Store.ints s) shapes = Some t ->
  (edges ≫= Store.read_view (Store.ints s)) = e ->
  (is_Some edges -> is_Some e) ->
  exists mesh cells lines s',
    Store.numpy_rep_to_vtk vertices shapes edges s
      = (Ok (mesh, cells, lines), s') /\
    Store.mesh_denotes s' mesh (numpy_rep_to_vtk v t e).1.1 /\
    Store.cells_denote (Store.ints s') cells (numpy_rep_to_vtk v t e).1.2 /\
    match lines, (numpy_rep_to_vtk v t e).2 with
    | Some c, Some vc => Store.cells_denote (Store.ints s') c vc
    | None, None => True
    | _, _ => False
    end.
Proof.
  intros Hv Ht He Hsome.
  destruct (read_view_shape _ _ _ Hv) as (_ & _ & Hvrect).
  unfold Store.numpy_rep_to_vtk, Store.new_vtkPolyData, Store.numpy_to_vtk.
  (* the two empty cell arrays *)
  destruct (new_vtkCellArray_refines s) as (polys & s1 & Hpolys & P1 & D1).
  destruct (new_vtkCellArray_refines s1) as (lines0 & s2 & Hlines & P2 & D2).
  unfold Store.mbind at 1. unfold Store.mbind at 1. rewrite Hpolys.
  unfold Store.mbind at 1. rewrite Hlines. unfold Store.ret at 1.
  (* the copy of the vertices *)
  assert (Store.preserved s s2) as Q2 by (by eapply preserved_trans).
  unfold Store.mbind at 1. unfold Store.mbind at 1.
  unfold Store.load_coord at 1.
  rewrite (read_view_preserved _ _ _ _ (proj2 Q2) Hv).
  unfold Store.new_coord_array, Store.mbind at 1, Store.alloc_coord, Store.ret at 1.
  set (lc := fresh (dom (Store.coords s2))).
  set (s3 := Store.MkStore (Store.ints s2) (<[lc := ravel v]> (Store.coords s2))).
  assert (Store.read_view (Store.coords s3)
            (Store.contiguous lc (shape0 v) (shape1 v)) = Some v) as Dp
    by (apply read_view_new_array; [done | apply lookup_insert_eq]).
  (* the encoding of the shapes *)
  assert (Store.read_view (Store.ints s3) shapes = Some t) as Ht3
    by exact (read_view_preserved _ _ _ _ (proj1 Q2) Ht).
  destruct (numpy_to_vtk_cells_refines shapes t s3 Ht3)
    as (cells & s4 & Hcells & P4 & D4).
  unfold Store.mbind at 1. rewrite Hcells.
  assert (Store.cells_denote (Store.ints s4) polys new_vtkCellArray) as D1'.
  { eapply cells_denote_preserved; [exact (proj1 P4)|].
    eapply cells_denote_preserved; [exact (proj1 P2) | exact D1]. }
  assert (Store.cells_denote (Store.ints s4) lines0 new_vtkCellArray) as D2'
    by (eapply cells_denote_preserved; [exact (proj1 P4) | exact D2]).
  assert (Store.read_view (Store.coords s4)
            (Store.contiguous lc (shape0 v) (shape1 v)) = Some v) as Dp'
    by exact (read_view_preserved _ _ _ _ (proj2 P4) Dp).
  (* the edges *)
  unfold Store.mbind at 1.
  destruct edges as [ev|]; simpl in He; subst e.
  - destruct (Store.read_view (Store.ints s) ev) as [em|] eqn:Hev;
      [|by destruct (Hsome ltac:(eauto))].
    destruct (read_view_shape _ _ _ Hev) as (Hen & _ & _).
    unfold numpy_rep_to_vtk, len. rewrite Hen.
    destruct (0 <? Store.vshape0 ev)%nat.
    + assert (Store.read_view (Store.ints s4) ev = Some em) as Hev4.
      { eapply read_view_preserved; [exact (proj1 P4)|].
        exact (read_view_preserved _ _ _ _ (proj1 Q2) Hev). }
      destruct (numpy_to_vtk_cells_refines ev em s4 Hev4)
        as (c & s5 & Hc & P5 & D5).
      unfold Store.mbind at 1. rewrite Hc. unfold Store.ret.
      eexists _, _, _, _. split; [reflexivity|]. simpl.
      split_and!.
      * split_and!; simpl.
        -- exact (read_view_preserved _ _ _ _ (proj2 P5) Dp').
        -- exact (cells_denote_preserved _ _ _ _ (proj1 P5) D1').
        -- exact (cells_denote_preserved _ _ _ _ (proj1 P5) D2').
      * exact (cells_denote_preserved _ _ _ _ (proj1 P5) D4).
      * exact D5.
    + unfold Store.ret. eexists _, _, _, _. split; [reflexivity|]. simpl.
      split_and!; [split_and!|..]; done.
  - unfold Store.ret. eexists _, _, _, _. split; [reflexivity|]. simpl.
    split_and!; [split_and!|..]; done.
Qed.

(** [trimesh_to_vtk] over the store fails as the value-level function
    does, and otherwise returns a mesh that holds the value-level mesh. *)
Lemma trimesh_to_vtk_refines (vertices tris : Store.view)
    (graph_edges : option Store.view) (v : ndarray C) (t : ndarray Z)
    (e : option (ndarray Z)) (s : Store.store C) :
  Store.read_view (Store.coords s) vertices = Some v ->
  Store.read_view (Store.ints s) tris = Some t ->
  (graph_edges ≫= Store.read_view (Store.ints s)) = e ->
  (is_Some graph_edges -> is_Some e) ->
  match trimesh_to_vtk v t e with
  | Ok vmesh =>
      exists mesh s',
        Store.trimesh_to_vtk vertices tris graph_edges s = (Ok mesh, s') /\
        Store.mesh_denotes s' mesh vmesh
  | Raise x => Store.trimesh_to_vtk vertices tris graph_edges s = (Raise x, s)
  end.
Proof.
  intros Hv Ht He Hsome.
  destruct (read_view_shape _ _ _ Hv) as (Hvn & _ & _).
  destruct (read_view_shape _ _ _ Ht) as (_ & Htw & _).
  remember (Store.trimesh_to_vtk vertices tris graph_edges s) as run eqn:Hrun.
  unfold Store.trimesh_to_vtk in Hrun. rewrite <- Htw, <- Hvn in Hrun.
  unfold trimesh_to_vtk, len.
  destruct (negb (shape1 t =? 3)%nat); [by subst run|].
  unfold Store.mbind at 1 in Hrun. unfold Store.load_int at 1 in Hrun.
  rewrite Ht in Hrun.
  unfold Store.mbind at 1 in Hrun. unfold Store.lift at 1 in Hrun.
  destruct (np_max t) as [mx|x]; cbn [bind]; [|by subst run].
  destruct (Z.of_nat (shape0 v) <=? mx); [by subst run|].
  destruct (numpy_rep_to_vtk_refines vertices tris graph_edges v t e s
              Hv Ht He Hsome)
    as (mesh & cells & lines & s' & Hrep & (Hp & Hpolys & Hlines) & Hc & Hl).
  unfold Store.mbind in Hrun. rewrite Hrep in Hrun. subst run.
  destruct (numpy_rep_to_vtk v t e) as [[vmesh vcells] vlines]; simpl in *.
  destruct lines as [c|], vlines as [vc|]; try done;
    eexists _, _; (split; [reflexivity|]); by split_and!.
Qed.

(** Likewise for [graph_to_vtk]. *)
Lemma graph_to_vtk_refines (vertices edges : Store.view)
    (v : ndarray C) (e : ndarray Z) (s : Store.store C) :
  Store.read_view (Store.coords s) vertices = Some v ->
  Store.read_view (Store.ints s) edges = Some e ->
  match graph_to_vtk v e with
  | Ok vmesh =>
      exists mesh s',
        Store.graph_to_vtk vertices edges s = (Ok mesh, s') /\
        Store.mesh_denotes s' mesh vmesh
  | Raise x => Store.graph_to_vtk vertices edges s = (Raise x, s)
  end.
Proof.
  intros Hv He.
  destruct (read_view_shape _ _ _ Hv) as (Hvn & _ & _).
  destruct (read_view_shape _ _ _ He) as (_ & Hew & _).
  remember (Store.graph_to_vtk vertices edges s) as run eqn:Hrun.
  unfold Store.graph_to_vtk in Hrun. rewrite <- Hew, <- Hvn in Hrun.
  unfold graph_to_vtk, len.
  destruct (negb (shape1 e =? 2)%nat); [by subst run|].
  unfold Store.mbind at 1 in Hrun. unfold Store.load_int at 1 in Hrun.
  rewrite He in Hrun.
  unfold Store.mbind at 1 in Hrun. unfold Store.lift at 1 in Hrun.
  destruct (np_max e) as [mx|x]; cbn [bind]; [|by subst run].
  destruct (Z.of_nat (shape0 v) <=? mx); [by subst run|].
  destruct (numpy_rep_to_vtk_refines vertices edges None v e None s
              Hv He eq_refl)
    as (mesh & cells & lines & s' & Hrep & (Hp & Hpolys & Hlines) & Hc & Hl).
  { by intros []. }
  unfold Store.mbind in Hrun. rewrite Hrep in Hrun. subst run.
  destruct (numpy_rep_to_vtk v e None) as [[vmesh vcells] vlines] eqn:Hval.
  injection Hval as <- <- <-. simpl in *.
  eexists _, _. split; [reflexivity|]. by split_and!.
Qed.

(** One cell array of a mesh, decoded over the store and at value
    level.  The legacy data, if any, is another buffer than the one that
    holds the cells. *)
Lemma decode_cells_refines (c : Store.vtkCellArray) (vc : vtkCellArray)
    (s : Store.store C) :
  Store.cells_denote (Store.ints s) c vc ->
  Store.Cells c ∉ Store.legacy_data c ->
  let run :=
    (if (0 <? Store.GetNumberOfCells c)%nat
     then Store.mbind (Store.GetData c) (fun a =>
            Store.mbind
              (Store.vtk_cellarray_to_shape a (Store.GetNumberOfCells c))
              (fun t => Store.ret (Some t)))
     else Store.ret None) s in
  let val :=
    (if (0 <? GetNumberOfCells vc)%nat
     then t <- vtk_cellarray_to_shape (GetData vc) (GetNumberOfCells vc) ;;
          Ok (Some t)
     else Ok None) in
  (exists t vt s', run = (Ok t, s') /\ val = Ok vt /\
                   (t ≫= Store.read_view (Store.ints s')) = vt /\
                   (is_Some t <-> is_Some vt)) \/
  (exists x s', run = (Raise x, s') /\ val = Raise x).
Proof.
  intros [Hn Hd] Hapart. cbv zeta. rewrite <- Hn.
  destruct (0 <? Store.GetNumberOfCells c)%nat.
  2:{ left. exists None, None, s. split_and!; try done; split; by intros []. }
  destruct (Store.GetData c s) as [ra s1] eqn:Hget.
  assert (ra = Ok (Store.data_array c) /\
          Store.ints s1 !! Store.data_array c = Some (GetData vc)) as [-> Hd1].
  { unfold Store.GetData, Store.data_array in *.
    destruct (Store.LegacyData c) as [d|].
    - unfold Store.mbind, Store.load_ids, Store.store_ids, Store.ret in Hget.
      rewrite Hd in Hget. injection Hget as <- <-. split; [done|].
      simpl. apply lookup_insert_eq.
    - injection Hget as <- <-. done. }
  pose proof (vtk_cellarray_to_shape_refines (Store.data_array c)
                (Store.GetNumberOfCells c) _ s1 Hd1) as R.
  unfold Store.mbind at 1. rewrite Hget. cbv beta iota.
  destruct (vtk_cellarray_to_shape (GetData vc) _) as [vt|x]; cbn [bind].
  - destruct R as (tv & R & Htv). left. exists (Some tv), (Some vt), s1.
    unfold Store.mbind. rewrite R.
    split_and!; try done; split; by eauto.
  - right. exists x, s1. unfold Store.mbind. rewrite Hget. cbv beta iota.
    by rewrite R.
Qed.

(** [poly_to_mesh_components] over the store, on a mesh that holds the
    value-level mesh [vpoly] and whose legacy data lie apart: it fails as
    the value-level function does, and otherwise returns views that
    denote what the value-level function returns, in a store where the
    mesh still holds [vpoly]. *)
Lemma poly_to_mesh_components_refines (poly : Store.vtkPolyData)
    (vpoly : vtkPolyData C) (s : Store.store C) :
  Store.mesh_denotes s poly vpoly ->
  Store.legacy_data_apart poly ->
  (is_Some (Store.GetPoints poly) -> is_Some (GetPoints vpoly)) ->
  match poly_to_mesh_components vpoly with
  | Ok (vp, vt, ve) =>
      exists p t e s',
        Store.poly_to_mesh_components poly s = (Ok (p, t, e), s') /\
        Store.read_view (Store.coords s') p = Some vp /\
        (t ≫= Store.read_view (Store.ints s')) = vt /\
        (is_Some t <-> is_Some vt) /\
        (e ≫= Store.read_view (Store.ints s')) = ve /\
        (is_Some e <-> is_Some ve) /\
        Store.mesh_denotes s' poly vpoly
  | Raise x =>
      exists s', Store.poly_to_mesh_components poly s = (Raise x, s')
  end.
Proof.
  intros (Hp & Hpolys & Hlines) [Hnodup Hcells] Hsome.
  remember (Store.poly_to_mesh_components poly s) as run eqn:Hrun.
  unfold Store.poly_to_mesh_components in Hrun.
  unfold poly_to_mesh_components, GetNumberOfPolys, GetNumberOfLines.
  destruct (Store.GetPoints poly) as [p|] eqn:Hpts; simpl in Hp.
  2:{ rewrite <- Hp. subst run. by exists s. }
  destruct (GetPoints vpoly) as [vp|] eqn:Hvp;
    [|by destruct (Hsome ltac:(eauto))].
  cbn [bind]. unfold Store.mbind at 1 in Hrun. unfold Store.ret at 1 in Hrun.
  rewrite Forall_app in Hcells. destruct Hcells as [Hcp Hcl].
  assert (Store.Cells (Store.GetPolys poly)
            ∉ Store.legacy_data (Store.GetPolys poly)) as Ap.
  { intros Hin. rewrite Forall_forall in Hcp. by destruct (Hcp _ Hin). }
  assert (Store.Cells (Store.GetLines poly)
            ∉ Store.legacy_data (Store.GetLines poly)) as Al.
  { intros Hin. rewrite Forall_forall in Hcl. by destruct (Hcl _ Hin). }
  assert (Store.Cells (Store.GetLines poly)
            ∉ Store.legacy_data (Store.GetPolys poly)) as Alp.
  { intros Hin. rewrite Forall_forall in Hcp. by destruct (Hcp _ Hin). }
  assert (Store.Cells (Store.GetPolys poly)
            ∉ Store.legacy_data (Store.GetLines poly)) as Apl.
  { intros Hin. rewrite Forall_forall in Hcl. by destruct (Hcl _ Hin). }
  assert (Store.data_array (Store.GetPolys poly)
            ∉ Store.legacy_data (Store.GetLines poly)) as Adl.
  { unfold Store.data_array, Store.legacy_data in *.
    destruct (Store.LegacyData (Store.GetPolys poly)) as [d|]; [|done].
    intros Hin. apply NoDup_app in Hnodup as (_ & Hdisj & _).
    apply (Hdisj d); [by left | done]. }
  (* the polygons *)
  destruct (decode_cells_refines _ _ s Hpolys Ap)
    as [(t & vt & s1 & Rt & Vt & Ht & Hst)|(x & s1 & Rt & Vt)];
    cbv zeta in Rt, Vt; rewrite Vt.
  2:{ unfold Store.mbind at 1 in Hrun. rewrite Rt in Hrun. subst run.
      by exists s1. }
  pose proof (decode_cells_effect _ _ _ _ Rt) as (Pt & _ & Hbt).
  unfold Store.mbind at 1 in Hrun. rewrite Rt in Hrun.
  assert (Store.cells_denote (Store.ints s1) (Store.GetLines poly)
            (GetLines vpoly)) as Hlines1.
  { destruct Hlines as [Hn Hd]. split; [done|]. by apply (proj1 Pt). }
  (* the lines *)
  cbn [bind].
  destruct (decode_cells_refines _ _ s1 Hlines1 Al)
    as [(e & ve & s2 & Re & Ve & He & Hse)|(x & s2 & Re & Ve)];
    cbv zeta in Re, Ve; rewrite Ve.
  2:{ unfold Store.mbind at 1 in Hrun. rewrite Re in Hrun. subst run.
      by exists s2. }
  pose proof (decode_cells_effect _ _ _ _ Re) as (Pe & _ & _).
  unfold Store.mbind at 1 in Hrun. rewrite Re in Hrun.
  cbn [bind]. unfold Store.ret in Hrun. subst run.
  exists p, t, e, s2. split; [reflexivity|].
  assert (Store.read_view (Store.coords s2) p = Some vp) as Hp2.
  { eapply read_view_preserved; [exact (proj2 Pe)|].
    eapply read_view_preserved; [exact (proj2 Pt) | exact Hp]. }
  split_and!; try done.
  - destruct t as [tv|]; [|done]. simpl in *.
    destruct vt as [m|]; [|by destruct (proj1 Hst ltac:(eauto))].
    eapply read_view_preserved_but; [exact (proj1 Pe) | | exact Ht].
    by rewrite (Hbt tv eq_refl).
  - unfold Store.mesh_denotes. split_and!.
    + rewrite Hpts, Hvp. simpl. exact Hp2.
    + destruct Hpolys as [Hn Hd]. split; [done|].
      by apply (proj1 Pe), (proj1 Pt).
    + destruct Hlines1 as [Hn Hd]. split; [done|]. by apply (proj1 Pe).
Qed.

End Refinement.

(* ===================================================================== *)
(** * Part III: further properties of the code *)

(** ** Builders and decomposition, end to end *)

(** Below the platform's bound, decoding an encoding with its own row
    count gives the matrix back. *)
Lemma decode_encode `{Platform} (m : ndarray Z) :
  rectangular m ->
  (0 < shape0 m)%nat ->
  Forall (fun x => 0 <= x < exact_index_bound) (ravel m) ->
  vtk_cellarray_to_shape (GetData (numpy_to_vtk_cells m)) (shape0 m) = Ok m.
Proof.
  intros Hrect Hpos Hval.
  rewrite numpy_to_vtk_cells_data. cbv zeta.
  set (dt := if id_type_size =? 4 then int32 else int64).
  set (enc := fun r : list Z =>
    cast_value dt (float64_of_int (Z.of_nat (shape1 m)))
    :: map (fun x => cast_value dt (float64_of_int x)) r).
  replace (shape0 m) with (length (map enc (rows m)))
    by (by rewrite length_map).
  rewrite (vtk_cellarray_to_shape_concat _ (S (shape1 m))).
  - destruct m as [k rs]; simpl in *. f_equal. f_equal; [lia|].
    rewrite map_map. unfold enc; simpl.
    unfold ravel in Hval; simpl in Hval.
    clear -Hval. induction rs as [|r rs IH]; simpl; [done|].
    apply Forall_app in Hval as [Hr Hrs]. rewrite IH by done. f_equal.
    rewrite drop_0.
    clear -Hr. induction Hr as [|x r Hx _ IH]; simpl; [done|].
    rewrite IH. f_equal. by apply encode_value_exact.
  - apply Forall_map. eapply Forall_impl; [exact Hrect|].
    intros r Hr. unfold enc; simpl. by rewrite length_map, Hr.
  - unfold shape0 in Hpos. destruct (rows m); simpl in *; [lia | done].
Qed.

Lemma ravel_nonempty {A} (m : ndarray A) :
  rectangular m -> (0 < shape0 m)%nat -> (0 < shape1 m)%nat -> ravel m <> [].
Proof.
  destruct m as [w rs]. unfold rectangular, shape0, ravel; simpl.
  intros Hrect Hpos Hw. destruct Hrect as [|r rs Hr _]; simpl in *; [lia|].
  destruct r; simpl in *; [lia | done].
Qed.

(** The maximum of a non-empty matrix whose entries are all below [n]. *)
Lemma np_max_below (m : ndarray Z) (n : Z) :
  ravel m <> [] -> Forall (fun x => x < n) (ravel m) ->
  exists mx, np_max m = Ok mx /\ mx < n.
Proof.
  intros Hne Hval. destruct (np_max_nonempty m Hne) as [mx Hmx].
  exists mx. split; [done|].
  apply np_max_spec in Hmx as [Hin _].
  rewrite Forall_forall in Hval. by apply Hval.
Qed.

Lemma Forall_range_weaken (l : list Z) (n b : Z) :
  n <= b -> Forall (fun x => 0 <= x < n) l -> Forall (fun x => 0 <= x < b) l.
Proof.
  intros Hb Hl. eapply Forall_impl; [exact Hl|]. intros x Hx; simpl in *. lia.
Qed.

Lemma Forall_range_upper (l : list Z) (n : Z) :
  Forall (fun x => 0 <= x < n) l -> Forall (fun x => x < n) l.
Proof.
  intros Hl. eapply Forall_impl; [exact Hl|]. intros x Hx; simpl in *. lia.
Qed.

(** What [graph_to_vtk] builds on valid input, and how it decomposes. *)
Lemma graph_to_vtk_decomposes `{Platform} {C} (vertices : ndarray C)
    (edges : ndarray Z) :
  rectangular edges -> shape1 edges = 2%nat -> (0 < shape0 edges)%nat ->
  Forall (fun x => 0 <= x < Z.of_nat (len vertices)) (ravel edges) ->
  Z.of_nat (len vertices) <= exact_index_bound ->
  exists poly, graph_to_vtk vertices edges = Ok poly /\
    poly_to_mesh_components poly = Ok (vertices, None, Some edges).
Proof.
  intros Hrect Hw Hpos Hval Hb.
  destruct (np_max_below edges (Z.of_nat (len vertices))) as (mx & Hmx & Hlt).
  { apply ravel_nonempty; [done | done | lia]. }
  { by apply Forall_range_upper. }
  rewrite (graph_to_vtk_checked vertices edges mx Hw Hmx Hlt).
  eexists; split; [done|].
  unfold poly_to_mesh_components, GetNumberOfPolys, GetNumberOfLines.
  cbn [GetPoints GetPolys GetLines bind].
  rewrite numpy_to_vtk_cells_count.
  change (GetNumberOfCells new_vtkCellArray) with 0%nat.
  assert ((0 <? shape0 edges)%nat = true) as -> by (by apply Nat.ltb_lt).
  change (0 <? 0)%nat with false. cbn [bind].
  rewrite decode_encode; [done | done | done |].
  by eapply Forall_range_weaken.
Qed.

(** X1.  A graph built by [graph_to_vtk] decomposes into what it was
    built from: for a rectangular edge list of width 2 with at least one
    edge, whose entries index the vertices, with no more vertices than
    the platform's ids hold exactly, [poly_to_mesh_components] of the
    mesh returns the vertices, no faces, and the edges. *)
Theorem graph_to_vtk_roundtrip `{Platform} {C} (vertices : ndarray C)
    (edges : ndarray Z) :
  rectangular edges -> shape1 edges = 2%nat -> (0 < shape0 edges)%nat ->
  Forall (fun x => 0 <= x < Z.of_nat (len vertices)) (ravel edges) ->
  Z.of_nat (len vertices) <= exact_index_bound ->
  (poly <- graph_to_vtk vertices edges ;; poly_to_mesh_components poly)
  = Ok (vertices, None, Some edges).
Proof.
  intros Hrect Hw Hpos Hval Hb.
  destruct (graph_to_vtk_decomposes vertices edges Hrect Hw Hpos Hval Hb)
    as (poly & -> & Hdec).
  done.
Qed.

Lemma graph_to_vtk_roundtrip_witness :
  (poly <- graph_to_vtk (H:=vtk64)
             (NDArray 3 [[0; 0; 0]; [1; 0; 0]; [2; 0; 0]])
             (NDArray 2 [[0; 1]; [1; 2]]) ;;
   poly_to_mesh_components poly)
  = Ok (NDArray 3 [[0; 0; 0]; [1; 0; 0]; [2; 0; 0]], None,
        Some (NDArray 2 [[0; 1]; [1; 2]])).
Proof.
  apply (graph_to_vtk_roundtrip (H:=vtk64)).
  - repeat constructor.
  - reflexivity.
  - unfold shape0; simpl; lia.
  - unfold ravel, len, shape0; simpl. repeat constructor; lia.
  - unfold len, shape0, exact_index_bound; simpl. lia.
Defined.

(** What [trimesh_to_vtk] builds on valid input, and how it decomposes. *)
Lemma trimesh_to_vtk_decomposes `{Platform} {C} (vertices : ndarray C)
    (tris : ndarray Z) (graph_edges : option (ndarray Z)) :
  rectangular tris -> shape1 tris = 3%nat -> (0 < shape0 tris)%nat ->
  Forall (fun x => 0 <= x < Z.of_nat (len vertices)) (ravel tris) ->
  Z.of_nat (len vertices) <= exact_index_bound ->
  (forall e, graph_edges = Some e ->
     rectangular e /\
     Forall (fun x => 0 <= x < exact_index_bound) (ravel e)) ->
  exists poly, trimesh_to_vtk vertices tris graph_edges = Ok poly /\
    GetPoints poly = Some vertices /\
    GetPolys poly = numpy_to_vtk_cells tris /\
    poly_to_mesh_components poly
    = Ok (vertices, Some tris, attached_edges graph_edges).
Proof.
  intros Hrect Hw Hpos Hval Hb He.
  destruct (np_max_below tris (Z.of_nat (len vertices))) as (mx & Hmx & Hlt).
  { apply ravel_nonempty; [done | done | lia]. }
  { by apply Forall_range_upper. }
  rewrite (trimesh_to_vtk_checked vertices tris graph_edges mx Hw Hmx Hlt).
  eexists; split; [done|]. split; [done|]. split; [done|].
  unfold poly_to_mesh_components, GetNumberOfPolys, GetNumberOfLines.
  cbn [GetPoints GetPolys GetLines bind].
  rewrite numpy_to_vtk_cells_count.
  assert ((0 <? shape0 tris)%nat = true) as -> by (by apply Nat.ltb_lt).
  rewrite decode_encode; [| done | done | by eapply Forall_range_weaken].
  cbn [bind]. unfold attached_edges.
  destruct graph_edges as [e|]; [|done].
  destruct (He e eq_refl) as [Hre Hve].
  unfold len. destruct (Nat.ltb_spec 0 (shape0 e)) as [Hp|Hz]; [|done].
  rewrite numpy_to_vtk_cells_count.
  assert ((0 <? shape0 e)%nat = true) as -> by (by apply Nat.ltb_lt).
  by rewrite decode_encode.
Qed.

(** X2.  A mesh built by [trimesh_to_vtk] decomposes into what it was
    built from: for rectangular faces of width 3 with at least one face,
    whose entries index the vertices, and rectangular edges (if any)
    whose entries the platform's ids hold exactly,
    [poly_to_mesh_components] returns the vertices, the faces, and the
    edges when there are some. *)
Theorem trimesh_to_vtk_roundtrip `{Platform} {C} (vertices : ndarray C)
    (tris : ndarray Z) (graph_edges : option (ndarray Z)) :
  rectangular tris -> shape1 tris = 3%nat -> (0 < shape0 tris)%nat ->
  Forall (fun x => 0 <= x < Z.of_nat (len vertices)) (ravel tris) ->
  Z.of_nat (len vertices) <= exact_index_bound ->
  (forall e, graph_edges = Some e ->
     rectangular e /\
     Forall (fun x => 0 <= x < exact_index_bound) (ravel e)) ->
  (poly <- trimesh_to_vtk vertices tris graph_edges ;;
   poly_to_mesh_components poly)
  = Ok (vertices, Some tris, attached_edges graph_edges).
Proof.
  intros Hrect Hw Hpos Hval Hb He.
  destruct (trimesh_to_vtk_decomposes vertices tris graph_edges
              Hrect Hw Hpos Hval Hb He) as (poly & -> & _ & _ & Hdec).
  done.
Qed.

Lemma trimesh_to_vtk_roundtrip_witness :
  (poly <- trimesh_to_vtk (H:=vtk64)
             (NDArray 3 [[0; 0; 0]; [1; 0; 0]; [2; 0; 0]; [3; 0; 0]])
             (NDArray 3 [[1; 2; 3]]) (Some (NDArray 2 [[0; 1]])) ;;
   poly_to_mesh_components poly)
  = Ok (NDArray 3 [[0; 0; 0]; [1; 0; 0]; [2; 0; 0]; [3; 0; 0]],
        Some (NDArray 3 [[1; 2; 3]]), Some (NDArray 2 [[0; 1]])).
Proof.
  apply (trimesh_to_vtk_roundtrip (H:=vtk64) _ _ (Some (NDArray 2 [[0; 1]]))).
  - repeat constructor.
  - reflexivity.
  - unfold shape0; simpl; lia.
  - unfold ravel, len, shape0; simpl. repeat constructor; lia.
  - unfold len, shape0, exact_index_bound; simpl. lia.
  - intros e [= <-]. split; [repeat constructor|].
    unfold ravel, exact_index_bound; simpl. repeat constructor; lia.
Defined.

(** ** When the builders succeed *)

(** X3.  [trimesh_to_vtk] returns a mesh exactly when the faces have
    width 3, there is at least one entry, and every entry is below the
    number of vertices.  Nothing else is required: negative entries pass,
    and the edges are not looked at. *)
Theorem trimesh_to_vtk_succeeds_iff `{Platform} {C} (vertices : ndarray C)
    (tris : ndarray Z) (graph_edges : option (ndarray Z)) :
  (exists poly, trimesh_to_vtk vertices tris graph_edges = Ok poly) <->
  shape1 tris = 3%nat /\ ravel tris <> [] /\
  Forall (fun x => x < Z.of_nat (len vertices)) (ravel tris).
Proof.
  split.
  - intros [poly Hp]. unfold trimesh_to_vtk in Hp.
    destruct (Nat.eqb_spec (shape1 tris) 3) as [Hw|Hw]; [|done].
    cbn [negb] in Hp.
    destruct (np_max tris) as [mx|e] eqn:Hmx; [|done]. cbn [bind] in Hp.
    destruct (Z.leb_spec (Z.of_nat (len vertices)) mx) as [Hle|Hlt]; [done|].
    split; [done|]. split.
    + intros Hnil. by rewrite (np_max_empty _ Hnil) in Hmx.
    + apply np_max_spec in Hmx as [_ Hall].
      eapply Forall_impl; [exact Hall|]. intros x Hx; simpl in *. lia.
  - intros (Hw & Hne & Hall).
    destruct (np_max_below tris _ Hne Hall) as (mx & Hmx & Hlt).
    rewrite (trimesh_to_vtk_checked vertices tris graph_edges mx Hw Hmx Hlt).
    eauto.
Qed.

(** X4.  [graph_to_vtk] returns a mesh exactly when the edges have width
    2, there is at least one entry, and every entry is below the number
    of vertices; negative entries pass. *)
Theorem graph_to_vtk_succeeds_iff `{Platform} {C} (vertices : ndarray C)
    (edges : ndarray Z) :
  (exists poly, graph_to_vtk vertices edges = Ok poly) <->
  shape1 edges = 2%nat /\ ravel edges <> [] /\
  Forall (fun x => x < Z.of_nat (len vertices)) (ravel edges).
Proof.
  split.
  - intros [poly Hp]. unfold graph_to_vtk in Hp.
    destruct (Nat.eqb_spec (shape1 edges) 2) as [Hw|Hw]; [|done].
    cbn [negb] in Hp.
    destruct (np_max edges) as [mx|e] eqn:Hmx; [|done]. cbn [bind] in Hp.
    destruct (Z.leb_spec (Z.of_nat (len vertices)) mx) as [Hle|Hlt]; [done|].
    split; [done|]. split.
    + intros Hnil. by rewrite (np_max_empty _ Hnil) in Hmx.
    + apply np_max_spec in Hmx as [_ Hall].
      eapply Forall_impl; [exact Hall|]. intros x Hx; simpl in *. lia.
  - intros (Hw & Hne & Hall).
    destruct (np_max_below edges _ Hne Hall) as (mx & Hmx & Hlt).
    rewrite (graph_to_vtk_checked vertices edges mx Hw Hmx Hlt).
    eauto.
Qed.

(** ** The layout of a cell array *)

(** X5.  The flat array [numpy_to_vtk_cells] hands to VTK lays the cells
    out one after the other, each as its width followed by its indices:
    for an (M,K) matrix it has M * (K + 1) entries, entry i * (K + 1) is
    K, and entry i * (K + 1) + 1 + j is the index at (i, j) of the
    matrix (for K and indices the platform's ids hold exactly). *)
Theorem numpy_to_vtk_cells_layout `{Platform} (m : ndarray Z) (i : nat)
    (r : list Z) :
  rectangular m ->
  Z.of_nat (shape1 m) < exact_index_bound ->
  rows m !! i = Some r ->
  let flat := GetData (numpy_to_vtk_cells m) in
  length flat = (shape0 m * S (shape1 m))%nat /\
  flat !! (i * S (shape1 m))%nat = Some (Z.of_nat (shape1 m)) /\
  forall j x, r !! j = Some x -> 0 <= x < exact_index_bound ->
    flat !! (i * S (shape1 m) + S j)%nat = Some x.
Proof.
  intros Hrect Hk Hi flat.
  split; [by apply numpy_to_vtk_cells_length|].
  subst flat. rewrite numpy_to_vtk_cells_data. cbv zeta.
  set (dt := if id_type_size =? 4 then int32 else int64).
  set (enc := fun r : list Z =>
    cast_value dt (float64_of_int (Z.of_nat (shape1 m)))
    :: map (fun x => cast_value dt (float64_of_int x)) r).
  assert (Forall (fun r => length r = S (shape1 m)) (map enc (rows m))) as Hlen.
  { apply Forall_map. eapply Forall_impl; [exact Hrect|].
    intros r' Hr'. unfold enc; simpl in *. by rewrite length_map, Hr'. }
  assert (length r = shape1 m) as Hr.
  { unfold rectangular in Hrect. rewrite Forall_forall in Hrect.
    apply Hrect. by eapply list_elem_of_lookup_2. }
  assert (i < length (map enc (rows m)))%nat as Hilt.
  { rewrite length_map. by eapply lookup_lt_Some. }
  assert (forall j, (j < S (shape1 m))%nat ->
            concat (map enc (rows m)) !! (i * S (shape1 m) + j)%nat
            = enc r !! j) as Hflat.
  { intros j Hj.
    rewrite <- (chunks_lookup (S (shape1 m)) (length (map enc (rows m))))
      by done.
    rewrite chunks_concat by done.
    by rewrite list_lookup_fmap, Hi. }
  split.
  - rewrite <- (Nat.add_0_r (i * S (shape1 m))), Hflat by lia.
    unfold enc; simpl. f_equal. apply encode_value_exact. lia.
  - intros j x Hj Hx. rewrite Hflat.
    + unfold enc; simpl. rewrite list_lookup_fmap, Hj; simpl.
      f_equal. by apply encode_value_exact.
    + apply lookup_lt_Some in Hj. lia.
Qed.

Lemma numpy_to_vtk_cells_layout_witness :
  let flat := GetData (numpy_to_vtk_cells (H:=vtk64)
                         (NDArray 3 [[0; 1; 2]; [2; 1; 3]])) in
  length flat = 8%nat /\
  flat !! 4%nat = Some 3 /\
  forall j x, [2; 1; 3] !! j = Some x -> 0 <= x < 2 ^ 53 ->
    flat !! (4 + S j)%nat = Some x.
Proof.
  apply (numpy_to_vtk_cells_layout (H:=vtk64)
           (NDArray 3 [[0; 1; 2]; [2; 1; 3]]) 1 [2; 1; 3]).
  - repeat constructor.
  - unfold exact_index_bound; simpl. lia.
  - reflexivity.
Defined.

(** ** When decomposition succeeds *)

Lemma vtk_cellarray_to_shape_Ok_inv (flat : list Z) (ncells : nat)
    (t : ndarray Z) :
  vtk_cellarray_to_shape flat ncells = Ok t ->
  (0 < ncells)%nat /\ Nat.divide ncells (length flat).
Proof.
  unfold vtk_cellarray_to_shape, reshape.
  destruct (Nat.eqb_spec ncells 0) as [|Hn]; [done|].
  destruct (Nat.eqb_spec (ncells * (length flat / ncells)) (length flat))
    as [Hq|]; [|done].
  intros _. split; [lia|].
  exists (length flat / ncells)%nat. rewrite <- Hq at 1. apply Nat.mul_comm.
Qed.

Lemma vtk_cellarray_to_shape_Raise_inv (flat : list Z) (ncells : nat)
    (e : exn) :
  (0 < ncells)%nat ->
  vtk_cellarray_to_shape flat ncells = Raise e -> ShapeError e.
Proof.
  unfold vtk_cellarray_to_shape, reshape. intros Hn.
  destruct (Nat.eqb_spec ncells 0) as [|_]; [lia|].
  destruct (ncells * (length flat / ncells) =? length flat)%nat; [done|].
  intros [= <-]. unfold ShapeError. eauto.
Qed.

(** X6.  [poly_to_mesh_components] returns exactly when the mesh has
    points and each of its two cell arrays, if it has cells, has a length
    its cell count divides; when it fails, it is for the missing points
    ([AttributeError]) or a reshape ([ShapeError]), never for a zero
    count. *)
Theorem poly_to_mesh_components_succeeds_iff {C} (poly : vtkPolyData C) :
  ((exists r, poly_to_mesh_components poly = Ok r) <->
   is_Some (GetPoints poly) /\
   uniform_cells (GetPolys poly) /\ uniform_cells (GetLines poly)) /\
  (forall e, poly_to_mesh_components poly = Raise e ->
     e = AttributeError \/ ShapeError e).
Proof.
  unfold poly_to_mesh_components, GetNumberOfPolys, GetNumberOfLines,
    uniform_cells.
  destruct (GetPoints poly) as [p|]; cbn [bind].
  2:{ split; [|intros e [= <-]; by left].
      split; [by intros [r Hr] | by intros [[? ?] _]]. }
  destruct (Nat.ltb_spec 0 (GetNumberOfCells (GetPolys poly))) as [Hp|Hp].
  - destruct (vtk_cellarray_to_shape (GetData (GetPolys poly)) _)
      as [t|e1] eqn:Ht; cbn [bind].
    + apply vtk_cellarray_to_shape_Ok_inv in Ht as [_ Hdt].
      destruct (Nat.ltb_spec 0 (GetNumberOfCells (GetLines poly))) as [Hl|Hl].
      * destruct (vtk_cellarray_to_shape (GetData (GetLines poly)) _)
          as [u|e2] eqn:Hu; cbn [bind].
        -- apply vtk_cellarray_to_shape_Ok_inv in Hu as [_ Hdu].
           split; [|done]. split; [by eauto | by eauto].
        -- split.
           ++ split; [by intros [r Hr]|]. intros (_ & _ & Hdu).
              destruct (vtk_cellarray_to_shape_uniform _ _ Hl (Hdu Hl))
                as (u & Hu' & _). congruence.
           ++ intros e [= <-]. right.
              by eapply vtk_cellarray_to_shape_Raise_inv.
      * cbn [bind]. split; [|done].
        split; [|by eauto]. intros _. split; [by eauto|].
        split; [done | intros; lia].
    + split.
      * split; [by intros [r Hr]|]. intros (_ & Hdt & _).
        destruct (vtk_cellarray_to_shape_uniform _ _ Hp (Hdt Hp))
          as (t & Ht' & _). congruence.
      * intros e [= <-]. right. by eapply vtk_cellarray_to_shape_Raise_inv.
  - cbn [bind].
    destruct (Nat.ltb_spec 0 (GetNumberOfCells (GetLines poly))) as [Hl|Hl].
    + destruct (vtk_cellarray_to_shape (GetData (GetLines poly)) _)
        as [u|e2] eqn:Hu; cbn [bind].
      * apply vtk_cellarray_to_shape_Ok_inv in Hu as [_ Hdu].
        split; [|done]. split; [|by eauto]. intros _.
        split; [by eauto|]. split; [intros; lia | done].
      * split.
        -- split; [by intros [r Hr]|]. intros (_ & _ & Hdu).
           destruct (vtk_cellarray_to_shape_uniform _ _ Hl (Hdu Hl))
             as (u & Hu' & _). congruence.
        -- intros e [= <-]. right.
           by eapply vtk_cellarray_to_shape_Raise_inv.
    + cbn [bind]. split; [|done]. split; [|by eauto]. intros _.
      split; [by eauto|]. split; intros; lia.
Qed.

(** ** Compaction: failures, negative indices, order *)

Lemma mapR_Ok_inv {A B} (f : A -> result B) (l : list A) (ys : list B) :
  mapR f l = Ok ys -> Forall2 (fun x y => f x = Ok y) l ys.
Proof.
  revert ys; induction l as [|x l IH]; intros ys; simpl.
  - intros [= <-]. constructor.
  - destruct (f x) as [y|e] eqn:Hx; [|done]. cbn [bind].
    destruct (mapR f l) as [ys'|e]; [|done]. cbn [bind].
    intros [= <-]. constructor; [done | by apply IH].
Qed.

Lemma mapR_Raise_inv {A B} (f : A -> result B) (l : list A) (e : exn) :
  mapR f l = Raise e -> exists x, x ∈ l /\ f x = Raise e.
Proof.
  induction l as [|x l IH]; simpl; [done|].
  destruct (f x) as [y|e'] eqn:Hx; cbn [bind].
  - destruct (mapR f l) as [ys'|e']; [done|]. cbn [bind].
    intros [= <-]. destruct IH as (x' & Hin & Hx'); [done|].
    exists x'. split; [by right | done].
  - intros [= <-]. exists x. split; [by left | done].
Qed.

(** [row_at] returns a row exactly for the indices [-n .. n-1], and
    raises nothing but [IndexError]. *)
Lemma row_at_Ok_iff {A} (m : ndarray A) (k : Z) :
  (exists r, row_at m k = Ok r) <->
  - Z.of_nat (shape0 m) <= k < Z.of_nat (shape0 m).
Proof.
  unfold row_at. set (n := Z.of_nat (shape0 m)).
  set (k' := if k <? 0 then k + n else k).
  assert (k' = if k <? 0 then k + n else k) as Hk' by done. clearbody k'.
  destruct (Z.leb_spec 0 k') as [H0|H0];
    destruct (Z.ltb_spec k' n) as [H1|H1]; cbn [andb].
  - destruct (lookup_lt_is_Some_2 (rows m) (Z.to_nat k')) as [r Hr].
    { unfold n, shape0 in H1. lia. }
    rewrite Hr. split; [|by eauto].
    intros _. destruct (Z.ltb_spec k 0); lia.
  - split; [by intros [r Hr]|]. intros. destruct (Z.ltb_spec k 0); lia.
  - split; [by intros [r Hr]|]. intros. destruct (Z.ltb_spec k 0); lia.
  - split; [by intros [r Hr]|]. intros. destruct (Z.ltb_spec k 0); lia.
Qed.

Lemma row_at_Raise_inv {A} (m : ndarray A) (k : Z) (e : exn) :
  row_at m k = Raise e -> e = IndexError.
Proof.
  unfold row_at.
  destruct (_ && _); [|by intros [= <-]].
  destruct (rows m !! _); [done | by intros [= <-]].
Qed.

(** X7.  [remove_unused_verts] returns exactly when every entry of the
    faces lies in [-N .. N-1], N the number of vertices: a negative entry
    counts from the end, as numpy's indexing has it.  When it fails, it
    is with [IndexError]. *)
Theorem remove_unused_verts_succeeds_iff {C} (verts : ndarray C)
    (faces : ndarray Z) :
  ((exists r, remove_unused_verts verts faces = Ok r) <->
   Forall (fun x => - Z.of_nat (len verts) <= x < Z.of_nat (len verts))
          (ravel faces)) /\
  (forall e, remove_unused_verts verts faces = Raise e -> e = IndexError).
Proof.
  unfold remove_unused_verts, take_rows, len.
  destruct (mapR (row_at verts) (unique (ravel faces))) as [ys|e0] eqn:Hrun;
    cbn [bind].
  - split; [|done]. split; [|by eauto]. intros _.
    apply mapR_Ok_inv in Hrun.
    apply Forall_forall. intros x Hx.
    apply elem_of_unique in Hx.
    apply list_elem_of_lookup_1 in Hx as [p Hp].
    destruct (Forall2_lookup_l _ _ _ _ _ Hrun Hp) as (y & _ & Hy).
    apply row_at_Ok_iff. eauto.
  - apply mapR_Raise_inv in Hrun as (x & Hx & Hrow).
    split.
    + split; [by intros [r Hr]|]. intros Hall. exfalso.
      apply (proj1 (elem_of_unique _ _)) in Hx.
      rewrite Forall_forall in Hall. specialize (Hall _ Hx).
      apply row_at_Ok_iff in Hall as [r Hr]. congruence.
    + intros e [= <-]. by eapply row_at_Raise_inv.
Qed.

(** X8.  Compaction keeps the geometry: whenever [remove_unused_verts]
    returns for rectangular faces with no negative entry (so that every
    position fits the dtype of the faces, which the new faces take), the
    entry at (i, j) of the new faces is a position in the new vertices,
    and the row there is the row of the old vertices that entry (i, j)
    of the old faces selects. *)
Theorem remove_unused_verts_same_rows {C} (verts : ndarray C)
    (faces : ndarray Z) (new_verts : ndarray C) (new_face : ndarray Z) :
  rectangular faces ->
  Forall (fun x => 0 <= x) (ravel faces) ->
  remove_unused_verts verts faces = Ok (new_verts, new_face) ->
  forall i j x, rows faces !! i ≫= (fun r => r !! j) = Some x ->
    exists p row,
      rows new_face !! i ≫= (fun r => r !! j) = Some (Z.of_nat p) /\
      rows new_verts !! p = Some row /\
      rows verts !! Z.to_nat x = Some row.
Proof.
  intros Hrect Hpos Hrun i j x Hx.
  unfold remove_unused_verts, take_rows in Hrun.
  destruct (mapR (row_at verts) (unique (ravel faces))) as [ys|e0] eqn:Hsel;
    [|done].
  cbn [bind] in Hrun. injection Hrun as <- <-.
  apply mapR_Ok_inv in Hsel.
  assert (x ∈ ravel faces) as Hin by (apply elem_of_ravel_lookup; eauto).
  destruct (rank_of_unique _ _ Hin) as (p & Hp & Hrank).
  destruct (Forall2_lookup_l _ _ _ _ _ Hsel Hp) as (row & Hrow & Hat).
  exists p, row. split; [|split; [done|]].
  - unfold searchsorted.
    rewrite (fill_columns _ faces (shape1 faces)) by done.
    cbn [rows]. rewrite list_lookup_fmap.
    destruct (rows faces !! i) as [r|] eqn:Hr; [|done]. simpl in *.
    assert (length r = shape1 faces) as Hlen.
    { unfold rectangular in Hrect. rewrite Forall_forall in Hrect.
      apply Hrect. by eapply list_elem_of_lookup_2. }
    rewrite Nat.sub_diag, app_nil_r, take_ge by lia.
    rewrite list_lookup_fmap, Hx; simpl. by rewrite Hrank.
  - rewrite Forall_forall in Hpos. specialize (Hpos x Hin).
    assert (- Z.of_nat (shape0 verts) <= x < Z.of_nat (shape0 verts)) as Hr
      by (apply row_at_Ok_iff; eauto).
    rewrite row_at_in_range in Hat by lia. injection Hat as <-.
    apply list_lookup_lookup_total_lt. unfold shape0 in Hr. lia.
Qed.

Lemma remove_unused_verts_same_rows_witness :
  exists p row,
    rows (NDArray 3 [[1; 0; 1]]) !! 0%nat ≫= (fun r => r !! 0%nat)
      = Some (Z.of_nat p) /\
    rows (NDArray 1 [[10]; [30]]) !! p = Some row /\
    rows (NDArray 1 [[10]; [20]; [30]]) !! Z.to_nat 2 = Some row.
Proof.
  apply (remove_unused_verts_same_rows
           (NDArray 1 [[10]; [20]; [30]]) (NDArray 3 [[2; 0; 2]])
           (NDArray 1 [[10]; [30]]) (NDArray 3 [[1; 0; 1]])
           ltac:(repeat constructor)
           ltac:(unfold ravel; simpl; repeat constructor; lia)
           eq_refl 0%nat 0%nat 2).
  reflexivity.
Defined.

Lemma sorted_rows_sublist {A} (l : list (list A)) (s : Z) (idx : list Z) :
  StronglySorted Z.lt idx ->
  Forall (fun k => s <= k < s + Z.of_nat (length l)) idx ->
  sublist (map (fun k => l !!! Z.to_nat (k - s)) idx) l.
Proof.
  revert s idx; induction l as [|a l IH]; intros s idx Hsort Hrange.
  - destruct Hrange as [|k idx Hk _]; [constructor | simpl in Hk; lia].
  - destruct Hsort as [|k idx Hsort Hgt]; [apply sublist_nil_l|].
    apply Forall_cons in Hrange as [Hk Hrange]. simpl length in *.
    assert (forall idx',
              Forall (fun k' => s < k') idx' ->
              map (fun k' => (a :: l) !!! Z.to_nat (k' - s)) idx'
              = map (fun k' => l !!! Z.to_nat (k' - (s + 1))) idx') as Hshift.
    { intros idx' Hall. apply map_ext_Forall.
      eapply Forall_impl; [exact Hall|]. intros k' Hk'; simpl in Hk'.
      replace (Z.to_nat (k' - s)) with (S (Z.to_nat (k' - (s + 1)))) by lia.
      done. }
    destruct (Z.eq_dec k s) as [->|Hne].
    + cbn [map]. rewrite Z.sub_diag. cbn [Z.to_nat].
      change ((a :: l) !!! 0%nat) with a.
      apply sublist_skip. rewrite Hshift by done.
      apply IH; [done|].
      rewrite Forall_forall in Hrange, Hgt. apply Forall_forall.
      intros k' Hk'. specialize (Hrange _ Hk'). specialize (Hgt _ Hk').
      simpl in *. lia.
    + apply sublist_cons.
      rewrite (Hshift (k :: idx)).
      * apply IH; [by constructor|].
        constructor; [lia|].
        rewrite Forall_forall in Hrange, Hgt. apply Forall_forall.
        intros k' Hk'. specialize (Hrange _ Hk'). specialize (Hgt _ Hk').
        simpl in *. lia.
      * constructor; [lia|].
        eapply Forall_impl; [exact Hgt|]. intros k' Hk'; simpl in *. lia.
Qed.

Lemma filter_iff_Forall {A} (P Q : A -> Prop)
    `{!forall x, Decision (P x)} `{!forall x, Decision (Q x)} (l : list A) :
  Forall (fun x => P x <-> Q x) l -> filter P l = filter Q l.
Proof.
  induction 1 as [|x l Hx _ IH]; [done|].
  rewrite !filter_cons, IH.
  destruct (decide (P x)), (decide (Q x)); tauto.
Qed.

(** The rows at strictly increasing positions are the rows whose
    position is among them, in the order of the list. *)
Lemma rows_at_sorted_filter {A} `{Inhabited A} (l : list A) (s : nat)
    (idx : list Z) :
  StronglySorted Z.lt idx ->
  Forall (fun k => Z.of_nat s <= k < Z.of_nat (s + length l)) idx ->
  map (fun k => l !!! Z.to_nat (k - Z.of_nat s)) idx
  = (filter (fun p => Z.of_nat p.1 ∈ idx)
            (imap (fun i r => ((s + i)%nat, r)) l)).*2.
Proof.
  revert s idx; induction l as [|a l IH]; intros s idx Hsort Hrange.
  - destruct Hrange as [|k idx Hk _]; [done | simpl in Hk; lia].
  - rewrite imap_cons, filter_cons. simpl length in Hrange.
    assert (forall idx',
              Forall (fun k' => Z.of_nat s < k') idx' ->
              map (fun k' => (a :: l) !!! Z.to_nat (k' - Z.of_nat s)) idx'
              = map (fun k' => l !!! Z.to_nat (k' - Z.of_nat (S s))) idx')
      as Hshift.
    { intros idx' Hall. apply map_ext_Forall.
      eapply Forall_impl; [exact Hall|]. intros k' Hk'; simpl in Hk'.
      replace (Z.to_nat (k' - Z.of_nat s))
        with (S (Z.to_nat (k' - Z.of_nat (S s)))) by lia.
      done. }
    assert (imap ((fun i r => ((s + i)%nat, r)) ∘ S) l
            = imap (fun i r => ((S s + i)%nat, r)) l) as Himap.
    { apply imap_ext. intros i r _. simpl. f_equal. lia. }
    rewrite Himap.
    destruct (decide (Z.of_nat ((s + 0)%nat, a).1 ∈ idx)) as [Hin|Hin];
      simpl in Hin; rewrite Nat.add_0_r in Hin.
    + destruct Hsort as [|k idx' Hsort Hgt];
        [by apply elem_of_nil in Hin|].
      apply Forall_cons in Hrange as [Hk Hrange].
      assert (k = Z.of_nat s) as ->.
      { apply elem_of_cons in Hin as [->|Hin]; [done|].
        rewrite Forall_forall in Hgt. specialize (Hgt _ Hin). lia. }
      cbn [map fmap list_fmap]. rewrite Z.sub_diag. cbn [Z.to_nat].
      change ((a :: l) !!! 0%nat) with a. simpl. f_equal.
      rewrite Hshift by done.
      rewrite (IH (S s) idx' Hsort).
      * f_equal. apply filter_iff_Forall, Forall_forall.
        intros [i r] Hir. apply elem_of_lookup_imap in Hir as (j & y & [= -> ->] & _).
        simpl. rewrite elem_of_cons. split; [by right|].
        intros [Heq|?]; [lia | done].
      * rewrite Forall_forall in Hrange, Hgt. apply Forall_forall.
        intros k' Hk'. specialize (Hrange _ Hk'). specialize (Hgt _ Hk').
        simpl in *. lia.
    + assert (Forall (fun k' => Z.of_nat s < k') idx) as Hgt.
      { pose proof Hrange as Hr. rewrite Forall_forall in Hr.
        apply Forall_forall.
        intros k' Hk'. specialize (Hr _ Hk'). simpl in Hr.
        assert (k' <> Z.of_nat s) by (by intros ->). lia. }
      rewrite Hshift by done.
      apply IH; [done|].
      rewrite Forall_forall in Hrange, Hgt. apply Forall_forall.
      intros k' Hk'. specialize (Hrange _ Hk'). specialize (Hgt _ Hk').
      simpl in *. lia.
Qed.

(** X9.  Compaction keeps exactly the used rows, in their order: for
    faces whose entries index the vertices from the front, the vertices
    [remove_unused_verts] returns are the rows of the old vertices whose
    position occurs in the faces, in their old order; the unused rows,
    and only they, are left out. *)
Theorem remove_unused_verts_keeps_order {C} (verts : ndarray C)
    (faces : ndarray Z) (new_verts : ndarray C) (new_face : ndarray Z) :
  Forall (fun x => 0 <= x < Z.of_nat (shape0 verts)) (ravel faces) ->
  remove_unused_verts verts faces = Ok (new_verts, new_face) ->
  rows new_verts
  = (filter (fun p => Z.of_nat p.1 ∈ ravel faces)
            (imap (fun i r => (i, r)) (rows verts))).*2 /\
  sublist (rows new_verts) (rows verts).
Proof.
  intros Hval Hrun. unfold remove_unused_verts in Hrun.
  assert (Forall (fun x => 0 <= x < Z.of_nat (shape0 verts))
            (unique (ravel faces))) as Hused.
  { apply Forall_forall. intros k Hk.
    apply (proj1 (elem_of_unique _ _)) in Hk.
    rewrite Forall_forall in Hval. by apply Hval. }
  rewrite (take_rows_in_range _ _ Hused) in Hrun. cbn [bind] in Hrun.
  injection Hrun as <- _. cbn [rows].
  rewrite (map_ext_Forall _ (fun k => rows verts !!! Z.to_nat (k - 0))).
  2:{ apply Forall_forall. intros k _. by rewrite Z.sub_0_r. }
  split.
  - rewrite (rows_at_sorted_filter (rows verts) 0 (unique (ravel faces))).
    + f_equal. apply filter_iff_Forall, Forall_forall.
      intros [i r] _. simpl. apply elem_of_unique.
    + apply unique_sorted.
    + eapply Forall_impl; [exact Hused|]. unfold shape0.
      intros k Hk; simpl in *. lia.
  - apply sorted_rows_sublist; [apply unique_sorted|].
    eapply Forall_impl; [exact Hused|]. unfold shape0.
    intros k Hk; simpl in *. lia.
Qed.

Lemma remove_unused_verts_keeps_order_witness :
  rows (NDArray 1 [[20]; [40]])
  = (filter (fun p => Z.of_nat p.1 ∈ ravel (NDArray 3 [[3; 1; 3]]))
            (imap (fun i r => (i, r))
                  (rows (NDArray 1 [[10]; [20]; [30]; [40]])))).*2 /\
  sublist (rows (NDArray 1 [[20]; [40]]))
          (rows (NDArray 1 [[10]; [20]; [30]; [40]])).
Proof.
  apply (remove_unused_verts_keeps_order
           (NDArray 1 [[10]; [20]; [30]; [40]]) (NDArray 3 [[3; 1; 3]])
           (NDArray 1 [[20]; [40]]) (NDArray 3 [[1; 0; 1]])).
  - unfold ravel, shape0; simpl. repeat constructor; lia.
  - reflexivity.
Defined.

(** ** [linked_point_actor] *)

Lemma length_arange (n : nat) : length (arange n) = n.
Proof. unfold arange. by rewrite length_map, length_seq. Qed.

(** [take_rows] raises nothing but [IndexError], and raises it as soon
    as one index is out of [-n .. n-1]. *)
Lemma take_rows_Raise_inv {A} (m : ndarray A) (idx : list Z) (e : exn) :
  take_rows m idx = Raise e -> e = IndexError.
Proof.
  unfold take_rows.
  destruct (mapR (row_at m) idx) as [rs|e'] eqn:Hrun; [done|].
  cbn [bind]. intros [= <-].
  apply mapR_Raise_inv in Hrun as (x & _ & Hx). by eapply row_at_Raise_inv.
Qed.

Lemma take_rows_Ok_inv {A} (m sel : ndarray A) (idx : list Z) :
  take_rows m idx = Ok sel ->
  Forall (fun k => - Z.of_nat (shape0 m) <= k < Z.of_nat (shape0 m)) idx.
Proof.
  unfold take_rows.
  destruct (mapR (row_at m) idx) as [rs|e'] eqn:Hrun; [|done].
  intros _. apply mapR_Ok_inv in Hrun.
  apply Forall_forall. intros k Hk.
  apply list_elem_of_lookup_1 in Hk as [p Hp].
  destruct (Forall2_lookup_l _ _ _ _ _ Hrun Hp) as (y & _ & Hy).
  apply row_at_Ok_iff. eauto.
Qed.

(** The transposed stack of [arange(n)] on [n + arange(n)]: row [i] is
    [(i, n + i)]. *)
Lemma transpose_link_edges (n : nat) :
  transpose (NDArray n [arange n; map (Z.add (Z.of_nat n)) (arange n)])
  = NDArray 2 (map (fun i => [Z.of_nat i; Z.of_nat (n + i)]) (seq 0 n)).
Proof.
  unfold transpose, shape0, column. cbn [rows shape1 length].
  f_equal. apply map_ext_Forall, Forall_forall. intros i Hi.
  apply elem_of_seq in Hi.
  change (map ?f [?a; ?b]) with [f a; f b]. cbv beta.
  unfold arange.
  rewrite (list_lookup_fmap (Z.add (Z.of_nat n))).
  rewrite !lookup_iota by lia. simpl. do 2 f_equal. lia.
Qed.

Lemma ravel_link_edges_range (n : nat) :
  Forall (fun x => 0 <= x < Z.of_nat (n + n))
    (ravel (NDArray 2 (map (fun i => [Z.of_nat i; Z.of_nat (n + i)]) (seq 0 n)))).
Proof.
  unfold ravel; cbn [rows]. apply Forall_concat, Forall_map, Forall_forall.
  intros i Hi. apply elem_of_seq in Hi. repeat constructor; lia.
Qed.

(** X10.  [linked_point_actor] raises the error of its length check
    exactly when the two index lists (by default, the two vertex arrays)
    differ in length; it does so before it looks at any index. *)
Theorem linked_point_actor_length_check `{Platform} {C}
    (vertices_a vertices_b : ndarray C) (inds_a inds_b : option (list Z))
    (line_width : Z) (color : Qc * Qc * Qc) (opacity : Qc) :
  linked_point_actor vertices_a vertices_b inds_a inds_b line_width color
    opacity = Raise (ValueError linked_msg)
  <-> length (default (arange (len vertices_a)) inds_a)
      <> length (default (arange (len vertices_b)) inds_b).
Proof.
  unfold linked_point_actor.
  set (ia := match inds_a with None => _ | Some i => i end).
  set (ib := match inds_b with None => _ | Some i => i end).
  replace (default (arange (len vertices_a)) inds_a) with ia
    by (by destruct inds_a).
  replace (default (arange (len vertices_b)) inds_b) with ib
    by (by destruct inds_b).
  destruct (Nat.eqb_spec (length ia) (length ib)) as [Heq|Hne];
    cbn [negb]; [|done].
  split; [|done]. intros Hrun. exfalso.
  destruct (take_rows vertices_a ia) as [ra|e] eqn:Ha; cbn [bind] in Hrun.
  2:{ apply take_rows_Raise_inv in Ha. congruence. }
  destruct (take_rows vertices_b ib) as [rb|e] eqn:Hb; cbn [bind] in Hrun.
  2:{ apply take_rows_Raise_inv in Hb. congruence. }
  unfold vstack in Hrun.
  destruct (shape1 ra =? shape1 rb)%nat; cbn [bind] in Hrun.
  2:{ unfold vstack_msg, linked_msg in Hrun. simpl in Hrun. discriminate. }
  unfold vstack_1d in Hrun. rewrite !length_map, !length_arange in Hrun.
  rewrite <- Heq, Nat.eqb_refl in Hrun. cbn [bind] in Hrun.
  unfold graph_to_vtk in Hrun.
  rewrite transpose_link_edges in Hrun. cbn [shape1 negb Nat.eqb] in Hrun.
  destruct (np_max _) as [mx|e] eqn:Hmx; cbn [bind] in Hrun.
  - destruct (_ <=? mx); [|done].
    unfold non_existent_msg, linked_msg in Hrun. simpl in Hrun. discriminate.
  - unfold np_max in Hmx. destruct (ravel _); [|done].
    injection Hmx as <-. unfold max_msg, linked_msg in Hrun. discriminate.
Qed.

(** X11.  What [linked_point_actor] draws: for two index lists of the
    same length n >= 1 into vertex arrays of one width, with at most as
    many points as the platform's ids hold exactly, the actor carries
    the line width, colour and opacity it is given, and its mesh
    decomposes into the selected rows of [vertices_a] followed by those
    of [vertices_b], no faces, and the n edges (i, n + i). *)
Theorem linked_point_actor_links `{Platform} {C}
    (vertices_a vertices_b : ndarray C) (inds_a inds_b : list Z)
    (line_width : Z) (color : Qc * Qc * Qc) (opacity : Qc) :
  let n := length inds_a in
  length inds_b = n -> (0 < n)%nat ->
  shape1 vertices_a = shape1 vertices_b ->
  Forall (fun k => 0 <= k < Z.of_nat (len vertices_a)) inds_a ->
  Forall (fun k => 0 <= k < Z.of_nat (len vertices_b)) inds_b ->
  Z.of_nat (n + n) <= exact_index_bound ->
  exists actor,
    linked_point_actor vertices_a vertices_b (Some inds_a) (Some inds_b)
      line_width color opacity = Ok actor /\
    GetLineWidth actor = line_width /\ GetColor actor = color /\
    GetOpacity actor = opacity /\
    poly_to_mesh_components (GetInput actor)
    = Ok (NDArray (shape1 vertices_a)
            (map (fun k => rows vertices_a !!! Z.to_nat k) inds_a ++
             map (fun k => rows vertices_b !!! Z.to_nat k) inds_b),
          None,
          Some (NDArray 2
                  (map (fun i => [Z.of_nat i; Z.of_nat (n + i)]) (seq 0 n)))).
Proof.
  intros n Hlen Hpos Hw Ha Hb Hbound. unfold linked_point_actor.
  rewrite Hlen. fold n. rewrite Nat.eqb_refl. cbn [negb].
  rewrite (take_rows_in_range _ _ Ha), (take_rows_in_range _ _ Hb).
  cbn [bind]. unfold vstack. cbn [shape1 rows].
  rewrite Hw, Nat.eqb_refl. cbn [bind].
  unfold vstack_1d. rewrite !length_map, !length_arange, Nat.eqb_refl.
  cbn [bind]. rewrite transpose_link_edges.
  set (verts := NDArray _ _). set (edges := NDArray 2 _).
  assert (len verts = (n + n)%nat) as Hnv.
  { unfold len, shape0, verts. cbn [rows].
    rewrite length_app, !length_map. fold n. lia. }
  destruct (graph_to_vtk_decomposes verts edges) as (poly & Hpoly & Hdec).
  - unfold rectangular, edges. cbn [rows shape1].
    apply Forall_map, Forall_forall. by intros i _.
  - done.
  - unfold shape0, edges. cbn [rows]. by rewrite length_map, length_seq.
  - rewrite Hnv. apply ravel_link_edges_range.
  - by rewrite Hnv.
  - rewrite Hpoly. cbn [bind]. eexists. split; [done|].
    cbn [GetLineWidth GetColor GetOpacity GetInput]. by rewrite Hdec.
Qed.

Lemma linked_point_actor_links_witness :
  exists actor,
    linked_point_actor (H:=vtk64)
      (NDArray 3 [[0; 0; 0]; [1; 1; 1]]) (NDArray 3 [[5; 5; 5]; [6; 6; 6]])
      (Some [1; 0]) (Some [0; 0]) 1 (0%Qc, 0%Qc, 0%Qc) (Q2Qc (2 # 10))
    = Ok actor /\
    GetLineWidth actor = 1 /\ GetColor actor = (0%Qc, 0%Qc, 0%Qc) /\
    GetOpacity actor = Q2Qc (2 # 10) /\
    poly_to_mesh_components (GetInput actor)
    = Ok (NDArray 3
            (map (fun k => [[0; 0; 0]; [1; 1; 1]] !!! Z.to_nat k) [1; 0] ++
             map (fun k => [[5; 5; 5]; [6; 6; 6]] !!! Z.to_nat k) [0; 0]),
          None,
          Some (NDArray 2
                  (map (fun i => [Z.of_nat i; Z.of_nat (2 + i)]) (seq 0 2)))).
Proof.
  apply (linked_point_actor_links (H:=vtk64)
           (NDArray 3 [[0; 0; 0]; [1; 1; 1]])
           (NDArray 3 [[5; 5; 5]; [6; 6; 6]]) [1; 0] [0; 0]).
  - reflexivity.
  - simpl; lia.
  - reflexivity.
  - unfold len, shape0; simpl. repeat constructor; lia.
  - unfold len, shape0; simpl. repeat constructor; lia.
  - unfold exact_index_bound; simpl. lia.
Defined.

(** X12.  With no point to link (two empty index lists, or two empty
    vertex arrays and no index lists) [linked_point_actor] does not
    return an empty actor: it fails in [graph_to_vtk], on the maximum of
    an empty edge list. *)
Theorem linked_point_actor_no_links `{Platform} {C}
    (vertices_a vertices_b : ndarray C) (inds_a inds_b : option (list Z))
    (line_width : Z) (color : Qc * Qc * Qc) (opacity : Qc) :
  default (arange (len vertices_a)) inds_a = [] ->
  default (arange (len vertices_b)) inds_b = [] ->
  shape1 vertices_a = shape1 vertices_b ->
  linked_point_actor vertices_a vertices_b inds_a inds_b line_width color
    opacity = Raise (ValueError max_msg).
Proof.
  intros Ha Hb Hw. unfold linked_point_actor.
  set (ia := match inds_a with None => _ | Some i => i end).
  set (ib := match inds_b with None => _ | Some i => i end).
  assert (ia = []) as -> by (by destruct inds_a).
  assert (ib = []) as -> by (by destruct inds_b).
  cbn. unfold vstack. cbn. by rewrite Hw, Nat.eqb_refl.
Qed.

Lemma linked_point_actor_no_links_witness :
  linked_point_actor (H:=vtk64) (NDArray 3 ([] : list (list Z)))
    (NDArray 3 []) None None 1 (0%Qc, 0%Qc, 0%Qc) (Q2Qc (2 # 10))
  = Raise (ValueError max_msg).
Proof.
  apply (linked_point_actor_no_links (H:=vtk64)); reflexivity.
Defined.

(** X13.  An index out of the range [-N .. N-1] of its vertex array, in
    either of two index lists of the same length, makes
    [linked_point_actor] raise [IndexError]. *)
Theorem linked_point_actor_index_error `{Platform} {C}
    (vertices_a vertices_b : ndarray C) (inds_a inds_b : list Z)
    (line_width : Z) (color : Qc * Qc * Qc) (opacity : Qc) :
  length inds_a = length inds_b ->
  Exists (fun k => ~ (- Z.of_nat (len vertices_a) <= k
                      < Z.of_nat (len vertices_a))) inds_a \/
  Exists (fun k => ~ (- Z.of_nat (len vertices_b) <= k
                      < Z.of_nat (len vertices_b))) inds_b ->
  linked_point_actor vertices_a vertices_b (Some inds_a) (Some inds_b)
    line_width color opacity = Raise IndexError.
Proof.
  intros Hlen Hout. unfold linked_point_actor.
  rewrite Hlen, Nat.eqb_refl. cbn [negb].
  destruct (take_rows vertices_a inds_a) as [ra|e] eqn:Ha; cbn [bind].
  2:{ apply take_rows_Raise_inv in Ha. by subst. }
  destruct (take_rows vertices_b inds_b) as [rb|e] eqn:Hb; cbn [bind].
  2:{ apply take_rows_Raise_inv in Hb. by subst. }
  exfalso. apply take_rows_Ok_inv in Ha, Hb.
  destruct Hout as [Hout|Hout]; apply Exists_exists in Hout as (k & Hk & Hbad);
    apply Hbad.
  - rewrite Forall_forall in Ha. by apply Ha.
  - rewrite Forall_forall in Hb. by apply Hb.
Qed.

Lemma linked_point_actor_index_error_witness :
  linked_point_actor (H:=vtk64)
    (NDArray 3 [[0; 0; 0]; [1; 1; 1]]) (NDArray 3 [[5; 5; 5]; [6; 6; 6]])
    (Some [0; 2]) (Some [0; 1]) 1 (0%Qc, 0%Qc, 0%Qc) (Q2Qc (2 # 10))
  = Raise IndexError.
Proof.
  apply (linked_point_actor_index_error (H:=vtk64)).
  - reflexivity.
  - left. apply Exists_cons_tl, Exists_cons_hd.
    unfold len, shape0; simpl. lia.
Defined.

(** ** [decimate_trimesh] *)

(** X14.  When the decimator leaves no polygon in a mesh that still has
    points, [decimate_trimesh] does not return an empty list of faces:
    the decoder is called with a count of zero and raises
    [ZeroDivisionError]. *)
Theorem decimate_trimesh_no_polys `{Platform} {C}
    (dec : Qc -> vtkPolyData C -> vtkPolyData C) (trimesh : Mesh C)
    (reduction : Qc) (poly : vtkPolyData C) :
  trimesh_to_vtk (mesh_vertices trimesh) (mesh_faces trimesh) None = Ok poly ->
  is_Some (GetPoints (dec reduction poly)) ->
  GetNumberOfPolys (dec reduction poly) = 0%nat ->
  decimate_trimesh dec trimesh reduction = Raise ZeroDivisionError.
Proof.
  intros Hpoly [p Hp] Hn. unfold decimate_trimesh.
  rewrite Hpoly. cbn [bind]. rewrite Hp. cbn [bind]. by rewrite Hn.
Qed.

Lemma decimate_trimesh_no_polys_witness :
  decimate_trimesh (H:=vtk64)
    (fun _ poly => SetPolys poly new_vtkCellArray)
    (MkMesh (NDArray 3 [[0; 0; 0]; [1; 0; 0]; [0; 1; 0]])
            (NDArray 3 [[0; 1; 2]]) None)
    (Q2Qc (9 # 10))
  = Raise ZeroDivisionError.
Proof.
  eapply (decimate_trimesh_no_polys (H:=vtk64)).
  - reflexivity.
  - by eexists.
  - reflexivity.
Defined.

(** X15.  When the decimator leaves the mesh as it is,
    [decimate_trimesh] returns the vertices and the faces it was given:
    for a mesh with at least one face, faces of width 3 that index the
    vertices, and no more vertices than the platform's ids hold exactly. *)
Theorem decimate_trimesh_unchanged `{Platform} {C}
    (dec : Qc -> vtkPolyData C -> vtkPolyData C) (trimesh : Mesh C)
    (reduction : Qc) :
  rectangular (mesh_faces trimesh) ->
  shape1 (mesh_faces trimesh) = 3%nat ->
  (0 < shape0 (mesh_faces trimesh))%nat ->
  Forall (fun x => 0 <= x < Z.of_nat (len (mesh_vertices trimesh)))
         (ravel (mesh_faces trimesh)) ->
  Z.of_nat (len (mesh_vertices trimesh)) <= exact_index_bound ->
  (forall poly,
     trimesh_to_vtk (mesh_vertices trimesh) (mesh_faces trimesh) None = Ok poly ->
     dec reduction poly = poly) ->
  decimate_trimesh dec trimesh reduction
  = Ok (mesh_vertices trimesh, mesh_faces trimesh).
Proof.
  intros Hrect Hw Hpos Hval Hb Hdec.
  destruct (trimesh_to_vtk_decomposes (mesh_vertices trimesh)
              (mesh_faces trimesh) None Hrect Hw Hpos Hval Hb)
    as (poly & Hpoly & Hpts & Hpolys & _); [done|].
  unfold decimate_trimesh. rewrite Hpoly. cbn [bind].
  rewrite (Hdec _ Hpoly), Hpts. cbn [bind].
  unfold GetNumberOfPolys. rewrite Hpolys, numpy_to_vtk_cells_count.
  rewrite decode_encode; [done | done | done |].
  by eapply Forall_range_weaken.
Qed.

Lemma decimate_trimesh_unchanged_witness :
  decimate_trimesh (H:=vtk64) (fun _ poly => poly)
    (MkMesh (NDArray 3 [[0; 0; 0]; [1; 0; 0]; [0; 1; 0]])
            (NDArray 3 [[0; 1; 2]]) None)
    (Q2Qc (1 # 10))
  = Ok (NDArray 3 [[0; 0; 0]; [1; 0; 0]; [0; 1; 0]], NDArray 3 [[0; 1; 2]]).
Proof.
  apply (decimate_trimesh_unchanged (H:=vtk64) (fun _ poly => poly)
           (MkMesh (NDArray 3 [[0; 0; 0]; [1; 0; 0]; [0; 1; 0]])
                   (NDArray 3 [[0; 1; 2]]) None)).
  - repeat constructor.
  - reflexivity.
  - unfold shape0; simpl; lia.
  - unfold ravel, len, shape0; simpl. repeat constructor; lia.
  - unfold len, shape0, exact_index_bound; simpl. lia.
  - done.
Defined.

(** ** [process_colors] *)

Lemma Qc_trunc_unit (x : Qc) :
  (0 ≤ x)%Qc -> (x ≤ 1)%Qc ->
  Qc_trunc x = if decide (x = 1%Qc) then 1 else 0.
Proof.
  intros H0 H1. unfold Qc_trunc.
  assert (this 0%Qc = (0 # 1)%Q) as E0 by reflexivity.
  assert (this 1%Qc = (1 # 1)%Q) as E1 by reflexivity.
  unfold Qcle in H0, H1. rewrite E0 in H0. rewrite E1 in H1.
  destruct (decide (x = 1%Qc)) as [->|Hne]; [reflexivity|].
  destruct x as [[n d] Hcanon]. unfold Qle in H0, H1.
  cbn in H0, H1. cbn [this Qnum Qden].
  assert (n <> Z.pos d) as Hnd.
  { intros ->. apply Hne. apply Qc_is_canon. rewrite E1.
    unfold Qeq; cbn. lia. }
  apply Z.quot_small. lia.
Qed.

(** A component in [0, 1], cast to uint8 and then multiplied by 255:
    255 for 1, and 0 for everything below. *)
Lemma single_color_component (x : Qc) :
  (0 ≤ x)%Qc -> (x ≤ 1)%Qc ->
  to_uint8 (to_uint8 x * Qc_of_Z 255)%Qc
  = Qc_of_Z (if decide (x = 1%Qc) then 255 else 0).
Proof.
  intros H0 H1. unfold to_uint8 at 2. rewrite (Qc_trunc_unit x H0 H1).
  by destruct (decide (x = 1%Qc)).
Qed.

Lemma color_max_spec (a : color_array) (mx : Qc) :
  color_max a = Return mx ->
  mx ∈ cdata a /\ Forall (fun y => (y ≤ mx)%Qc) (cdata a).
Proof.
  unfold color_max. destruct (cdata a) as [|x l]; [done|].
  intros [= <-]. revert x. induction l as [|y l IH]; intros x; cbn [foldl].
  - split; [left | repeat constructor; apply Qcle_refl].
  - destruct (IH (if decide (x ≤ y)%Qc then y else x)) as [Hin Hall].
    apply Forall_cons in Hall as [Hxy Hl]. split.
    + apply elem_of_cons in Hin as [->|Hin]; [|by do 2 right].
      destruct (decide (x ≤ y)%Qc); [right|]; left.
    + destruct (decide (x ≤ y)%Qc) as [Hle|Hgt].
      * repeat constructor; [by eapply Qcle_trans | done | done].
      * constructor; [done|]. constructor; [|done].
        eapply Qcle_trans; [|exact Hxy].
        apply Qclt_le_weak. by apply Qcnot_le_lt.
Qed.

Lemma color_min_spec (a : color_array) (mn : Qc) :
  color_min a = Return mn ->
  mn ∈ cdata a /\ Forall (fun y => (mn ≤ y)%Qc) (cdata a).
Proof.
  unfold color_min. destruct (cdata a) as [|x l]; [done|].
  intros [= <-]. revert x. induction l as [|y l IH]; intros x; cbn [foldl].
  - split; [left | repeat constructor; apply Qcle_refl].
  - destruct (IH (if decide (y ≤ x)%Qc then y else x)) as [Hin Hall].
    apply Forall_cons in Hall as [Hxy Hl]. split.
    + apply elem_of_cons in Hin as [->|Hin]; [|by do 2 right].
      destruct (decide (y ≤ x)%Qc); [right|]; left.
    + destruct (decide (y ≤ x)%Qc) as [Hle|Hgt].
      * repeat constructor; [by eapply Qcle_trans | done | done].
      * constructor; [done|]. constructor; [|done].
        eapply Qcle_trans; [exact Hxy|].
        apply Qclt_le_weak. by apply Qcnot_le_lt.
Qed.

Lemma color_max_nonempty (a : color_array) :
  cdata a <> [] -> exists mx, color_max a = Return mx.
Proof. unfold color_max. destruct (cdata a); [done | eauto]. Qed.

Lemma color_min_nonempty (a : color_array) :
  cdata a <> [] -> exists mn, color_min a = Return mn.
Proof. unfold color_min. destruct (cdata a); [done | eauto]. Qed.

(** The two assertions of [process_colors], before a continuation [k]:
    on an array with no entry the maximum raises; an entry outside
    [0, 1] fails an assertion; otherwise [k] runs. *)
Lemma range_check_cases {A} (color : color_array) (k : outcome A) :
  let run :=
    (mx <<- color_max color ;;
     _ <<- assert (bool_decide (mx ≤ 1)%Qc) ;;
     mn <<- color_min color ;;
     _ <<- assert (bool_decide (0 ≤ mn)%Qc) ;;
     k) in
  (cdata color = [] /\ run = Throw (Exn (ValueError max_msg))) \/
  (Exists (fun x => ~ ((0 ≤ x)%Qc /\ (x ≤ 1)%Qc)) (cdata color) /\
   run = Throw AssertionError) \/
  (cdata color <> [] /\
   Forall (fun x => (0 ≤ x)%Qc /\ (x ≤ 1)%Qc) (cdata color) /\ run = k).
Proof.
  intros run. subst run.
  destruct (decide (cdata color = [])) as [Hnil|Hne].
  { left. split; [done|]. unfold color_max. by rewrite Hnil. }
  right.
  destruct (color_max_nonempty color Hne) as [mx Hmx].
  destruct (color_min_nonempty color Hne) as [mn Hmn].
  rewrite Hmx. cbn [obind].
  apply color_max_spec in Hmx as [Hmx_in Hmx_all].
  destruct (decide (mx ≤ 1)%Qc) as [Hle|Hgt].
  2:{ left. rewrite bool_decide_eq_false_2 by done. split; [|done].
      apply Exists_exists. exists mx. split; [done|]. by intros [_ ?]. }
  rewrite bool_decide_eq_true_2 by done. cbn [assert obind].
  rewrite Hmn. cbn [obind].
  apply color_min_spec in Hmn as [Hmn_in Hmn_all].
  destruct (decide (0 ≤ mn)%Qc) as [Hge|Hlt].
  2:{ left. rewrite bool_decide_eq_false_2 by done. split; [|done].
      apply Exists_exists. exists mn. split; [done|]. by intros [? _]. }
  rewrite bool_decide_eq_true_2 by done. cbn [assert obind].
  right. split; [done|]. split; [|done].
  apply Forall_forall. intros x Hx.
  rewrite Forall_forall in Hmx_all, Hmn_all. split.
  - eapply Qcle_trans; [exact Hge | by apply Hmn_all].
  - eapply Qcle_trans; [by apply Hmx_all | exact Hle].
Qed.

Lemma Forall_not_Exists_unit (l : list Qc) :
  Forall (fun x => (0 ≤ x)%Qc /\ (x ≤ 1)%Qc) l ->
  Exists (fun x => ~ ((0 ≤ x)%Qc /\ (x ≤ 1)%Qc)) l -> False.
Proof.
  intros Hall Hex. apply Exists_exists in Hex as (x & Hx & Hbad).
  rewrite Forall_forall in Hall. by apply Hbad, Hall.
Qed.

Lemma length_concat_replicate {A} (n : nat) (l : list A) :
  length (concat (replicate n l)) = (n * length l)%nat.
Proof. induction n as [|n IH]; simpl; [done|]. rewrite length_app, IH. lia. Qed.

(** The three shapes [process_colors] tells apart, in the order it tests
    them. *)
Lemma process_colors_cases `{Float64} {C} (color : color_array)
    (xyz : ndarray C) :
  (cshape color = [len xyz; 3%nat] /\ cdtype color = c_uint8 /\
   process_colors color xyz = Return (color, false)) \/
  (cshape color = [len xyz; 3%nat] /\ cdtype color <> c_uint8 /\
   process_colors color xyz =
     (mx <<- color_max color ;;
      _ <<- assert (bool_decide (mx ≤ 1)%Qc) ;;
      mn <<- color_min color ;;
      _ <<- assert (bool_decide (0 ≤ mn)%Qc) ;;
      Return (ColorArray c_uint8 (cshape color)
                (map (fun x => to_uint8 (times_255 (cdtype color) x))
                     (cdata color)),
              false))) \/
  (cshape color = [len xyz] /\
   process_colors color xyz = Return (color, true)) \/
  (cshape color = [3%nat] /\ len xyz <> 3%nat /\
   process_colors color xyz =
     (mx <<- color_max color ;;
      _ <<- assert (bool_decide (mx ≤ 1)%Qc) ;;
      mn <<- color_min color ;;
      _ <<- assert (bool_decide (0 ≤ mn)%Qc) ;;
      Return (ColorArray c_uint8 [len xyz; 3%nat]
                (concat (replicate (len xyz)
                   (map (fun x => to_uint8 (to_uint8 x * Qc_of_Z 255)%Qc)
                        (cdata color)))),
              false))) \/
  (cshape color <> [len xyz; 3%nat] /\ cshape color <> [len xyz] /\
   cshape color <> [3%nat] /\
   process_colors color xyz = Throw (Exn (ValueError color_shape_msg))).
Proof.
  unfold process_colors.
  destruct (decide (cshape color = [len xyz; 3%nat])) as [H1|H1].
  - destruct (decide (cdtype color = c_uint8)) as [Hd|Hd].
    + left. rewrite bool_decide_eq_true_2 by done. done.
    + right; left. rewrite bool_decide_eq_false_2 by done. done.
  - destruct (decide (cshape color = [len xyz])) as [H2|H2].
    + right; right; left. done.
    + destruct (decide (cshape color = [3%nat])) as [H3|H3].
      * right; right; right; left. split; [done|]. split; [|done].
        intros Hn. apply H2. by rewrite H3, Hn.
      * right; right; right; right. done.
Qed.

(** What [process_colors] can return. *)
Lemma process_colors_returns `{Float64} {C} (color : color_array)
    (xyz : ndarray C) (out : color_array) (map_colors : bool) :
  process_colors color xyz = Return (out, map_colors) ->
  (well_shaped color -> well_shaped out) /\
  if map_colors then out = color /\ cshape color = [len xyz]
  else cshape out = [len xyz; 3%nat] /\ cdtype out = c_uint8 /\
       cshape color <> [len xyz].
Proof.
  intros Hrun.
  destruct (process_colors_cases color xyz)
    as [(Hs & Hd & Hr)|[(Hs & Hd & Hr)|[(Hs & Hr)|[(Hs & Hn & Hr)|(_ & _ & _ & Hr)]]]];
    rewrite Hr in Hrun; clear Hr.
  - injection Hrun as <- <-. split; [done|]. split; [done|]. split; [done|].
    by rewrite Hs.
  - destruct (range_check_cases color
                (Return (ColorArray c_uint8 (cshape color)
                   (map (fun x => to_uint8 (times_255 (cdtype color) x))
                        (cdata color)), false)))
      as [(_ & Hr)|[(_ & Hr)|(_ & _ & Hr)]]; cbv zeta in Hr;
      rewrite Hr in Hrun; try done.
    injection Hrun as <- <-. split.
    + unfold well_shaped. cbn [cdata cshape]. by rewrite length_map.
    + cbn [cdtype cshape]. split; [done|]. split; [done|]. by rewrite Hs.
  - injection Hrun as <- <-. done.
  - destruct (range_check_cases color
                (Return (ColorArray c_uint8 [len xyz; 3%nat]
                   (concat (replicate (len xyz)
                      (map (fun x => to_uint8 (to_uint8 x * Qc_of_Z 255)%Qc)
                           (cdata color)))), false)))
      as [(_ & Hr)|[(_ & Hr)|(_ & _ & Hr)]]; cbv zeta in Hr;
      rewrite Hr in Hrun; try done.
    injection Hrun as <- <-. split.
    + unfold well_shaped. cbn [cdata cshape]. intros Hws.
      rewrite length_concat_replicate, length_map, Hws, Hs. simpl. lia.
    + cbn [cdtype cshape]. split; [done|]. split; [done|].
      rewrite Hs. intros [= Hq]. congruence.
  - done.
Qed.

(** What makes [process_colors] fail. *)
Lemma process_colors_throws `{Float64} {C} (color : color_array)
    (xyz : ndarray C) (e : exception) :
  process_colors color xyz = Throw e ->
  e = AssertionError \/ e = Exn (ValueError max_msg) \/
  e = Exn (ValueError color_shape_msg).
Proof.
  intros Hrun.
  destruct (process_colors_cases color xyz)
    as [(Hs & Hd & Hr)|[(Hs & Hd & Hr)|[(Hs & Hr)|[(Hs & Hn & Hr)|(_ & _ & _ & Hr)]]]];
    rewrite Hr in Hrun; clear Hr.
  - done.
  - destruct (range_check_cases color
                (Return (ColorArray c_uint8 (cshape color)
                   (map (fun x => to_uint8 (times_255 (cdtype color) x))
                        (cdata color)), false)))
      as [(_ & Hr)|[(_ & Hr)|(_ & _ & Hr)]]; cbv zeta in Hr;
      rewrite Hr in Hrun; [| |done]; injection Hrun as <-; tauto.
  - done.
  - destruct (range_check_cases color
                (Return (ColorArray c_uint8 [len xyz; 3%nat]
                   (concat (replicate (len xyz)
                      (map (fun x => to_uint8 (to_uint8 x * Qc_of_Z 255)%Qc)
                           (cdata color)))), false)))
      as [(_ & Hr)|[(_ & Hr)|(_ & _ & Hr)]]; cbv zeta in Hr;
      rewrite Hr in Hrun; [| |done]; injection Hrun as <-; tauto.
  - injection Hrun as <-. tauto.
Qed.

(** X16.  What [process_colors] returns is either the array it was
    given, of shape (N,), to be mapped through a colormap, or explicit
    colours: a uint8 array of shape (N,3) that is not to be mapped, N
    being [len(xyz)].  The result has as many entries as its shape says
    if the input has. *)
Theorem process_colors_output `{Float64} {C} (color : color_array)
    (xyz : ndarray C) (out : color_array) (map_colors : bool) :
  well_shaped color ->
  process_colors color xyz = Return (out, map_colors) ->
  well_shaped out /\
  if map_colors then out = color /\ cshape color = [len xyz]
  else cshape out = [len xyz; 3%nat] /\ cdtype out = c_uint8.
Proof.
  intros Hws Hrun.
  destruct (process_colors_returns color xyz out map_colors Hrun) as [Hw Hout].
  split; [by apply Hw|].
  destruct map_colors; [done|]. by destruct Hout as (? & ? & _).
Qed.

Lemma process_colors_output_witness :
  let out := ColorArray c_uint8 [2%nat; 3%nat]
               (Qc_of_Z <$> [255; 0; 0; 255; 0; 0]) in
  well_shaped out /\ cshape out = [2%nat; 3%nat] /\ cdtype out = c_uint8.
Proof.
  apply (process_colors_output (H:=exact_product)
           (ColorArray c_float64 [3%nat] [1%Qc; Q2Qc (1 # 2); 0%Qc])
           (NDArray 3 [[0; 0; 0]; [1; 1; 1]]) _ false).
  - reflexivity.
  - reflexivity.
Defined.

(** X17.  One colour for all: a colour of shape (3,) with components in
    [0, 1], on N points (N other than 3), comes back as N rows of uint8,
    each component 255 if it was 1 and 0 otherwise, for the components
    are cast to uint8 before they are multiplied by 255.  A grey
    (0.5, 0.5, 0.5) comes back black. *)
Theorem process_colors_single_color `{Float64} {C} (color : color_array)
    (xyz : ndarray C) :
  cshape color = [3%nat] -> len xyz <> 3%nat -> cdata color <> [] ->
  Forall (fun x => (0 ≤ x)%Qc /\ (x ≤ 1)%Qc) (cdata color) ->
  process_colors color xyz =
  Return (ColorArray c_uint8 [len xyz; 3%nat]
            (concat (replicate (len xyz)
               (map (fun x => Qc_of_Z (if decide (x = 1%Qc) then 255 else 0))
                    (cdata color)))),
          false).
Proof.
  intros Hs Hn Hne Hall.
  destruct (process_colors_cases color xyz)
    as [(Hs' & _)|[(Hs' & _)|[(Hs' & _)|[(_ & _ & Hr)|(_ & _ & Hs' & _)]]]];
    try congruence.
  rewrite Hr.
  destruct (range_check_cases color
              (Return (ColorArray c_uint8 [len xyz; 3%nat]
                 (concat (replicate (len xyz)
                    (map (fun x => to_uint8 (to_uint8 x * Qc_of_Z 255)%Qc)
                         (cdata color)))), false)))
    as [(Hnil & _)|[(Hex & _)|(_ & _ & Hk)]]; cbv zeta in *.
  - done.
  - destruct (Forall_not_Exists_unit _ Hall Hex).
  - rewrite Hk. do 5 f_equal.
    apply map_ext_Forall. eapply Forall_impl; [exact Hall|].
    intros x [H0 H1]. by apply single_color_component.
Qed.

Lemma process_colors_single_color_witness :
  process_colors (H:=exact_product)
    (ColorArray c_float64 [3%nat] [Q2Qc (1 # 2); Q2Qc (1 # 2); Q2Qc (1 # 2)])
    (NDArray 3 [[0; 0; 0]; [1; 1; 1]])
  = Return (ColorArray c_uint8 [2%nat; 3%nat]
              (Qc_of_Z <$> [0; 0; 0; 0; 0; 0]), false).
Proof.
  apply (process_colors_single_color (H:=exact_product)
           (ColorArray c_float64 [3%nat]
              [Q2Qc (1 # 2); Q2Qc (1 # 2); Q2Qc (1 # 2)])
           (NDArray 3 [[0; 0; 0]; [1; 1; 1]])).
  - reflexivity.
  - unfold len, shape0; simpl; lia.
  - done.
  - repeat constructor; by vm_compute.
Defined.

(** X18.  Colours not in [0, 1] are refused: for explicit colours that
    are not uint8, per point (shape (N,3)) or one for all (shape (3,),
    N other than 3), a component above 1 or below 0 fails an assertion.
    Colours given as 0..255 must be uint8 arrays of shape (N,3). *)
Theorem process_colors_out_of_range `{Float64} {C} (color : color_array)
    (xyz : ndarray C) :
  (cshape color = [len xyz; 3%nat] /\ cdtype color <> c_uint8) \/
  (cshape color = [3%nat] /\ len xyz <> 3%nat) ->
  Exists (fun x => ~ ((0 ≤ x)%Qc /\ (x ≤ 1)%Qc)) (cdata color) ->
  process_colors color xyz = Throw AssertionError.
Proof.
  intros Hshape Hex.
  assert (cdata color <> []) as Hne.
  { intros Hnil. rewrite Hnil in Hex. by apply Exists_nil in Hex. }
  destruct (process_colors_cases color xyz)
    as [(Hs' & Hd' & _)|[(Hs' & _ & Hr)|[(Hs' & _)|[(Hs' & _ & Hr)|(Hs1 & _ & Hs3 & _)]]]].
  - destruct Hshape as [[_ Hd]|[Hs _]]; congruence.
  - rewrite Hr.
    destruct (range_check_cases color
                (Return (ColorArray c_uint8 (cshape color)
                   (map (fun x => to_uint8 (times_255 (cdtype color) x))
                        (cdata color)), false)))
      as [(Hnil & _)|[(_ & Hk)|(_ & Hall & _)]]; cbv zeta in *.
    + done.
    + done.
    + destruct (Forall_not_Exists_unit _ Hall Hex).
  - destruct Hshape as [[Hs _]|[Hs Hn]]; [congruence|].
    rewrite Hs in Hs'. injection Hs' as Hq. congruence.
  - rewrite Hr.
    destruct (range_check_cases color
                (Return (ColorArray c_uint8 [len xyz; 3%nat]
                   (concat (replicate (len xyz)
                      (map (fun x => to_uint8 (to_uint8 x * Qc_of_Z 255)%Qc)
                           (cdata color)))), false)))
      as [(Hnil & _)|[(_ & Hk)|(_ & Hall & _)]]; cbv zeta in *.
    + done.
    + done.
    + destruct (Forall_not_Exists_unit _ Hall Hex).
  - destruct Hshape as [[Hs _]|[Hs _]]; congruence.
Qed.

Lemma process_colors_out_of_range_witness :
  process_colors (H:=exact_product)
    (ColorArray c_int64 [3%nat] (Qc_of_Z <$> [255; 0; 0]))
    (NDArray 3 [[0; 0; 0]; [1; 1; 1]])
  = Throw AssertionError.
Proof.
  apply (process_colors_out_of_range (H:=exact_product)).
  - right. split; [reflexivity|]. unfold len, shape0; simpl; lia.
  - apply Exists_cons_hd. intros [_ Hle]. by vm_compute in Hle.
Defined.

(** X19.  [process_colors] raises its shape error exactly for the
    shapes other than (N,3), (N,) and (3,), N being [len(xyz)]. *)
Theorem process_colors_shape_error `{Float64} {C} (color : color_array)
    (xyz : ndarray C) :
  process_colors color xyz = Throw (Exn (ValueError color_shape_msg)) <->
  cshape color <> [len xyz; 3%nat] /\ cshape color <> [len xyz] /\
  cshape color <> [3%nat].
Proof.
  destruct (process_colors_cases color xyz)
    as [(Hs & Hd & Hr)|[(Hs & Hd & Hr)|[(Hs & Hr)|[(Hs & Hn & Hr)|(H1 & H2 & H3 & Hr)]]]];
    rewrite Hr.
  - split; [done | by intros (? & _)].
  - split; [|by intros (? & _)].
    destruct (range_check_cases color
                (Return (ColorArray c_uint8 (cshape color)
                   (map (fun x => to_uint8 (times_255 (cdtype color) x))
                        (cdata color)), false)))
      as [(_ & Hk)|[(_ & Hk)|(_ & _ & Hk)]]; cbv zeta in Hk; rewrite Hk;
      [|done|done].
    unfold max_msg, color_shape_msg. discriminate.
  - split; [done | by intros (_ & ? & _)].
  - split; [|by intros (_ & _ & ?)].
    destruct (range_check_cases color
                (Return (ColorArray c_uint8 [len xyz; 3%nat]
                   (concat (replicate (len xyz)
                      (map (fun x => to_uint8 (to_uint8 x * Qc_of_Z 255)%Qc)
                           (cdata color)))), false)))
      as [(_ & Hk)|[(_ & Hk)|(_ & _ & Hk)]]; cbv zeta in Hk; rewrite Hk;
      [|done|done].
    unfold max_msg, color_shape_msg. discriminate.
  - done.
Qed.

(** ** [point_cloud_actor] *)

(** X20.  [point_cloud_actor] raises its size error exactly when the
    colours are accepted and the sizes are an array whose length is not
    the number of points: the colours are checked first, and a scalar
    size always fits. *)
Theorem point_cloud_actor_size_check `{Float64} {C} (xyz : ndarray C)
    (size : size_arg) (color : color_array) (opacity : Qc) :
  point_cloud_actor xyz size color opacity = Throw (Exn (ValueError size_msg))
  <-> (exists r, process_colors color xyz = Return r) /\
      exists l, size = SizeArray l /\ length l <> len xyz.
Proof.
  unfold point_cloud_actor.
  destruct (process_colors color xyz) as [[out map_colors]|e] eqn:Hpc;
    cbn [obind].
  2:{ split.
      - intros [= ->]. apply process_colors_throws in Hpc.
        destruct Hpc as [Hpc|[Hpc|Hpc]]; [done| |]; injection Hpc;
          unfold size_msg, max_msg, color_shape_msg; discriminate.
      - by intros [[r Hr] _]. }
  destruct size as [x|l]; cbn [obind].
  - split; [|by intros (_ & l & ? & _)].
    destruct map_colors; [|done].
    destruct (color_min out) as [mn|e] eqn:Hmn; cbn [obind].
    + destruct (color_max out) as [mx|e] eqn:Hmx; cbn [obind]; [done|].
      unfold color_max in Hmx. destruct (cdata out); [|done].
      injection Hmx as <-. unfold size_msg, max_msg. discriminate.
    + unfold color_min in Hmn. destruct (cdata out); [|done].
      injection Hmn as <-. unfold size_msg, min_msg. discriminate.
  - destruct (Nat.eqb_spec (length l) (len xyz)) as [Heq|Hne];
      cbn [negb obind].
    + split; [|by intros (_ & l' & [= <-] & ?)].
      destruct map_colors; [|done].
      destruct (color_min out) as [mn|e] eqn:Hmn; cbn [obind].
      * destruct (color_max out) as [mx|e] eqn:Hmx; cbn [obind]; [done|].
        unfold color_max in Hmx. destruct (cdata out); [|done].
        injection Hmx as <-. unfold size_msg, max_msg. discriminate.
      * unfold color_min in Hmn. destruct (cdata out); [|done].
        injection Hmn as <-. unfold size_msg, min_msg. discriminate.
    + split; [|done]. intros _. split; [by eauto|]. by exists l.
Qed.

(** X21.  The cloud [point_cloud_actor] builds has one size and one
    colour entry per point: its points are [xyz], there are [len(xyz)]
    sizes, and the colours are (N,3) or (N,) with as many entries as
    their shape says.  The colour array is selected, and a scalar range
    set, exactly when the colours given have shape (N,). *)
Theorem point_cloud_actor_output `{Float64} {C} (xyz : ndarray C)
    (size : size_arg) (color : color_array) (opacity : Qc)
    (pc : point_cloud C) :
  well_shaped color ->
  point_cloud_actor xyz size color opacity = Return pc ->
  pc_points pc = xyz /\
  length (pc_scalars pc) = len xyz /\
  well_shaped (pc_colors pc) /\
  head (cshape (pc_colors pc)) = Some (len xyz) /\
  (pc_color_array_selected pc = true <-> cshape color = [len xyz]) /\
  (is_Some (pc_scalar_range pc) <-> cshape color = [len xyz]).
Proof.
  intros Hws Hrun. unfold point_cloud_actor in Hrun.
  destruct (process_colors color xyz) as [[out map_colors]|e] eqn:Hpc;
    cbn [obind] in Hrun; [|done].
  apply process_colors_returns in Hpc as [Hw Hout]. specialize (Hw Hws).
  set (sz := match size with ScalarSize x => _ | SizeArray l => _ end) in Hrun.
  assert (forall s, sz = Return s -> length s = len xyz) as Hsz.
  { intros s. unfold sz. destruct size as [x|l].
    - intros [= <-]. by rewrite length_replicate.
    - destruct (Nat.eqb_spec (length l) (len xyz)); cbn [negb]; [|done].
      by intros [= <-]. }
  destruct sz as [s|e]; cbn [obind] in Hrun; [|done].
  specialize (Hsz s eq_refl).
  destruct map_colors.
  - destruct Hout as [-> Hs].
    destruct (color_min color) as [mn|e]; cbn [obind] in Hrun; [|done].
    destruct (color_max color) as [mx|e]; cbn [obind] in Hrun; [|done].
    injection Hrun as <-. cbn. rewrite Hs. by split_and!.
  - destruct Hout as (Hs & _ & Hne).
    injection Hrun as <-. cbn. rewrite Hs. by split_and!.
Qed.

Lemma point_cloud_actor_output_witness :
  let xyz := NDArray 3 [[0; 0; 0]; [1; 1; 1]] in
  let color := ColorArray c_float64 [2%nat] [Q2Qc (1 # 2); 1%Qc] in
  let pc := PointCloud xyz [Qc_of_Z 100; Qc_of_Z 100] color
              (Some (Q2Qc (1 # 2), 1%Qc)) true in
  pc_points pc = xyz /\
  length (pc_scalars pc) = len xyz /\
  well_shaped (pc_colors pc) /\
  head (cshape (pc_colors pc)) = Some (len xyz) /\
  (pc_color_array_selected pc = true <-> cshape color = [len xyz]) /\
  (is_Some (pc_scalar_range pc) <-> cshape color = [len xyz]).
Proof.
  apply (point_cloud_actor_output (H:=exact_product)
           (NDArray 3 [[0; 0; 0]; [1; 1; 1]]) (ScalarSize (Qc_of_Z 100))
           (ColorArray c_float64 [2%nat] [Q2Qc (1 # 2); 1%Qc])
           (Q2Qc (1 # 2))).
  - reflexivity.
  - reflexivity.
Defined.

(** X22.  On three points a colour of shape (3,) is not one colour for
    all: the shape (N,) is tested first, so its three components are
    taken as three values to map through the colormap, with the scalar
    range set to their minimum and maximum.  So it is for the default
    colour (0, 0, 0). *)
Theorem point_cloud_actor_three_points `{Float64} {C} (xyz : ndarray C)
    (size : size_arg) (color : color_array) (opacity : Qc) :
  len xyz = 3%nat -> cshape color = [3%nat] -> cdata color <> [] ->
  match size with
  | ScalarSize _ => True
  | SizeArray l => length l = 3%nat
  end ->
  exists mn mx sizes,
    color_min color = Return mn /\ color_max color = Return mx /\
    point_cloud_actor xyz size color opacity
    = Return (PointCloud xyz sizes color (Some (mn, mx)) true).
Proof.
  intros Hn Hs Hne Hsize.
  destruct (color_min_nonempty color Hne) as [mn Hmn].
  destruct (color_max_nonempty color Hne) as [mx Hmx].
  exists mn, mx. unfold point_cloud_actor.
  destruct (process_colors_cases color xyz)
    as [(Hs' & _)|[(Hs' & _)|[(_ & Hr)|[(_ & Hn' & _)|(_ & H2 & _)]]]];
    try (rewrite Hn in *; congruence).
  rewrite Hr. cbn [obind].
  destruct size as [x|l]; cbn [obind].
  - rewrite Hmn, Hmx. cbn [obind]. by eexists.
  - rewrite Hsize, Hn, Nat.eqb_refl. cbn [negb obind].
    rewrite Hmn, Hmx. cbn [obind]. by eexists.
Qed.

Lemma point_cloud_actor_three_points_witness :
  exists mn mx sizes,
    color_min (ColorArray c_int64 [3%nat] [0%Qc; 0%Qc; 0%Qc]) = Return mn /\
    color_max (ColorArray c_int64 [3%nat] [0%Qc; 0%Qc; 0%Qc]) = Return mx /\
    point_cloud_actor (H:=exact_product)
      (NDArray 3 [[0; 0; 0]; [1; 1; 1]; [2; 2; 2]])
      (ScalarSize (Qc_of_Z 100))
      (ColorArray c_int64 [3%nat] [0%Qc; 0%Qc; 0%Qc]) (Q2Qc (1 # 2))
    = Return (PointCloud (NDArray 3 [[0; 0; 0]; [1; 1; 1]; [2; 2; 2]]) sizes
                (ColorArray c_int64 [3%nat] [0%Qc; 0%Qc; 0%Qc])
                (Some (mn, mx)) true).
Proof.
  apply (point_cloud_actor_three_points (H:=exact_product)).
  - reflexivity.
  - reflexivity.
  - done.
  - exact I.
Defined.

(** ** [mesh_actor] *)

Lemma trimesh_to_vtk_Ok_inv `{Platform} {C} (vertices : ndarray C)
    (tris : ndarray Z) (graph_edges : option (ndarray Z))
    (poly : vtkPolyData C) :
  trimesh_to_vtk vertices tris graph_edges = Ok poly ->
  GetPoints poly = Some vertices /\
  GetPolys poly = numpy_to_vtk_cells tris /\
  (graph_edges = None -> GetLines poly = new_vtkCellArray).
Proof.
  unfold trimesh_to_vtk.
  destruct (negb _); [done|].
  destruct (np_max tris) as [mx|e]; [|done]. cbn [bind].
  destruct (_ <=? mx); [done|].
  unfold numpy_rep_to_vtk.
  destruct graph_edges as [e|].
  - destruct (0 <? len e)%nat; by intros [= <-].
  - by intros [= <-].
Qed.

(** X23.  The actor [mesh_actor] builds: its mesh has the vertices and
    the encoded faces of the mesh given; it has line cells only if
    [show_link_edges] is set, and then no normals are computed; the
    colours set on the points have one entry per vertex and those set
    on the cells one per face; and the colour array is selected only if
    a lookup table is given and the face colours have shape (M,), M the
    number of faces. *)
Theorem mesh_actor_output `{Platform} `{Float64} {C L : Type}
    (mesh : Mesh C) (color : Qc * Qc * Qc) (opacity : Qc)
    (vertex_colors face_colors : option color_array) (lut : option L)
    (calc_normals show_link_edges : bool) (line_width : Z)
    (actor : vtkMeshActor C L) :
  mesh_actor mesh color opacity vertex_colors face_colors lut calc_normals
    show_link_edges line_width = Return actor ->
  GetPoints (ma_poly actor) = Some (mesh_vertices mesh) /\
  GetPolys (ma_poly actor) = numpy_to_vtk_cells (mesh_faces mesh) /\
  (GetLines (ma_poly actor) <> new_vtkCellArray ->
   show_link_edges = true /\ ma_normals actor = false) /\
  (forall c, ma_point_scalars actor = Some c ->
     head (cshape c) = Some (len (mesh_vertices mesh))) /\
  (forall c, ma_cell_scalars actor = Some c ->
     head (cshape c) = Some (len (mesh_faces mesh))) /\
  (ma_color_array_selected actor = true ->
   is_Some lut /\
   exists c, face_colors = Some c /\ cshape c = [len (mesh_faces mesh)]).
Proof.
  intros Hrun. unfold mesh_actor in Hrun.
  set (built := if show_link_edges then _ else _) in Hrun.
  assert (forall poly, built = Ok poly ->
            GetPoints poly = Some (mesh_vertices mesh) /\
            GetPolys poly = numpy_to_vtk_cells (mesh_faces mesh) /\
            (show_link_edges = false -> GetLines poly = new_vtkCellArray))
    as Hbuilt.
  { intros poly. unfold built. destruct show_link_edges; intros Hp;
      apply trimesh_to_vtk_Ok_inv in Hp as (Hpts & Hpolys & Hlines).
    - done.
    - split; [done|]. split; [done|]. intros _. by apply Hlines. }
  destruct built as [poly|e]; cbn [of_result obind] in Hrun; [|done].
  destruct (Hbuilt poly eq_refl) as (Hpts & Hpolys & Hlines). clear Hbuilt.
  set (vert := match vertex_colors with Some v => _ | None => _ end) in Hrun.
  assert (forall r, vert = Return r ->
            forall c, fst <$> r = Some c ->
              head (cshape c) = Some (len (mesh_vertices mesh))) as Hvert.
  { intros r. unfold vert. destruct vertex_colors as [v|]; [|by intros [= <-]].
    destruct (process_colors v (mesh_vertices mesh)) as [[out m]|e] eqn:Hpc;
      cbn [obind]; [|done].
    intros [= <-] c [= <-].
    apply process_colors_returns in Hpc as [_ Hout].
    destruct m; [destruct Hout as [-> ->] | destruct Hout as (-> & _)]; done. }
  destruct vert as [v|e]; cbn [obind] in Hrun; [|done].
  specialize (Hvert v eq_refl).
  set (face := match face_colors with Some f => _ | None => _ end) in Hrun.
  assert (forall r, face = Return r ->
            (forall c, fst <$> r = Some c ->
               head (cshape c) = Some (len (mesh_faces mesh))) /\
            (forall c m, r = Some (c, m) -> m = true ->
               exists c', face_colors = Some c' /\
                 cshape c' = [len (mesh_faces mesh)])) as Hface.
  { intros r. unfold face. destruct face_colors as [f|]; [|by intros [= <-]].
    destruct (process_colors f (mesh_faces mesh)) as [[out m]|e] eqn:Hpc;
      cbn [obind]; [|done].
    intros [= <-].
    apply process_colors_returns in Hpc as [_ Hout]. split.
    - intros c [= <-].
      destruct m; [destruct Hout as [-> ->] | destruct Hout as (-> & _)]; done.
    - intros c m' [= <- <-] ->. destruct Hout as [-> Hs]. eauto. }
  destruct face as [f|e]; cbn [obind] in Hrun; [|done].
  destruct (Hface f eq_refl) as [Hf1 Hf2]. clear Hface.
  injection Hrun as <-. cbn.
  split_and!; try done.
  - intros Hl. destruct show_link_edges.
    + by rewrite andb_false_r.
    + by destruct Hl; apply Hlines.
  - destruct lut as [l|]; [|done]. destruct f as [[c m]|]; [|done].
    intros ->. split; [by eexists|]. by eapply Hf2.
Qed.

Lemma mesh_actor_output_witness :
  let vertices := NDArray 3 [[0; 0; 0]; [1; 0; 0]; [0; 1; 0]] in
  let faces := NDArray 3 [[0; 1; 2]] in
  let actor : vtkMeshActor Z unit :=
    MeshActor
      (PolyData (Some vertices) (numpy_to_vtk_cells (H:=vtk64) faces)
         new_vtkCellArray)
      None (Some (ColorArray c_float64 [1%nat] [Q2Qc (1 # 2)]))
      true None false 3 (0%Qc, 1%Qc, 0%Qc) (Q2Qc (1 # 10)) in
  GetPoints (ma_poly actor) = Some vertices /\
  GetPolys (ma_poly actor) = numpy_to_vtk_cells (H:=vtk64) faces /\
  (GetLines (ma_poly actor) <> new_vtkCellArray ->
   false = true /\ ma_normals actor = false) /\
  (forall c, ma_point_scalars actor = Some c ->
     head (cshape c) = Some (len vertices)) /\
  (forall c, ma_cell_scalars actor = Some c ->
     head (cshape c) = Some (len faces)) /\
  (ma_color_array_selected actor = true ->
   is_Some (None : option unit) /\
   exists c, Some (ColorArray c_float64 [1%nat] [Q2Qc (1 # 2)]) = Some c /\
     cshape c = [len faces]).
Proof.
  apply (mesh_actor_output (H:=vtk64) (H0:=exact_product)
           (MkMesh (NDArray 3 [[0; 0; 0]; [1; 0; 0]; [0; 1; 0]])
                   (NDArray 3 [[0; 1; 2]]) None)
           (0%Qc, 1%Qc, 0%Qc) (Q2Qc (1 # 10)) None
           (Some (ColorArray c_float64 [1%nat] [Q2Qc (1 # 2)])) None
           true false 3).
  reflexivity.
Defined.
